(** * ImageListView: tile geometry, image cache and loading pipeline

    A shallow embedding of [imagelistview.cpp].  The view shows the rows of
    a list model as a grid of square tiles; images are decoded off the UI
    thread through a chain of reactive operators and land in a [QCache].

    Conventions of the embedding.
    - [int] is a 32-bit two's complement integer carried by [Z]; [+], [-]
      and [*] wrap, [/] and [%] truncate towards zero and have no result
      on a zero divisor (nor on [INT_MIN / -1]).  A computation without a
      result is [None].
    - [QPoint], [QRect], [QCache], [QImage] and the scroll bar follow the
      behaviour of the Qt 5 classes the source calls.
    - The model is the flat list of image file names behind
      [model()->rowCount(rootIndex())] and [model()->data(index)]. *)

From Stdlib Require Import ZArith List Bool String Lia.
Import ListNotations.
Local Open Scope Z_scope.

(** ** Machine integers *)

Module Int32.

Definition INT_MIN : Z := - 2 ^ 31.
Definition INT_MAX : Z := 2 ^ 31 - 1.

Definition in_range (z : Z) : Prop := INT_MIN <= z <= INT_MAX.

Definition wrap (z : Z) : Z := (z + 2 ^ 31) mod 2 ^ 32 - 2 ^ 31.

Definition add (a b : Z) : Z := wrap (a + b).
Definition sub (a b : Z) : Z := wrap (a - b).
Definition mul (a b : Z) : Z := wrap (a * b).

Definition div_defined (a b : Z) : bool :=
  negb ((b =? 0) || ((a =? INT_MIN) && (b =? -1))).

Definition div (a b : Z) : option Z :=
  if div_defined a b then Some (Z.quot a b) else None.

Definition rem (a b : Z) : option Z :=
  if div_defined a b then Some (Z.rem a b) else None.

Definition qMin (a b : Z) : Z := if a <? b then a else b.
Definition qMax (a b : Z) : Z := if a <? b then b else a.

End Int32.

Declare Scope int_scope.
Delimit Scope int_scope with int.
Arguments Int32.add (a b)%_int.
Arguments Int32.sub (a b)%_int.
Arguments Int32.mul (a b)%_int.
Infix "+" := Int32.add : int_scope.
Infix "-" := Int32.sub : int_scope.
Infix "*" := Int32.mul : int_scope.

(** Sequencing of computations that may have no result. *)
Definition bind {A B : Type} (m : option A) (k : A -> option B) : option B :=
  match m with
  | Some a => k a
  | None => None
  end.

Notation "x <- m ;; k" := (bind m (fun x => k))
  (at level 61, m at next level, right associativity).

(** ** QPoint and QRect *)

Record QPoint : Type := mkQPoint { px : Z; py : Z }.

(** A [QRect] stores its two corners; the right and bottom coordinates
    are inclusive. *)
Record QRect : Type := mkCorners { x1 : Z; y1 : Z; x2 : Z; y2 : Z }.

Module Rect.

(** [QRect()] *)
Definition null : QRect := mkCorners 0 0 (-1) (-1).

(** [QRect(left, top, width, height)] *)
Definition make (left top width height : Z) : QRect :=
  mkCorners left top ((left + width) - 1)%int ((top + height) - 1)%int.

Definition topLeft (r : QRect) : QPoint := mkQPoint (x1 r) (y1 r).
Definition bottomRight (r : QRect) : QPoint := mkQPoint (x2 r) (y2 r).

(** [center()] adds the corners in 64 bits before halving. *)
Definition center (r : QRect) : QPoint :=
  mkQPoint (Int32.wrap (Z.quot (x1 r + x2 r) 2))
           (Int32.wrap (Z.quot (y1 r + y2 r) 2)).

Definition isNull (r : QRect) : bool :=
  (x2 r =? (x1 r - 1)%int) && (y2 r =? (y1 r - 1)%int).

Definition isValid (r : QRect) : bool :=
  (x1 r <=? x2 r) && (y1 r <=? y2 r).

Definition normalized (r : QRect) : QRect :=
  let '(l, rt) := if x2 r <? (x1 r - 1)%int then (x2 r, x1 r) else (x1 r, x2 r) in
  let '(t, b) := if y2 r <? (y1 r - 1)%int then (y2 r, y1 r) else (y1 r, y2 r) in
  mkCorners l t rt b.

(** The span [l..r] of one axis, as [united] and [intersects] compute it
    for a rectangle that may be stored with swapped corners. *)
Definition span (lo hi : Z) : Z * Z :=
  if ((hi - lo) + 1)%int <? 0 then (hi, lo) else (lo, hi).

Definition united (a b : QRect) : QRect :=
  if isNull a then b
  else if isNull b then a
  else
    let '(l1, r1) := span (x1 a) (x2 a) in
    let '(t1, b1) := span (y1 a) (y2 a) in
    let '(l2, r2) := span (x1 b) (x2 b) in
    let '(t2, b2) := span (y1 b) (y2 b) in
    mkCorners (Int32.qMin l1 l2) (Int32.qMin t1 t2)
              (Int32.qMax r1 r2) (Int32.qMax b1 b2).

Definition intersects (a b : QRect) : bool :=
  if isNull a || isNull b then false
  else
    let '(l1, r1) := span (x1 a) (x2 a) in
    let '(l2, r2) := span (x1 b) (x2 b) in
    if (r2 <? l1) || (r1 <? l2) then false
    else
      let '(t1, b1) := span (y1 a) (y2 a) in
      let '(t2, b2) := span (y1 b) (y2 b) in
      negb ((b2 <? t1) || (b1 <? t2)).

(** [outer] covers [inner]: every pixel of [inner] lies in [outer]. *)
Definition covers (outer inner : QRect) : Prop :=
  x1 outer <= x1 inner /\ x2 inner <= x2 outer /\
  y1 outer <= y1 inner /\ y2 inner <= y2 outer.

End Rect.

(** ** QImage and the decoder *)

Inductive QImage : Type :=
| NullImage
| Pixels (data : string).

Definition image_isNull (i : QImage) : bool :=
  match i with
  | NullImage => true
  | Pixels _ => false
  end.

(** What [QImage::load] finds behind a file name: pixel data, or nothing
    when the file cannot be decoded. *)
Definition Loader : Type := string -> option string.

(** [QImage::load(fileName)]: a failed load leaves a null image. *)
Definition image_load (fs : Loader) (fileName : string) : QImage :=
  match fs fileName with
  | Some d => Pixels d
  | None => NullImage
  end.

(** ** QCache<QString, QImage> *)

(** Modelled from the spec: the header that declares the member
    [m_imageCache] is not among the sources.  The spec describes it as a
    cost-bounded store from keys to decoded images with [take], [insert],
    [clear], a capacity that can be set and least-recently-used eviction,
    every image costing 1.  The source constructs it with the capacity
    100 and calls [take], [insert], [object], [setMaxCost] and [clear] on
    it, the interface of Qt's [QCache<QString, QImage>], whose behaviour
    the operations below follow.  The entries are kept from the most
    recently used to the least recently used one; every insertion of the
    source uses the default cost 1, so the total cost is the number of
    entries. *)
Record QCache : Type := mkCache { mx : Z; entries : list (string * QImage) }.

Module Cache.

Definition totalCost (c : QCache) : Z := Z.of_nat (List.length (entries c)).

Definition lookup (k : string) (c : QCache) : option QImage :=
  match find (fun e => String.eqb (fst e) k) (entries c) with
  | Some e => Some (snd e)
  | None => None
  end.

Definition contains (k : string) (c : QCache) : bool :=
  existsb (fun e => String.eqb (fst e) k) (entries c).

Definition unlink (k : string) (l : list (string * QImage)) :=
  filter (fun e => negb (String.eqb (fst e) k)) l.

Definition remove (k : string) (c : QCache) : QCache :=
  mkCache (mx c) (unlink k (entries c)).

(** [trim(m)]: walk from the least recently used entry and unlink
    entries while the total cost exceeds [m]. *)
Fixpoint trim_from_last (m : Z) (lru_first : list (string * QImage)) :=
  match lru_first with
  | [] => []
  | _ :: older =>
      if m <? Z.of_nat (List.length lru_first)
      then trim_from_last m older
      else lru_first
  end.

Definition trim (m : Z) (c : QCache) : QCache :=
  mkCache (mx c) (rev (trim_from_last m (rev (entries c)))).

(** [insert(key, object)] with cost 1; an object that costs more than
    [maxCost] is deleted instead of being stored. *)
Definition insert (k : string) (v : QImage) (c : QCache) : QCache :=
  let c1 := remove k c in
  if mx c1 <? 1 then c1
  else
    let c2 := trim (mx c1 - 1)%int c1 in
    mkCache (mx c2) ((k, v) :: entries c2).

(** [take(key)]: the object leaves the cache and is handed to the caller. *)
Definition take (k : string) (c : QCache) : option QImage * QCache :=
  match lookup k c with
  | Some v => (Some v, remove k c)
  | None => (None, c)
  end.

Definition clear (c : QCache) : QCache := mkCache (mx c) [].

(** [setMaxCost(m)] stores the capacity and trims to it at once. *)
Definition setMaxCost (m : Z) (c : QCache) : QCache :=
  trim m (mkCache m (entries c)).

End Cache.

(** ** The loading task *)

Record ImageLoadingTask : Type := mkTask {
  row : Z;
  imageFileName : string;
  image : option QImage
}.

(** Whether the decoding observable calls [QImage::load] for the task. *)
Definition needs_load (item : ImageLoadingTask) : bool :=
  match image item with
  | None => true
  | Some i => image_isNull i
  end.

(** The body of the decoding observable: an absent image is created
    empty, and an empty image is loaded from the file. *)
Definition decode (fs : Loader) (item : ImageLoadingTask) : ImageLoadingTask :=
  let img := match image item with
             | None => NullImage
             | Some i => i
             end in
  let img' := if image_isNull img then image_load fs (imageFileName item) else img in
  mkTask (row item) (imageFileName item) (Some img').

(** The image a decoded task hands to the cache ([item->image.release()]). *)
Definition released (item : ImageLoadingTask) : QImage :=
  match image item with
  | Some i => i
  | None => NullImage
  end.

(** ** The view *)

Record QScrollBar : Type := mkScrollBar {
  sb_value : Z;
  sb_minimum : Z;
  sb_maximum : Z;
  sb_pageStep : Z;
  sb_singleStep : Z;
  sb_width : Z;
  sb_isVisible : bool
}.

(** Modelled from the spec: the header of the class is not among the
    sources; the members are those the source uses.  [m_columnCount] is
    the column count, an [int]; [m_imageCache] the image cache;
    [m_loadEventStream] the subject the trigger events are pushed into,
    of which the embedding keeps the number of events not yet debounced.
    The viewport size, the vertical scroll bar and the model are the
    state of the Qt base class that the source reads. *)
Record ImageListView : Type := mkView {
  m_columnCount : Z;
  m_imageCache : QCache;
  (** events pushed into [m_loadEventStream] that [debounce] still holds *)
  m_loadEventStream : nat;
  viewport_width : Z;
  viewport_height : Z;
  verticalScrollBar : QScrollBar;
  (** [model()]: the file names of the rows, or no model *)
  model : option (list string)
}.

Definition set_columnCount (n : Z) (v : ImageListView) : ImageListView :=
  mkView n (m_imageCache v) (m_loadEventStream v) (viewport_width v)
         (viewport_height v) (verticalScrollBar v) (model v).

Definition set_imageCache (c : QCache) (v : ImageListView) : ImageListView :=
  mkView (m_columnCount v) c (m_loadEventStream v) (viewport_width v)
         (viewport_height v) (verticalScrollBar v) (model v).

Definition set_loadEventStream (n : nat) (v : ImageListView) : ImageListView :=
  mkView (m_columnCount v) (m_imageCache v) n (viewport_width v)
         (viewport_height v) (verticalScrollBar v) (model v).

Definition set_viewport (w h : Z) (v : ImageListView) : ImageListView :=
  mkView (m_columnCount v) (m_imageCache v) (m_loadEventStream v) w h
         (verticalScrollBar v) (model v).

Definition set_verticalScrollBar (sb : QScrollBar) (v : ImageListView) : ImageListView :=
  mkView (m_columnCount v) (m_imageCache v) (m_loadEventStream v)
         (viewport_width v) (viewport_height v) sb (model v).

Definition set_model (m : option (list string)) (v : ImageListView) : ImageListView :=
  mkView (m_columnCount v) (m_imageCache v) (m_loadEventStream v)
         (viewport_width v) (viewport_height v) (verticalScrollBar v) m.

(** [model()->rowCount(rootIndex())] *)
Definition rowCount (rows : list string) : Z := Z.of_nat (List.length rows).

(** [model()->index(i, 0, rootIndex())]: [None] is the invalid index. *)
Definition model_index (rows : list string) (i : Z) : option Z :=
  if (0 <=? i) && (i <? rowCount rows) then Some i else None.

(** [model()->data(model()->index(row, 0)).toString()] *)
Definition model_data (rows : list string) (i : Z) : string :=
  match model_index rows i with
  | Some r => nth (Z.to_nat r) rows EmptyString
  | None => EmptyString
  end.

(** [viewport()->rect()] *)
Definition viewport_rect (v : ImageListView) : QRect :=
  Rect.make 0 0 (viewport_width v) (viewport_height v).

Definition emitLoadEvent (v : ImageListView) : ImageListView :=
  set_loadEventStream (S (m_loadEventStream v)) v.

Definition columnCount (v : ImageListView) : Z := m_columnCount v.

Definition horizontalOffset (v : ImageListView) : Z := 0.

Definition verticalOffset (v : ImageListView) : Z := sb_value (verticalScrollBar v).

Definition visualRect (v : ImageListView) (index : option Z) : option QRect :=
  match index with
  | None => Some Rect.null
  | Some index_row =>
      r <- Int32.div index_row (m_columnCount v) ;;
      c <- Int32.rem index_row (m_columnCount v) ;;
      width <- Int32.div (viewport_width v) (m_columnCount v) ;;
      let height := Int32.qMin width (viewport_height v) in
      let x := (c * width)%int in
      let y := (r * height)%int in
      Some (Rect.make (x - horizontalOffset v)%int (y - verticalOffset v)%int
                      width height)
  end.

(** The outer [option] is the absence of a result (a division without
    one); the inner one is the validity of the returned index. *)
Definition indexAt (v : ImageListView) (point : QPoint) : option (option Z) :=
  match model v with
  | Some rows =>
      let p := mkQPoint (px point + horizontalOffset v)%int
                        (py point + verticalOffset v)%int in
      width <- Int32.div (viewport_width v) (m_columnCount v) ;;
      let height := Int32.qMin width (viewport_height v) in
      c <- Int32.div (px p) width ;;
      r <- Int32.div (py p) height ;;
      let i := ((r * m_columnCount v) + c)%int in
      if (0 <=? i) && (i <? rowCount rows)
      then Some (model_index rows i)
      else Some None
  | None => Some None
  end.

Definition modelIndexRangeForRect (v : ImageListView) (rect : QRect)
  : option (Z * Z) :=
  let r := Rect.normalized rect in
  rows <- model v ;;
  let rowCount := rowCount rows in
  let begin := 0 in
  startIndex <- indexAt v (Rect.topLeft r) ;;
  let begin := match startIndex with
               | Some startRow => startRow
               | None => begin
               end in
  let end_ := begin in
  finishIndex <- indexAt v (Rect.bottomRight r) ;;
  let end_ := match finishIndex with
              | Some finishRow => (finishRow + 1)%int
              | None => rowCount
              end in
  Some (begin, end_).

(** ** The vertical scroll bar ([QAbstractSlider]) *)

Module ScrollBar.

Definition with_value (val : Z) (sb : QScrollBar) : QScrollBar :=
  mkScrollBar val (sb_minimum sb) (sb_maximum sb) (sb_pageStep sb)
              (sb_singleStep sb) (sb_width sb) (sb_isVisible sb).

Definition with_range (lo hi : Z) (sb : QScrollBar) : QScrollBar :=
  mkScrollBar (sb_value sb) lo hi (sb_pageStep sb)
              (sb_singleStep sb) (sb_width sb) (sb_isVisible sb).

Definition setPageStep (step : Z) (sb : QScrollBar) : QScrollBar :=
  mkScrollBar (sb_value sb) (sb_minimum sb) (sb_maximum sb) step
              (sb_singleStep sb) (sb_width sb) (sb_isVisible sb).

Definition setSingleStep (step : Z) (sb : QScrollBar) : QScrollBar :=
  mkScrollBar (sb_value sb) (sb_minimum sb) (sb_maximum sb) (sb_pageStep sb)
              step (sb_width sb) (sb_isVisible sb).

Definition bound (sb : QScrollBar) (val : Z) : Z :=
  Int32.qMax (sb_minimum sb) (Int32.qMin (sb_maximum sb) val).

(** The flag tells whether [valueChanged] is emitted. *)
Definition setValue (val : Z) (sb : QScrollBar) : QScrollBar * bool :=
  let val' := bound sb val in
  (with_value val' sb, negb (val' =? sb_value sb)).

Definition setRange (lo hi : Z) (sb : QScrollBar) : QScrollBar * bool :=
  let hi' := Int32.qMax lo hi in
  if (sb_minimum sb =? lo) && (sb_maximum sb =? hi') then (sb, false)
  else setValue (sb_value sb) (with_range lo hi' sb).

End ScrollBar.

(** The slot behind the scroll bar's [valueChanged] signal. *)
Definition verticalScrollbarValueChanged (v : ImageListView) : ImageListView :=
  emitLoadEvent v.

Definition apply_setRange (lo hi : Z) (v : ImageListView) : ImageListView :=
  let '(sb, changed) := ScrollBar.setRange lo hi (verticalScrollBar v) in
  let v' := set_verticalScrollBar sb v in
  if changed then verticalScrollbarValueChanged v' else v'.

(** The user (or [scrollTo]) moves the vertical scroll bar. *)
Definition scrollBarSetValue (val : Z) (v : ImageListView) : ImageListView :=
  let '(sb, changed) := ScrollBar.setValue val (verticalScrollBar v) in
  let v' := set_verticalScrollBar sb v in
  if changed then verticalScrollbarValueChanged v' else v'.

Definition updateGeometries (v : ImageListView) : option ImageListView :=
  rows <- model v ;;
  let viewportHeight := viewport_height v in
  let viewportWidth := viewport_width v in
  let verticalScrollBarWidth := sb_width (verticalScrollBar v) in
  let viewportWidth :=
    if sb_isVisible (verticalScrollBar v)
    then (viewportWidth + verticalScrollBarWidth)%int
    else viewportWidth in
  let modelRowCount := rowCount rows in
  q <- Int32.div modelRowCount (m_columnCount v) ;;
  m <- Int32.rem modelRowCount (m_columnCount v) ;;
  let viewportRowCount := (q + (if m =? 0 then 0 else 1))%int in
  tileWidth <- Int32.div viewportWidth (m_columnCount v) ;;
  let tileHeight := Int32.qMin tileWidth viewportHeight in
  let v1 :=
    set_imageCache
      (Cache.setMaxCost ((viewportRowCount * m_columnCount v) * 5)%int
                        (m_imageCache v)) v in
  if viewportHeight <? (viewportRowCount * tileHeight)%int then
    let viewportWidth := (viewportWidth - verticalScrollBarWidth)%int in
    tileWidth <- Int32.div viewportWidth (m_columnCount v) ;;
    let tileHeight := Int32.qMin tileWidth viewportHeight in
    let verticalScrollBarMaximum := (viewportRowCount * tileHeight)%int in
    let verticalScrollBarMaximum :=
      if verticalScrollBarMaximum <? viewportHeight then 1
      else (verticalScrollBarMaximum - viewportHeight)%int in
    pages <- Int32.div viewportHeight tileHeight ;;
    let pageStep := (pages * tileHeight)%int in
    singleStep <- Int32.div tileHeight 2 ;;
    let v2 := apply_setRange 0 verticalScrollBarMaximum v1 in
    let sb := ScrollBar.setSingleStep singleStep
                (ScrollBar.setPageStep pageStep (verticalScrollBar v2)) in
    Some (set_verticalScrollBar sb v2)
  else
    Some (apply_setRange 0 0 v1).

(** [QAbstractItemView::resizeEvent] lays the view out again before the
    override emits its load event. *)
Definition resizeEvent (w h : Z) (v : ImageListView) : option ImageListView :=
  v' <- updateGeometries (set_viewport w h v) ;;
  Some (emitLoadEvent v').

(** [QAbstractItemView::reset] touches the selection and the current
    index only, which the embedding does not carry. *)
Definition reset (v : ImageListView) : ImageListView :=
  emitLoadEvent (set_imageCache (Cache.clear (m_imageCache v)) v).

Definition setColumnCount (columnCount : Z) (v : ImageListView) : ImageListView :=
  reset (set_columnCount columnCount v).

(** The number of tile rows that fit in the viewport, as [moveCursor]
    computes its [viewRowCount]. *)
Definition viewRowCount (v : ImageListView) : option Z :=
  tileWidth <- Int32.div (viewport_width v) (m_columnCount v) ;;
  let tileHeight := Int32.qMin tileWidth (viewport_height v) in
  Int32.div (viewport_height v) tileHeight.

(** ** The two UI-thread stages of the pipeline *)

(** The rows visited by [for (int row = first; row < second; ++row)]. *)
Definition rows_between (first second : Z) : list Z :=
  map (fun k => first + Z.of_nat k) (seq 0 (Z.to_nat (second - first))).

(** The loop of the snapshot stage: every visible row takes its image out
    of the cache and becomes a task. *)
Fixpoint build_tasks (rows : list string) (visible : list Z) (cache : QCache)
  : QCache * list ImageLoadingTask :=
  match visible with
  | [] => (cache, [])
  | r :: rest =>
      let imageFileName := model_data rows r in
      let '(imagePointer, cache1) := Cache.take imageFileName cache in
      let '(cache2, taskList) := build_tasks rows rest cache1 in
      (cache2, mkTask r imageFileName imagePointer :: taskList)
  end.

(** The first [map] lambda of the constructor. *)
Definition snapshot (v : ImageListView)
  : option (ImageListView * list ImageLoadingTask) :=
  modelRowRange <- modelIndexRangeForRect v (viewport_rect v) ;;
  rows <- model v ;;
  let '(cache, taskList) :=
    build_tasks rows (rows_between (fst modelRowRange) (snd modelRowRange))
                (m_imageCache v) in
  Some (set_imageCache cache v, taskList).

(** The loop of the subscriber lambda: insert every image and unite the
    tile rectangles. *)
Fixpoint apply_items (v : ImageListView) (rows : list string)
         (items : list ImageLoadingTask) (cache : QCache) (invalidatingRect : QRect)
  : option (QCache * QRect) :=
  match items with
  | [] => Some (cache, invalidatingRect)
  | item :: rest =>
      let cache1 := Cache.insert (imageFileName item) (released item) cache in
      itemRect <- visualRect v (model_index rows (row item)) ;;
      apply_items v rows rest cache1 (Rect.united invalidatingRect itemRect)
  end.

(** The subscriber lambda; the list holds the [viewport()->update] calls
    it makes. *)
Definition apply_batch (v : ImageListView) (items : list ImageLoadingTask)
  : option (ImageListView * list QRect) :=
  rows <- model v ;;
  res <- apply_items v rows items (m_imageCache v) Rect.null ;;
  let '(cache, invalidatingRect) := res in
  let v' := set_imageCache cache v in
  if Rect.intersects (viewport_rect v) invalidatingRect
  then Some (v', [invalidatingRect])
  else Some (v', []).

(** ** The operator chain as a transition system

    The constructor subscribes one chain of operators to
    [m_loadEventStream]:
    - [debounce(250ms)] holds the load events until none arrives for 250ms
      and then lets the last one through;
    - [observe_on(run loop)] and [map] take the snapshot on the UI thread
      and return the batch as a cold observable: each task is decoded by
      an observable of its own and [concat] subscribes to them one after
      the other;
    - [observe_on(event loop)] hands the batch over to a worker thread,
      where [switch_on_next] unsubscribes from the batch it was listening
      to and subscribes to the new one; a decode that is running is not
      interrupted, but its [on_next] reaches no subscriber;
    - [observe_on(event loop)], [buffer_with_time(250ms)] and [filter]
      collect the decoded tasks and emit the non-empty buffers;
    - [observe_on(run loop)] and [subscribe] apply each buffer on the UI
      thread ([RxEventLoopAdapter::runLoop()], declared outside the
      sources, is the run loop of the UI thread, as the comments of the
      constructor say).
    Each field of the state is what one operator holds, and each event is
    one operator doing its work; the threads interleave the events in any
    order.  A batch is tagged with its generation, the number of the
    snapshot that made it. *)

Record Pipeline : Type := mkPipeline {
  view : ImageListView;
  (** snapshots taken so far by the [map] stage *)
  generation : nat;
  (** inner observables queued by [observe_on] in front of [switch_on_next] *)
  to_switch : list (nat * list ImageLoadingTask);
  (** the inner observable [switch_on_next] is subscribed to, with the tasks
      [concat] has not finished; the first one is being decoded *)
  current : option (nat * list ImageLoadingTask);
  (** decodes still running for inner observables that were unsubscribed *)
  orphans : list (nat * ImageLoadingTask);
  (** the open window of [buffer_with_time] *)
  buffer : list ImageLoadingTask;
  (** non-empty buffers queued by [observe_on] for the UI thread *)
  to_ui : list (list ImageLoadingTask);
  (** the [viewport()->update] calls made so far, latest first *)
  updates : list QRect;
  (** the file names [QImage::load] was called with, latest first *)
  loads : list string
}.

Definition start (v : ImageListView) : Pipeline :=
  mkPipeline v 0 [] None [] [] [] [] [].

Inductive Event : Type :=
| Scroll (value : Z)           (* the vertical scroll bar moves *)
| Resize (w h : Z)             (* the viewport is resized *)
| SetColumnCount (n : Z)
| DebounceFire                 (* 250ms without a load event: the snapshot runs *)
| SwitchArrive                 (* a batch reaches switch_on_next *)
| DecodeDone (g : nat)         (* the running decode of generation g finishes *)
| BufferTick                   (* the 250ms window of buffer_with_time closes *)
| UiDeliver.                   (* a buffer reaches the subscriber lambda *)

Definition set_view (v : ImageListView) (s : Pipeline) : Pipeline :=
  mkPipeline v (generation s) (to_switch s) (current s) (orphans s)
             (buffer s) (to_ui s) (updates s) (loads s).

Definition log_load (item : ImageLoadingTask) (log : list string) : list string :=
  if needs_load item then imageFileName item :: log else log.

(** Removes the running decode of generation [g] from the orphans. *)
Fixpoint finish_orphan (g : nat) (l : list (nat * ImageLoadingTask))
  : option (ImageLoadingTask * list (nat * ImageLoadingTask)) :=
  match l with
  | [] => None
  | (g', t) :: rest =>
      if Nat.eqb g' g then Some (t, rest)
      else match finish_orphan g rest with
           | Some (t', rest') => Some (t', (g', t) :: rest')
           | None => None
           end
  end.

Definition running_of (c : option (nat * list ImageLoadingTask))
  : list (nat * ImageLoadingTask) :=
  match c with
  | Some (g, t :: _) => [(g, t)]
  | _ => []
  end.

(** Modelled from the spec: [switch_on_next] is an operator of the rxcpp
    library, whose code is not among the sources; the sources only call
    it.  The spec has the results of a superseded generation "discarded
    unapplied (their decode may still run to completion but has no
    observable effect)" and "silently dropped" on arrival.  So the
    completion of a decode of a batch that [switch_on_next] is no longer
    subscribed to reaches no subscriber: the decode leaves the running
    ones and its load is logged, and nothing else changes. *)
Definition stale_completion (g : nat) (s : Pipeline) : Pipeline :=
  match finish_orphan g (orphans s) with
  | Some (item, rest) =>
      mkPipeline (view s) (generation s) (to_switch s) (current s) rest
                 (buffer s) (to_ui s) (updates s) (log_load item (loads s))
  | None => s
  end.

(** One event; an event that is not enabled leaves the state as it is,
    and [None] is a division without a result on the UI thread. *)
Definition step (fs : Loader) (e : Event) (s : Pipeline) : option Pipeline :=
  match e with
  | Scroll value => Some (set_view (scrollBarSetValue value (view s)) s)
  | Resize w h => v' <- resizeEvent w h (view s) ;; Some (set_view v' s)
  | SetColumnCount n => Some (set_view (setColumnCount n (view s)) s)
  | DebounceFire =>
      match m_loadEventStream (view s) with
      | O => Some s
      | S _ =>
          res <- snapshot (set_loadEventStream 0 (view s)) ;;
          let '(v', taskList) := res in
          let g := S (generation s) in
          Some (mkPipeline v' g (to_switch s ++ [(g, taskList)]) (current s)
                           (orphans s) (buffer s) (to_ui s) (updates s) (loads s))
      end
  | SwitchArrive =>
      match to_switch s with
      | [] => Some s
      | batch :: queued =>
          Some (mkPipeline (view s) (generation s) queued (Some batch)
                           (orphans s ++ running_of (current s))
                           (buffer s) (to_ui s) (updates s) (loads s))
      end
  | DecodeDone g =>
      match current s with
      | Some (g0, item :: rest) =>
          if Nat.eqb g0 g then
            Some (mkPipeline (view s) (generation s) (to_switch s)
                             (Some (g0, rest)) (orphans s)
                             (buffer s ++ [decode fs item]) (to_ui s)
                             (updates s) (log_load item (loads s)))
          else Some (stale_completion g s)
      | _ => Some (stale_completion g s)
      end
  | BufferTick =>
      match buffer s with
      | [] => Some s
      | items =>
          Some (mkPipeline (view s) (generation s) (to_switch s) (current s)
                           (orphans s) [] (to_ui s ++ [items]) (updates s) (loads s))
      end
  | UiDeliver =>
      match to_ui s with
      | [] => Some s
      | items :: queued =>
          res <- apply_batch (view s) items ;;
          let '(v', calls) := res in
          Some (mkPipeline v' (generation s) (to_switch s) (current s)
                           (orphans s) (buffer s) queued
                           (calls ++ updates s) (loads s))
      end
  end.

Fixpoint run (fs : Loader) (es : list Event) (s : Pipeline) : option Pipeline :=
  match es with
  | [] => Some s
  | e :: rest => s' <- step fs e s ;; run fs rest s'
  end.

(** ** Keyboard navigation, scrolling to an item, selection and painting *)

(** [QAbstractItemView::CursorAction] *)
Inductive CursorAction : Type :=
| MoveUp | MoveDown | MoveLeft | MoveRight | MoveHome | MoveEnd
| MovePageUp | MovePageDown | MoveNext | MovePrevious.

(** [currentIndex] is the row of [currentIndex()], or the invalid index.
    The returned index keeps the column of the current one, which is 0
    for every index of the view. *)
Definition moveCursor (v : ImageListView) (currentIndex : option Z)
           (cursorAction : CursorAction) : option (option Z) :=
  match currentIndex with
  | None => Some None
  | Some index_row =>
      rows <- model v ;;
      let rowCount := rowCount rows in
      tileWidth <- Int32.div (viewport_width v) (m_columnCount v) ;;
      let tileHeight := Int32.qMin tileWidth (viewport_height v) in
      viewColumnCount <- Int32.div (viewport_width v) tileWidth ;;
      viewRowCount <- Int32.div (viewport_height v) tileHeight ;;
      let pageOffset := (viewColumnCount * viewRowCount)%int in
      let offset :=
        match cursorAction with
        | MoveHome => (0 - index_row)%int
        | MoveEnd => Int32.qMax ((rowCount - index_row) - 1)%int 0
        | MovePageDown => (0 + pageOffset)%int
        | MovePageUp => (0 - pageOffset)%int
        | MovePrevious | MoveLeft => -1
        | MoveNext | MoveRight => 1
        | MoveUp =>
            if m_columnCount v <? (index_row + 1)%int
            then (0 - m_columnCount v)%int else 0
        | MoveDown =>
            if (index_row + m_columnCount v)%int <? rowCount
            then m_columnCount v else 0
        end in
      Some (model_index rows
              (Int32.qMax 0 (Int32.qMin (index_row + offset)%int
                                        (rowCount - 1)%int)))
  end.

(** [scrollTo]; the final [update()] only asks for a repaint. *)
Definition scrollTo (v : ImageListView) (index : option Z) : option ImageListView :=
  let view_ := viewport_rect v in
  rect <- visualRect v index ;;
  let value := sb_value (verticalScrollBar v) in
  if y1 rect <? y1 view_ then
    Some (scrollBarSetValue ((value + y1 rect) - y1 view_)%int v)
  else if y2 view_ <? y2 rect then
    Some (scrollBarSetValue
            (value + Int32.qMin (y2 rect - y2 view_)%int (y1 rect - y1 view_)%int)%int
            v)
  else Some v.

(** The loop of [setSelection]: [begin_] and [end_] delimit the run of
    rows being collected, -1 when there is none, and [merged] holds the
    runs already merged into the selection, in the order of the [merge]
    calls. *)
Fixpoint selection_loop (v : ImageListView) (rows : list string) (rect : QRect)
         (visible : list Z) (begin_ end_ : Z) (merged : list (Z * Z))
  : option (Z * Z * list (Z * Z)) :=
  match visible with
  | [] => Some (begin_, end_, merged)
  | r :: rest =>
      indexRect <- visualRect v (model_index rows r) ;;
      if Rect.intersects indexRect rect then
        if begin_ =? -1 then selection_loop v rows rect rest r r merged
        else if (end_ + 1)%int =? r
             then selection_loop v rows rect rest begin_ r merged
             else selection_loop v rows rect rest r r (merged ++ [(begin_, end_)])
      else selection_loop v rows rect rest begin_ end_ merged
  end.

(** [setSelection]: the runs of rows, each from its first to its last
    row, that make up the selection handed to the selection model. *)
Definition setSelection (v : ImageListView) (rect : QRect) : option (list (Z * Z)) :=
  rowRange <- modelIndexRangeForRect v rect ;;
  rows <- model v ;;
  res <- selection_loop v rows rect (rows_between (fst rowRange) (snd rowRange))
                        (-1) (-1) [] ;;
  let '(begin_, end_, merged) := res in
  if negb (begin_ =? -1) then Some (merged ++ [(begin_, end_)])
  else Some merged.

(** What [paintEvent] draws for one tile.  The rectangle an image is
    fitted into is computed from the tile rectangle in floating point and
    is not carried here. *)
Inductive PaintOp : Type :=
| DrawImage (tile : QRect) (img : QImage)
| DrawLoading (tile : QRect)
| OutlineSelected (tile : QRect)
| OutlineCurrent (tile : QRect).

(** [QCache::object(key)]: the entry found becomes the most recently
    used one. *)
Definition cache_object (k : string) (c : QCache) : option QImage * QCache :=
  match Cache.lookup k c with
  | Some img => (Some img, mkCache (mx c) ((k, img) :: Cache.unlink k (entries c)))
  | None => (None, c)
  end.

(** The loop of [paintEvent] over the rows of the range; [selected] is
    [selectionModel()->isSelected] and [currentIndex] the row of
    [currentIndex()]. *)
Fixpoint paint_rows (v : ImageListView) (rows : list string)
         (selected : Z -> bool) (currentIndex : option Z)
         (imageIndexList : list Z) (cache : QCache)
  : option (QCache * list PaintOp) :=
  match imageIndexList with
  | [] => Some (cache, [])
  | r :: rest =>
      match model_index rows r with
      | None => paint_rows v rows selected currentIndex rest cache
      | Some index_row =>
          rect <- visualRect v (Some index_row) ;;
          if negb (Rect.isValid rect) || (y2 rect <? 0)
             || (viewport_height v <? y1 rect)
          then paint_rows v rows selected currentIndex rest cache
          else
            let imageFileName := model_data rows index_row in
            let '(ptr, cache1) := cache_object imageFileName cache in
            let drawn := match ptr with
                         | Some img => DrawImage rect img
                         | None => DrawLoading rect
                         end in
            let outline :=
              if selected index_row then [OutlineSelected rect]
              else match currentIndex with
                   | Some cur => if cur =? index_row then [OutlineCurrent rect] else []
                   | None => []
                   end in
            res <- paint_rows v rows selected currentIndex rest cache1 ;;
            Some (fst res, drawn :: outline ++ snd res)
      end
  end.

Definition paintEvent (v : ImageListView) (eventRect : QRect)
           (selected : Z -> bool) (currentIndex : option Z)
  : option (ImageListView * list PaintOp) :=
  rowRange <- modelIndexRangeForRect v eventRect ;;
  rows <- model v ;;
  res <- paint_rows v rows selected currentIndex
                    (rows_between (fst rowRange) (snd rowRange))
                    (m_imageCache v) ;;
  Some (set_imageCache (fst res) v, snd res).

(** ** Auxiliary notions used in the statements *)

(** The number of tile rows a model of [n] rows occupies with [cc]
    columns, as [updateGeometries] computes its [viewportRowCount]. *)
Definition grid_rows (n cc : Z) : Z :=
  Z.quot n cc + (if Z.rem n cc =? 0 then 0 else 1).

(** ** Example views *)

Definition hidden_scrollBar : QScrollBar := mkScrollBar 0 0 0 0 0 16 false.

(** Seven images in five columns on a 500x300 viewport: tiles are 100x100,
    the model fills two tile rows and three tile rows fit in the viewport. *)
Definition seven_rows : list string :=
  ["a"; "b"; "c"; "d"; "e"; "f"; "g"]%string.

Definition seven_in_five : ImageListView :=
  mkView 5 (mkCache 100 []) 0 500 300 hidden_scrollBar (Some seven_rows).

(** The tile size both [visualRect] and [indexAt] compute. *)
Definition tile_width (v : ImageListView) : Z :=
  Z.quot (viewport_width v) (m_columnCount v).

Definition tile_height (v : ImageListView) : Z :=
  Int32.qMin (tile_width v) (viewport_height v).

(** The linear index [indexAt] computes for a point when no operation
    wraps around, before it is checked against the row count. *)
Definition tile_index (v : ImageListView) (p : QPoint) : Z :=
  Z.quot (py p + verticalOffset v) (tile_height v) * m_columnCount v
  + Z.quot (px p) (tile_width v).

(** The point is one for which [indexAt] computes without wrap-around. *)
Definition exact_at (v : ImageListView) (p : QPoint) : Prop :=
  Int32.in_range (px p) /\
  Int32.in_range (py p + verticalOffset v) /\
  Int32.in_range (tile_index v p).

(** What the callers of [indexAt] read from a valid or invalid index. *)
Definition valid_row_or (default : Z) (index : option Z) : Z :=
  match index with
  | Some r => r
  | None => default
  end.

(** The range the callers iterate over contains the row [i]. *)
Definition in_row_range (range : Z * Z) (i : Z) : Prop :=
  fst range <= i < snd range.

(** The tile rectangles the subscriber lambda unites for a batch. *)
Definition tile_rects (v : ImageListView) (rows : list string)
           (items : list ImageLoadingTask) : list QRect :=
  map (fun item =>
         match visualRect v (model_index rows (row item)) with
         | Some rect => rect
         | None => Rect.null
         end) items.

(** The insertions the subscriber lambda makes for a batch, in order. *)
Definition insert_all (items : list ImageLoadingTask) (cache : QCache) : QCache :=
  fold_left (fun c item => Cache.insert (imageFileName item) (released item) c)
            items cache.

(** A rectangle of non-negative size whose coordinates stay far from the
    ends of the [int] range, so that uniting such rectangles never wraps. *)
Definition bounded (r : QRect) : Prop :=
  - 2 ^ 30 < x1 r /\ x1 r - 1 <= x2 r /\ x2 r < 2 ^ 30 /\
  - 2 ^ 30 < y1 r /\ y1 r - 1 <= y2 r /\ y2 r < 2 ^ 30.



(** ** Notions about the pipeline used in the statements *)

Definition has_key (k : string) (items : list ImageLoadingTask) : bool :=
  existsb (fun item => String.eqb (imageFileName item) k) items.

(** Some task that can still reach the cache carries the file name [k]:
    it sits in the open buffer, in a buffer queued for the UI thread, in
    the batch [switch_on_next] is subscribed to, or in a batch queued in
    front of [switch_on_next]. *)
Definition awaited (k : string) (s : Pipeline) : bool :=
  has_key k (buffer s)
  || existsb (has_key k) (to_ui s)
  || match current s with
     | Some (_, items) => has_key k items
     | None => false
     end
  || existsb (fun batch => has_key k (snd batch)) (to_switch s).

(** The file name [k] is neither cached nor carried by a task that can
    still reach the cache. *)
Definition absent (k : string) (s : Pipeline) : Prop :=
  Cache.contains k (m_imageCache (view s)) = false /\ awaited k s = false.

(** The generation whose completions [switch_on_next] forwards. *)
Definition forwarded_generation (s : Pipeline) : option nat :=
  match current s with
  | Some (g, _ :: _) => Some g
  | _ => None
  end.

Definition is_snapshot (e : Event) : bool :=
  match e with
  | DebounceFire => true
  | _ => false
  end.

(** No event of the list takes a snapshot. *)
Definition no_snapshot (es : list Event) : bool :=
  forallb (fun e => negb (is_snapshot e)) es.

(** Two images in one column on a 100x100 viewport that shows one tile at
    a time, with a pending load event; scrolling by 100 shows the second
    tile instead of the first. *)
Definition two_rows : ImageListView :=
  mkView 1 (mkCache 100 []) 1 100 100 (mkScrollBar 0 0 100 100 50 16 true)
         (Some ["a"; "b"]%string).

Definition all_files : Loader := fun k => Some k.

(** The first generation is decoding ["a"] when the view is scrolled to
    the second tile and the second snapshot is taken; its batch has not
    reached [switch_on_next] yet. *)
Definition second_batch_queued : Pipeline :=
  Eval vm_compute in
    match run all_files [DebounceFire; SwitchArrive; Scroll 100; DebounceFire]
              (start two_rows) with
    | Some s => s
    | None => start two_rows
    end.

(** The image of the last task of a batch that carries the file name [k]. *)
Definition latest_image (k : string) (items : list ImageLoadingTask) : option QImage :=
  option_map released
    (find (fun item => String.eqb (imageFileName item) k) (rev items)).

(** Twelve images in five columns on a 500x200 viewport: two tile rows of
    100x100 tiles are visible. *)
Definition twelve_rows : list string :=
  ["a"; "b"; "c"; "d"; "e"; "f"; "g"; "h"; "i"; "j"; "k"; "l"]%string.

Definition twelve_in_five : ImageListView :=
  mkView 5 (mkCache 50 []) 0 500 200 hidden_scrollBar (Some twelve_rows).

(** The decoded tasks of the tiles 2, 3 and 7. *)
Definition batch_2_3_7 : list ImageLoadingTask :=
  [mkTask 2 "c" (Some (Pixels "c")); mkTask 3 "d" (Some (Pixels "d"));
   mkTask 7 "h" (Some (Pixels "h"))]%string.

(** The seven-row view with two cached images, one of a visible row and
    one of a file that is no row of the model. *)
Definition seven_with_cache : ImageListView :=
  set_imageCache (mkCache 100 [("b", Pixels "b"); ("z", Pixels "z")]%string)
                 seven_in_five.

(** The generation tags queued in front of [switch_on_next] increase and
    are newer than the generation it is subscribed to. *)
Fixpoint increasing_from (lo : nat) (tags : list nat) : Prop :=
  match tags with
  | [] => True
  | t :: later => (lo < t)%nat /\ increasing_from t later
  end.

Definition current_tag (s : Pipeline) : nat :=
  match current s with
  | Some (g, _) => g
  | None => 0%nat
  end.

Definition tags_ordered (s : Pipeline) : Prop :=
  increasing_from (current_tag s) (map fst (to_switch s)) /\
  Forall (fun t => (t <= generation s)%nat) (map fst (to_switch s)) /\
  (current_tag s <= generation s)%nat.

(** A view with twelve images in five columns on a 500x200 viewport whose
    scroll bar ranges over the 100 pixels by which the three tile rows
    exceed the viewport. *)
Definition twelve_scrollable : ImageListView :=
  mkView 5 (mkCache 75 []) 0 500 200 (mkScrollBar 0 0 100 200 50 16 true)
         (Some twelve_rows).

(** The tile of row [r] intersects the rectangle, as [setSelection] tests
    it. *)
Definition tile_hits (v : ImageListView) (rows : list string) (rect : QRect)
           (r : Z) : bool :=
  match visualRect v (model_index rows r) with
  | Some indexRect => Rect.intersects indexRect rect
  | None => false
  end.

(** The rows of a list of runs, each run given by its first and last row. *)
Definition rows_of_runs (runs : list (Z * Z)) : list Z :=
  List.concat (map (fun run => rows_between (fst run) (snd run + 1)) runs).

(** The runs lie in [lo, hi), each is not empty, they come in increasing
    order and two successive runs leave at least one row between them. *)
Fixpoint separated_runs (lo hi : Z) (runs : list (Z * Z)) : Prop :=
  match runs with
  | [] => True
  | (b, e) :: later =>
      lo <= b /\ b <= e /\ e < hi /\ separated_runs (e + 2) hi later
  end.

(** The runs the loop hands over when it has finished. *)
Definition finished_runs (state : Z * Z * list (Z * Z)) : list (Z * Z) :=
  let '(begin_, end_, merged) := state in
  if negb (begin_ =? -1) then merged ++ [(begin_, end_)] else merged.

(** The state of the loop before the row [a]: no run yet, or a run that
    ends before [a] and is separated from the merged ones. *)
Definition loop_state (lo a : Z) (state : Z * Z * list (Z * Z)) : Prop :=
  let '(begin_, end_, merged) := state in
  (begin_ = -1 /\ merged = []) \/
  (lo <= begin_ /\ begin_ <= end_ /\ end_ < a /\
   separated_runs lo (begin_ - 1) merged).



(** One undisturbed load cycle of generation [g] with [n] tasks: the
    debounced snapshot, the hand-over to [switch_on_next], the [n] decodes,
    the end of the buffer window and the delivery to the UI thread. *)
Definition load_cycle (g : nat) (n : nat) : list Event :=
  [DebounceFire; SwitchArrive] ++ repeat (DecodeDone g) n
    ++ [BufferTick; UiDeliver].



(** What [paintEvent] draws for row [r] when the cache maps the file
    names to images as [cache] does. *)
Definition tile_ops (v : ImageListView) (rows : list string)
           (selected : Z -> bool) (currentIndex : option Z) (cache : QCache)
           (r : Z) : list PaintOp :=
  match model_index rows r with
  | None => []
  | Some index_row =>
      match visualRect v (Some index_row) with
      | None => []
      | Some rect =>
          if negb (Rect.isValid rect) || (y2 rect <? 0)
             || (viewport_height v <? y1 rect)
          then []
          else
            match Cache.lookup (model_data rows index_row) cache with
            | Some img => DrawImage rect img
            | None => DrawLoading rect
            end
            :: (if selected index_row then [OutlineSelected rect]
                else match currentIndex with
                     | Some cur =>
                         if cur =? index_row then [OutlineCurrent rect] else []
                     | None => []
                     end)
      end
  end.

(** The tile of a painted row reaches into the viewport's height. *)
Definition painted (v : ImageListView) (tile : QRect) : Prop :=
  Rect.isValid tile = true /\ 0 <= y2 tile /\ y1 tile <= viewport_height v.


(** Two images on a 200x100 viewport with two columns; the first file
    failed to decode and is cached as a null image, the second is not
    cached. *)
Definition two_tiles_one_failed : ImageListView :=
  mkView 2 (mkCache 10 [("z", Pixels "z"); ("a", NullImage)]%string) 0 200 100
         hidden_scrollBar (Some ["a"; "b"]%string).


(** The cache holds at most one image per file name and no more images
    than its capacity. *)
Definition cache_ok (c : QCache) : Prop :=
  NoDup (map fst (entries c)) /\ Cache.totalCost c <= Z.max 0 (mx c).


(** The twelve-row example with a cache for four images and one load
    event pending. *)
Definition twelve_small_cache : ImageListView :=
  set_imageCache (mkCache 4 []) (emitLoadEvent twelve_in_five).


(** Every image of the cache is what [QImage::load] gives for the file
    name it is stored under. *)
Definition cache_faithful (fs : Loader) (c : QCache) : Prop :=
  forall k img, In (k, img) (entries c) -> img = image_load fs k.

(** A task that has an image has the one of its file. *)
Definition task_faithful (fs : Loader) (t : ImageLoadingTask) : Prop :=
  forall img, image t = Some img -> img = image_load fs (imageFileName t).

(** A task that went through the decoding observable. *)
Definition task_decoded (fs : Loader) (t : ImageLoadingTask) : Prop :=
  image t = Some (image_load fs (imageFileName t)).

(** The images on their way through the operator chain belong to their
    file names.  The decodes of unsubscribed batches are left out: their
    results reach no subscriber. *)
Definition pipeline_faithful (fs : Loader) (s : Pipeline) : Prop :=
  cache_faithful fs (m_imageCache (view s)) /\
  Forall (task_decoded fs) (buffer s) /\
  Forall (Forall (task_decoded fs)) (to_ui s) /\
  match current s with
  | Some (_, items) => Forall (task_faithful fs) items
  | None => True
  end /\
  Forall (fun batch => Forall (task_faithful fs) (snd batch)) (to_switch s).

(** A load cycle of the ten visible rows, a change to four columns, and
    the load cycle of the eight rows visible then. *)
Definition two_cycles : list Event :=
  load_cycle 1 10 ++ [Scroll 0; SetColumnCount 4] ++ load_cycle 2 8.


(** Twelve images in five columns on a viewport 503 pixels wide: the five
    tiles of a tile row are 100 pixels wide and leave a margin of three
    pixels on the right. *)
Definition twelve_with_margin : ImageListView :=
  mkView 5 (mkCache 50 []) 0 503 200 hidden_scrollBar (Some twelve_rows).

(** Every task with the file name [k] that can still reach the cache is a
    task of [taskList]: as it was built while it waits in its batch,
    decoded once it is buffered. *)
Definition only_from (fs : Loader) (k : string)
           (taskList : list ImageLoadingTask) (s : Pipeline) : Prop :=
  (forall t, In t (buffer s) -> imageFileName t = k ->
     exists t0, In t0 taskList /\ t = decode fs t0) /\
  (forall items t, In items (to_ui s) -> In t items -> imageFileName t = k ->
     exists t0, In t0 taskList /\ t = decode fs t0) /\
  (forall g items t, current s = Some (g, items) -> In t items ->
     imageFileName t = k -> In t taskList) /\
  (forall batch t, In batch (to_switch s) -> In t (snd batch) ->
     imageFileName t = k -> In t taskList).

(** The first generation has decoded ["a"] and its result waits in the
    open window of [buffer_with_time] when the view is resized (to the
    size it has) and the second snapshot is taken over the same row. *)
Definition first_result_buffered : Pipeline :=
  Eval vm_compute in
    match run all_files [DebounceFire; SwitchArrive; DecodeDone 1;
                         Resize 100 100; DebounceFire]
              (start two_rows) with
    | Some s => s
    | None => start two_rows
    end.

(** * Properties *)

(** ** Arithmetic of [int] *)

Lemma wrap_small (z : Z) : Int32.in_range z -> Int32.wrap z = z.
Proof.
  unfold Int32.in_range, Int32.INT_MIN, Int32.INT_MAX, Int32.wrap.
  intros H. rewrite Z.mod_small; lia.
Qed.

Lemma wrap_in_range (z : Z) : Int32.in_range (Int32.wrap z).
Proof.
  unfold Int32.in_range, Int32.INT_MIN, Int32.INT_MAX, Int32.wrap.
  pose proof (Z.mod_pos_bound (z + 2 ^ 31) (2 ^ 32) ltac:(lia)). lia.
Qed.

Lemma wrap_add_wrap_l (a b : Z) : Int32.wrap (Int32.wrap a + b) = Int32.wrap (a + b).
Proof.
  unfold Int32.wrap.
  replace ((a + 2 ^ 31) mod 2 ^ 32 - 2 ^ 31 + b + 2 ^ 31)
    with ((a + 2 ^ 31) mod 2 ^ 32 + b) by lia.
  rewrite Z.add_mod_idemp_l by lia.
  f_equal. f_equal. lia.
Qed.

Lemma div_pos_divisor (a b : Z) : 0 < b -> Int32.div a b = Some (Z.quot a b).
Proof.
  intros H. unfold Int32.div, Int32.div_defined.
  destruct (Z.eqb_spec b 0); [lia|].
  destruct (Z.eqb_spec b (-1)); [lia|].
  now rewrite andb_false_r.
Qed.

Lemma rem_pos_divisor (a b : Z) : 0 < b -> Int32.rem a b = Some (Z.rem a b).
Proof.
  intros H. unfold Int32.rem, Int32.div_defined.
  destruct (Z.eqb_spec b 0); [lia|].
  destruct (Z.eqb_spec b (-1)); [lia|].
  now rewrite andb_false_r.
Qed.

Lemma div_by_zero (a : Z) : Int32.div a 0 = None.
Proof. reflexivity. Qed.

Lemma div_nonneg_divisor (a b : Z) :
  0 <= b -> Int32.div a b = if b =? 0 then None else Some (Z.quot a b).
Proof.
  intros H. destruct (Z.eqb_spec b 0) as [->|Hb]; [reflexivity|].
  apply div_pos_divisor. lia.
Qed.

Lemma qMin_spec (a b : Z) : Int32.qMin a b = Z.min a b.
Proof. unfold Int32.qMin. destruct (Z.ltb_spec a b); lia. Qed.

Lemma qMax_spec (a b : Z) : Int32.qMax a b = Z.max a b.
Proof. unfold Int32.qMax. destruct (Z.ltb_spec a b); lia. Qed.

(** Removes the wrap-around of the operations whose exact result fits,
    innermost first. *)
Ltac range_solve :=
  unfold Int32.in_range, Int32.INT_MIN, Int32.INT_MAX in *; nia.

Ltac int_exact :=
  unfold Int32.add, Int32.sub, Int32.mul;
  repeat match goal with
         | |- context [Int32.wrap ?z] =>
             lazymatch z with
             | context [Int32.wrap _] => fail
             | _ => rewrite (wrap_small z) by range_solve
             end
         end.

(** ** Column count and reset *)

Lemma contains_clear (k : string) (c : QCache) :
  Cache.contains k (Cache.clear c) = false.
Proof. reflexivity. Qed.

(** C10: [setColumnCount] stores the new column count, leaves the image
    cache without any entry and pushes one load event, whatever the new
    value is. *)
Theorem setColumnCount_clears_cache (v : ImageListView) (n : Z) :
  m_columnCount (setColumnCount n v) = n /\
  entries (m_imageCache (setColumnCount n v)) = [] /\
  (forall k, Cache.contains k (m_imageCache (setColumnCount n v)) = false) /\
  m_loadEventStream (setColumnCount n v) = S (m_loadEventStream v) /\
  setColumnCount n v = reset (set_columnCount n v).
Proof.
  repeat split.
Qed.

(** ** Cache capacity *)

Lemma mx_setMaxCost (m : Z) (c : QCache) : mx (Cache.setMaxCost m c) = m.
Proof. reflexivity. Qed.

Lemma imageCache_apply_setRange (lo hi : Z) (v : ImageListView) :
  m_imageCache (apply_setRange lo hi v) = m_imageCache v.
Proof.
  unfold apply_setRange.
  destruct (ScrollBar.setRange lo hi (verticalScrollBar v)) as [sb [|]]; reflexivity.
Qed.

(** Whenever [updateGeometries] lays the view out, the cache ends with the
    capacity the source computes from the model row count. *)
Lemma updateGeometries_maxCost_wrapped (v v' : ImageListView) (rows : list string) :
  model v = Some rows ->
  updateGeometries v = Some v' ->
  exists q m,
    Int32.div (rowCount rows) (m_columnCount v) = Some q /\
    Int32.rem (rowCount rows) (m_columnCount v) = Some m /\
    mx (m_imageCache v') =
      (((q + (if m =? 0 then 0 else 1)) * m_columnCount v) * 5)%int.
Proof.
  intros Hm. unfold updateGeometries. rewrite Hm. cbn [bind].
  destruct (Int32.div (rowCount rows) (m_columnCount v)) as [q|]; [|discriminate].
  destruct (Int32.rem (rowCount rows) (m_columnCount v)) as [m|]; [|discriminate].
  cbn [bind]. intros H. exists q, m. split; [reflexivity|]. split; [reflexivity|].
  destruct (Int32.div _ (m_columnCount v)) as [tw|]; [|discriminate].
  cbn [bind] in H.
  match type of H with (if ?b then _ else _) = _ => destruct b end.
  - destruct (Int32.div _ (m_columnCount v)) as [tw2|]; [|discriminate].
    cbn [bind] in H.
    destruct (Int32.div (viewport_height v) _) as [pages|]; [|discriminate].
    cbn [bind] in H.
    destruct (Int32.div _ 2) as [ss|]; [|discriminate].
    cbn [bind] in H. injection H as <-.
    cbn [m_imageCache set_verticalScrollBar].
    rewrite imageCache_apply_setRange. reflexivity.
  - injection H as <-. rewrite imageCache_apply_setRange. reflexivity.
Qed.

(** The capacity [updateGeometries] sets.  On a view with at least one
    column, a viewport that is, without the width of the scroll bar, at
    least as many pixels wide as there are columns, and at least one pixel
    high, [updateGeometries] returns and sets the capacity of the cache to
    five times [grid_rows * columnCount], where [grid_rows] is the number
    of tile rows the whole model occupies (the model row count divided by
    the column count, rounded up); the viewport size plays no part in the
    value. *)
Theorem updateGeometries_maxCost (v : ImageListView) (rows : list string) :
  model v = Some rows ->
  1 <= m_columnCount v ->
  0 <= sb_width (verticalScrollBar v) ->
  m_columnCount v <= viewport_width v - sb_width (verticalScrollBar v) ->
  viewport_width v + sb_width (verticalScrollBar v) <= Int32.INT_MAX ->
  1 <= viewport_height v <= Int32.INT_MAX ->
  (rowCount rows + m_columnCount v) * 5 <= Int32.INT_MAX ->
  exists v',
    updateGeometries v = Some v' /\
    mx (m_imageCache v') = 5 * (grid_rows (rowCount rows) (m_columnCount v) * m_columnCount v) /\
    rowCount rows <= grid_rows (rowCount rows) (m_columnCount v) * m_columnCount v
      < rowCount rows + m_columnCount v.
Proof.
  intros Hm Hcc Hsb Hw Hwmax Hh Hn.
  set (cc := m_columnCount v) in *. set (n := rowCount rows) in *.
  assert (Hn0 : 0 <= n) by (subst n; unfold rowCount; lia).
  assert (Hgrid : n <= grid_rows n cc * cc < n + cc).
  { unfold grid_rows. rewrite Z.quot_div_nonneg, Z.rem_mod_nonneg by lia.
    pose proof (Z.div_mod n cc ltac:(lia)) as Hdm.
    pose proof (Z.mod_pos_bound n cc ltac:(lia)) as Hb.
    destruct (Z.eqb_spec (n mod cc) 0); nia. }
  assert (Hsome : exists v', updateGeometries v = Some v').
  { unfold updateGeometries. rewrite Hm. cbn [bind]. fold cc n.
    rewrite !div_pos_divisor, !rem_pos_divisor by lia. cbn [bind].
    set (vw := if sb_isVisible (verticalScrollBar v)
               then (viewport_width v + sb_width (verticalScrollBar v))%int
               else viewport_width v).
    assert (Hvw : cc <= vw <= Int32.INT_MAX /\
                  cc <= (vw - sb_width (verticalScrollBar v))%int).
    { subst vw. unfold Int32.INT_MAX in *.
      destruct (sb_isVisible (verticalScrollBar v)); int_exact; lia. }
    match goal with |- exists _, (if ?b then _ else _) = _ => destruct b end;
      [|eexists; reflexivity].
    set (tw := Z.quot (vw - sb_width (verticalScrollBar v))%int cc).
    assert (1 <= tw).
    { subst tw. rewrite Z.quot_div_nonneg by lia.
      apply Z.div_le_lower_bound; lia. }
    rewrite (div_pos_divisor (viewport_height v)) by (rewrite qMin_spec; lia).
    cbn [bind].
    rewrite (div_pos_divisor _ 2) by lia. cbn [bind].
    eexists; reflexivity. }
  destruct Hsome as [v' Hv']. exists v'. split; [exact Hv'|]. split; [|exact Hgrid].
  destruct (updateGeometries_maxCost_wrapped v v' rows Hm Hv') as (q & m & Hq & Hr & ->).
  fold cc n in Hq, Hr.
  rewrite div_pos_divisor in Hq by lia. rewrite rem_pos_divisor in Hr by lia.
  injection Hq as <-. injection Hr as <-.
  fold cc.
  assert (H0 : 0 <= grid_rows n cc).
  { unfold grid_rows. rewrite Z.quot_div_nonneg by lia.
    pose proof (Z.div_pos n cc ltac:(lia) ltac:(lia)).
    destruct (Z.rem n cc =? 0); lia. }
  assert (E : (Z.quot n cc + (if Z.rem n cc =? 0 then 0 else 1))%int = grid_rows n cc).
  { unfold Int32.add. fold (grid_rows n cc). apply wrap_small.
    unfold Int32.in_range, Int32.INT_MIN, Int32.INT_MAX in *. nia. }
  unfold Int32.INT_MAX in *.
  rewrite E. int_exact. lia.
Qed.

(** Seven rows in five columns give two tile rows and a capacity of 50. *)
Lemma updateGeometries_maxCost_witness :
  exists v',
    updateGeometries seven_in_five = Some v' /\
    mx (m_imageCache v') = 5 * (grid_rows 7 5 * 5) /\
    7 <= grid_rows 7 5 * 5 < 7 + 5.
Proof.
  apply (updateGeometries_maxCost seven_in_five seven_rows);
    try reflexivity; vm_compute; intuition discriminate.
Defined.

(** C2: the capacity at the failing input, twelve rows in five columns on
    a 500x200 viewport.  Two tile rows fit in the viewport, so five times
    the capacity of the viewport is 50, but [updateGeometries] sets the
    capacity to 75, from the three tile rows of the whole model.  After a
    change to four columns one tile row of four tiles fits in the
    viewport, five times that is 20: [setColumnCount] itself leaves the
    capacity at 75, and the layout that follows sets it to 60, again from
    the three tile rows of the model. *)
Lemma updateGeometries_maxCost_not_visible_capacity :
  exists v' visibleRows v'',
    updateGeometries twelve_in_five = Some v' /\
    viewRowCount twelve_in_five = Some visibleRows /\
    visibleRows = 2 /\
    mx (m_imageCache v') = 75 /\
    mx (m_imageCache v') <> 5 * (visibleRows * m_columnCount twelve_in_five) /\
    m_columnCount (setColumnCount 4 v') = 4 /\
    viewRowCount (setColumnCount 4 v') = Some 1 /\
    mx (m_imageCache (setColumnCount 4 v')) = 75 /\
    updateGeometries (setColumnCount 4 v') = Some v'' /\
    mx (m_imageCache v'') = 60 /\
    mx (m_imageCache v'') <> 5 * (1 * 4).
Proof.
  eexists. exists 2. eexists. split; [reflexivity|]. split; [reflexivity|].
  split; [reflexivity|]. split; [reflexivity|].
  split; [vm_compute; discriminate|].
  split; [reflexivity|]. split; [reflexivity|]. split; [reflexivity|].
  split; [vm_compute; reflexivity|]. split; [reflexivity|].
  vm_compute. discriminate.
Qed.

(** ** Tile geometry *)

Section Geometry.

Variable v : ImageListView.
Variable rows : list string.
Hypothesis Hmodel : model v = Some rows.

Lemma indexAt_unfold (p : QPoint) :
  indexAt v p =
    (width <- Int32.div (viewport_width v) (m_columnCount v) ;;
     let height := Int32.qMin width (viewport_height v) in
     c <- Int32.div (px p + horizontalOffset v)%int width ;;
     r <- Int32.div (py p + verticalOffset v)%int height ;;
     let i := ((r * m_columnCount v) + c)%int in
     if (0 <=? i) && (i <? rowCount rows)
     then Some (Some i) else Some None).
Proof.
  unfold indexAt. rewrite Hmodel. cbn [px py].
  destruct (Int32.div (viewport_width v) (m_columnCount v)) as [w|]; [|reflexivity].
  cbn [bind].
  destruct (Int32.div _ w) as [c|]; [|reflexivity]. cbn [bind].
  destruct (Int32.div _ (Int32.qMin w (viewport_height v))) as [r|]; [|reflexivity].
  cbn [bind]. unfold model_index.
  destruct ((0 <=? _) && (_ <? rowCount rows)); reflexivity.
Qed.

(** An index [indexAt] returns is a row of the model. *)
Lemma indexAt_valid (p : QPoint) (i : Z) :
  indexAt v p = Some (Some i) -> 0 <= i < rowCount rows.
Proof.
  rewrite indexAt_unfold.
  destruct (Int32.div (viewport_width v) (m_columnCount v)) as [w|]; [|discriminate].
  cbn [bind].
  destruct (Int32.div _ w) as [c|]; [|discriminate]. cbn [bind].
  destruct (Int32.div _ (Int32.qMin w (viewport_height v))) as [r|]; [|discriminate].
  cbn [bind].
  destruct ((0 <=? _) && (_ <? rowCount rows)) eqn:E; [|discriminate].
  intros H. injection H as <-.
  apply andb_true_iff in E. destruct E as [E1 E2].
  apply Z.leb_le in E1. apply Z.ltb_lt in E2. lia.
Qed.

(** With a non-negative column count and viewport size, the zero
    divisors are the only way for [indexAt] to have no result. *)
Lemma indexAt_None_iff (p : QPoint) :
  0 <= m_columnCount v -> 0 <= viewport_width v -> 0 <= viewport_height v ->
  indexAt v p = None <->
  (m_columnCount v = 0 \/ tile_width v = 0 \/ tile_height v = 0).
Proof.
  intros Hcc Hw Hh. rewrite indexAt_unfold.
  unfold tile_height, tile_width.
  rewrite div_nonneg_divisor by lia.
  destruct (Z.eqb_spec (m_columnCount v) 0) as [E|E].
  { split; [tauto|reflexivity]. }
  cbn [bind].
  assert (Hq : 0 <= Z.quot (viewport_width v) (m_columnCount v))
    by (apply Z.quot_pos; lia).
  set (w := Z.quot (viewport_width v) (m_columnCount v)) in *.
  rewrite (div_nonneg_divisor _ w) by lia.
  destruct (Z.eqb_spec w 0) as [Ew|Ew].
  { split; [tauto|reflexivity]. }
  cbn [bind].
  assert (Hhq : 0 <= Int32.qMin w (viewport_height v)) by (rewrite qMin_spec; lia).
  rewrite (div_nonneg_divisor _ (Int32.qMin w (viewport_height v))) by lia.
  destruct (Z.eqb_spec (Int32.qMin w (viewport_height v)) 0) as [Et|Et].
  { split; [tauto|reflexivity]. }
  cbn [bind].
  destruct ((0 <=? _) && (_ <? rowCount rows)); split; try discriminate; tauto.
Qed.

Lemma range_unfold (rect : QRect) :
  modelIndexRangeForRect v rect =
    (startIndex <- indexAt v (Rect.topLeft (Rect.normalized rect)) ;;
     finishIndex <- indexAt v (Rect.bottomRight (Rect.normalized rect)) ;;
     Some (valid_row_or 0 startIndex,
           match finishIndex with
           | Some finishRow => (finishRow + 1)%int
           | None => rowCount rows
           end)).
Proof.
  unfold modelIndexRangeForRect. rewrite Hmodel. reflexivity.
Qed.

Lemma range_None_iff (rect : QRect) :
  0 <= m_columnCount v -> 0 <= viewport_width v -> 0 <= viewport_height v ->
  modelIndexRangeForRect v rect = None <->
  (m_columnCount v = 0 \/ tile_width v = 0 \/ tile_height v = 0).
Proof.
  intros Hcc Hw Hh. rewrite range_unfold.
  pose proof (indexAt_None_iff (Rect.topLeft (Rect.normalized rect)) Hcc Hw Hh) as H1.
  pose proof (indexAt_None_iff (Rect.bottomRight (Rect.normalized rect)) Hcc Hw Hh) as H2.
  destruct (indexAt v (Rect.topLeft _)) as [si|]; [|tauto].
  destruct (indexAt v (Rect.bottomRight _)) as [fi|]; [|tauto].
  cbn [bind]. split; [discriminate|].
  intros H. apply H1 in H. discriminate.
Qed.

End Geometry.

(** C3 (amended): with a model set and a non-negative column count and
    viewport size, [indexAt] and [modelIndexRangeForRect] have a result
    exactly when the column count and the computed tile width and height
    are all nonzero, and an index they return is a row of the model; when
    the column count or the tile width or height is zero they divide by
    zero and return nothing. *)
Theorem degenerate_geometry_divides_by_zero
  (v : ImageListView) (rows : list string) (p : QPoint) (rect : QRect) :
  model v = Some rows ->
  0 <= m_columnCount v -> 0 <= viewport_width v -> 0 <= viewport_height v ->
  (indexAt v p = None <->
     (m_columnCount v = 0 \/ tile_width v = 0 \/ tile_height v = 0)) /\
  (modelIndexRangeForRect v rect = None <->
     (m_columnCount v = 0 \/ tile_width v = 0 \/ tile_height v = 0)) /\
  (forall i, indexAt v p = Some (Some i) -> 0 <= i < rowCount rows).
Proof.
  intros Hm Hcc Hw Hh. split; [|split].
  - now apply (indexAt_None_iff v rows Hm).
  - now apply (range_None_iff v rows Hm).
  - intros i. now apply indexAt_valid.
Qed.

(** C3, witness: the seven-row example view at the origin. *)
Lemma degenerate_geometry_witness :
  (indexAt seven_in_five (mkQPoint 0 0) = None <->
     (m_columnCount seven_in_five = 0 \/ tile_width seven_in_five = 0 \/
      tile_height seven_in_five = 0)) /\
  (modelIndexRangeForRect seven_in_five (viewport_rect seven_in_five) = None <->
     (m_columnCount seven_in_five = 0 \/ tile_width seven_in_five = 0 \/
      tile_height seven_in_five = 0)) /\
  (forall i, indexAt seven_in_five (mkQPoint 0 0) = Some (Some i) ->
             0 <= i < rowCount seven_rows).
Proof.
  apply (degenerate_geometry_divides_by_zero seven_in_five seven_rows);
    [reflexivity | vm_compute; discriminate ..].
Defined.

(** C3, counterexample to the claim as stated: with zero columns, and
    with an empty viewport, neither computation returns the invalid index
    or an empty range; the division by zero leaves them without a result. *)
Lemma zero_columns_no_result :
  indexAt (set_columnCount 0 seven_in_five) (mkQPoint 10 10) = None /\
  indexAt (set_columnCount 0 seven_in_five) (mkQPoint 10 10) <> Some None /\
  modelIndexRangeForRect (set_columnCount 0 seven_in_five)
                         (viewport_rect seven_in_five) = None /\
  indexAt (set_viewport 0 0 seven_in_five) (mkQPoint 10 10) = None /\
  modelIndexRangeForRect (set_viewport 0 0 seven_in_five)
                         (viewport_rect (set_viewport 0 0 seven_in_five)) = None.
Proof.
  repeat split; try reflexivity. discriminate.
Qed.

Section NonDegenerate.

Variable v : ImageListView.
Variable rows : list string.
Hypothesis Hmodel : model v = Some rows.
Hypothesis Hcolumns : 1 <= m_columnCount v.
Hypothesis Hwidth : 1 <= tile_width v.
Hypothesis Hheight : 1 <= tile_height v.

Lemma indexAt_some (p : QPoint) : exists index, indexAt v p = Some index.
Proof.
  rewrite (indexAt_unfold v rows Hmodel).
  rewrite div_pos_divisor by lia. cbn [bind].
  fold (tile_width v). rewrite (div_pos_divisor _ (tile_width v)) by lia.
  cbn [bind]. fold (tile_height v).
  rewrite div_pos_divisor by lia. cbn [bind].
  destruct ((0 <=? _) && (_ <? rowCount rows)); eexists; reflexivity.
Qed.

Lemma indexAt_exact (p : QPoint) :
  exact_at v p ->
  indexAt v p =
    Some (if (0 <=? tile_index v p) && (tile_index v p <? rowCount rows)
          then Some (tile_index v p) else None).
Proof.
  intros (Hx & Hy & Hi).
  rewrite (indexAt_unfold v rows Hmodel).
  rewrite div_pos_divisor by lia. cbn [bind].
  fold (tile_width v). rewrite (div_pos_divisor _ (tile_width v)) by lia.
  cbn [bind]. fold (tile_height v).
  rewrite div_pos_divisor by lia. cbn [bind].
  unfold horizontalOffset.
  assert (Ex : (px p + 0)%int = px p).
  { unfold Int32.add. rewrite Z.add_0_r. now apply wrap_small. }
  assert (Ey : (py p + verticalOffset v)%int = py p + verticalOffset v).
  { unfold Int32.add. now apply wrap_small. }
  rewrite Ex, Ey.
  assert (Ei : ((Z.quot (py p + verticalOffset v) (tile_height v) * m_columnCount v)
                + Z.quot (px p) (tile_width v))%int = tile_index v p).
  { unfold Int32.add, Int32.mul. rewrite wrap_add_wrap_l.
    now apply wrap_small. }
  rewrite Ei.
  destruct ((0 <=? _) && (_ <? rowCount rows)); reflexivity.
Qed.

Lemma tile_index_mono (p q : QPoint) :
  px p <= px q -> py p <= py q -> tile_index v p <= tile_index v q.
Proof.
  intros Hx Hy. unfold tile_index.
  apply Z.add_le_mono.
  - apply Z.mul_le_mono_nonneg_r; [lia|].
    apply Z.quot_le_mono; lia.
  - apply Z.quot_le_mono; lia.
Qed.

(** The range of a rectangle, from the two indices [indexAt] returns. *)
Lemma range_some (rect : QRect) :
  rowCount rows <= Int32.INT_MAX ->
  exists startIndex finishIndex,
    indexAt v (Rect.topLeft (Rect.normalized rect)) = Some startIndex /\
    indexAt v (Rect.bottomRight (Rect.normalized rect)) = Some finishIndex /\
    modelIndexRangeForRect v rect =
      Some (valid_row_or 0 startIndex,
            match finishIndex with
            | Some finishRow => finishRow + 1
            | None => rowCount rows
            end).
Proof.
  intros Hn. rewrite (range_unfold v rows Hmodel).
  destruct (indexAt_some (Rect.topLeft (Rect.normalized rect))) as [si Hs].
  destruct (indexAt_some (Rect.bottomRight (Rect.normalized rect))) as [fi Hf].
  exists si, fi. rewrite Hs, Hf. cbn [bind]. repeat split.
  destruct fi as [i|]; [|reflexivity].
  apply (indexAt_valid v rows Hmodel) in Hf.
  assert (0 <= rowCount rows) by (unfold rowCount; lia).
  int_exact. reflexivity.
Qed.

(** C6 (amended): on a non-degenerate view the range of a rectangle is
    [(first, last)], where [first] is the index at the top-left point of
    the normalized rectangle, or 0 when that index is not valid, and
    [last] is one more than the index at its bottom-right point, or the
    row count when that index is not valid; both lie in [0, rowCount];
    and [first <= last] when the normalized rectangle is not empty and
    the two indices are computed without wrap-around. *)
Theorem modelIndexRangeForRect_spec (rect : QRect) :
  rowCount rows <= Int32.INT_MAX ->
  exists startIndex finishIndex first last,
    indexAt v (Rect.topLeft (Rect.normalized rect)) = Some startIndex /\
    indexAt v (Rect.bottomRight (Rect.normalized rect)) = Some finishIndex /\
    modelIndexRangeForRect v rect = Some (first, last) /\
    first = valid_row_or 0 startIndex /\
    last = match finishIndex with
           | Some finishRow => finishRow + 1
           | None => rowCount rows
           end /\
    0 <= first <= rowCount rows /\
    0 <= last <= rowCount rows /\
    (Rect.isValid (Rect.normalized rect) = true ->
     exact_at v (Rect.topLeft (Rect.normalized rect)) ->
     exact_at v (Rect.bottomRight (Rect.normalized rect)) ->
     first <= last).
Proof.
  intros Hn.
  destruct (range_some rect Hn) as (si & fi & Hs & Hf & Hr).
  exists si, fi. eexists. eexists.
  split; [exact Hs|]. split; [exact Hf|]. split; [exact Hr|].
  split; [reflexivity|]. split; [reflexivity|].
  assert (H0 : 0 <= rowCount rows) by (unfold rowCount; lia).
  assert (Hfirst : 0 <= valid_row_or 0 si <= rowCount rows).
  { destruct si as [i|]; cbn [valid_row_or]; [|lia].
    apply (indexAt_valid v rows Hmodel) in Hs. lia. }
  assert (Hlast : 0 <= match fi with Some i => i + 1 | None => rowCount rows end
                  <= rowCount rows).
  { destruct fi as [i|]; [|lia].
    apply (indexAt_valid v rows Hmodel) in Hf. lia. }
  split; [exact Hfirst|]. split; [exact Hlast|].
  intros Hvalid Ht Hb.
  unfold Rect.isValid in Hvalid. apply andb_true_iff in Hvalid.
  destruct Hvalid as [Hx Hy]. apply Z.leb_le in Hx. apply Z.leb_le in Hy.
  pose proof (tile_index_mono (Rect.topLeft (Rect.normalized rect))
                              (Rect.bottomRight (Rect.normalized rect)) Hx Hy) as Hmono.
  rewrite (indexAt_exact _ Ht) in Hs. rewrite (indexAt_exact _ Hb) in Hf.
  injection Hs as <-. injection Hf as <-.
  destruct ((0 <=? tile_index v (Rect.topLeft _)) && _) eqn:E1;
    destruct ((0 <=? tile_index v (Rect.bottomRight _)) && _) eqn:E2;
    cbn [valid_row_or] in *; lia.
Qed.

End NonDegenerate.

(** ** Round trip between indices and tile rectangles *)

Lemma quot2_between (a b : Z) : a <= b -> a <= Z.quot (a + b) 2 <= b.
Proof.
  intros H. pose proof (Z.quot_rem' (a + b) 2) as E.
  pose proof (Z.rem_bound_abs (a + b) 2 ltac:(lia)) as B.
  pose proof (Z.rem_sign_mul (a + b) 2 ltac:(lia)) as S.
  nia.
Qed.

Lemma quot_in_tile (a size k : Z) :
  0 < size -> 0 <= k -> k * size <= a < (k + 1) * size -> Z.quot a size = k.
Proof.
  intros Hs Hk Ha. symmetry.
  apply (Z.quot_unique a size k (a - size * k)); nia.
Qed.

Lemma model_index_valid (rows : list string) (i : Z) :
  0 <= i < rowCount rows -> model_index rows i = Some i.
Proof.
  intros H. unfold model_index.
  destruct (Z.leb_spec 0 i); [|lia].
  destruct (Z.ltb_spec i (rowCount rows)); [reflexivity|lia].
Qed.

(** The tile rectangle of a valid row, with its exact coordinates. *)
Lemma visualRect_exact (v : ImageListView) (i : Z) :
  1 <= m_columnCount v -> 1 <= tile_width v -> 1 <= tile_height v ->
  0 <= i ->
  viewport_width v <= Int32.INT_MAX ->
  0 <= verticalOffset v <= Int32.INT_MAX ->
  (Z.quot i (m_columnCount v) + 1) * tile_height v <= Int32.INT_MAX ->
  visualRect v (Some i) =
    Some (mkCorners
            (Z.rem i (m_columnCount v) * tile_width v)
            (Z.quot i (m_columnCount v) * tile_height v - verticalOffset v)
            (Z.rem i (m_columnCount v) * tile_width v + tile_width v - 1)
            (Z.quot i (m_columnCount v) * tile_height v - verticalOffset v
             + tile_height v - 1)).
Proof.
  intros Hcc Hw Hh Hi Hvw Hoff Hbottom.
  unfold visualRect.
  rewrite !div_pos_divisor, rem_pos_divisor by lia. cbn [bind].
  fold (tile_width v). fold (tile_height v). unfold horizontalOffset.
  set (cc := m_columnCount v) in *. set (w := tile_width v) in *.
  set (h := tile_height v) in *. set (off := verticalOffset v) in *.
  assert (Hvw0 : 0 <= viewport_width v).
  { destruct (Z.le_gt_cases 0 (viewport_width v)) as [H|H]; [exact H|].
    pose proof (Z.quot_le_mono (viewport_width v) 0 cc ltac:(lia) ltac:(lia)) as Hq.
    rewrite Z.quot_0_l in Hq by lia. unfold w, tile_width in Hw. fold cc in Hw. lia. }
  pose proof (Z.mul_quot_le (viewport_width v) cc Hvw0 ltac:(lia)) as Hfit.
  change (Z.quot (viewport_width v) cc) with w in Hfit.
  pose proof (Z.rem_bound_pos i cc Hi ltac:(lia)) as Hc.
  pose proof (Z.quot_pos i cc Hi ltac:(lia)) as Hr.
  set (c := Z.rem i cc) in *. set (r := Z.quot i cc) in *.
  unfold Rect.make.
  assert (Ex : (c * w)%int = c * w) by (int_exact; reflexivity).
  assert (Ey : (r * h)%int = r * h) by (int_exact; reflexivity).
  rewrite Ex, Ey.
  assert (Ex1 : Int32.sub (c * w)%Z 0 = c * w) by (int_exact; lia).
  assert (Ey1 : Int32.sub (r * h)%Z off = r * h - off) by (int_exact; lia).
  rewrite Ex1, Ey1.
  assert (Ex2 : Int32.sub (Int32.add (c * w)%Z w) 1 = c * w + w - 1)
    by (int_exact; lia).
  assert (Ey2 : Int32.sub (Int32.add (r * h - off)%Z h) 1 = r * h - off + h - 1)
    by (int_exact; lia).
  rewrite Ex2, Ey2. reflexivity.
Qed.

(** C4: on a view with at least one column and tiles at least one pixel
    wide and high, every valid row maps to a tile rectangle whose center
    maps back to that row, provided the coordinates of the tile fit in an
    [int] (the scroll offset is not negative and the bottom edge of the
    tile, in model coordinates, does not exceed INT_MAX). *)
Theorem visualRect_center_indexAt
  (v : ImageListView) (rows : list string) (i : Z) :
  model v = Some rows ->
  1 <= m_columnCount v -> 1 <= tile_width v -> 1 <= tile_height v ->
  0 <= i < rowCount rows ->
  rowCount rows <= Int32.INT_MAX ->
  viewport_width v <= Int32.INT_MAX ->
  0 <= verticalOffset v <= Int32.INT_MAX ->
  (Z.quot i (m_columnCount v) + 1) * tile_height v <= Int32.INT_MAX ->
  exists rect,
    visualRect v (model_index rows i) = Some rect /\
    indexAt v (Rect.center rect) = Some (Some i).
Proof.
  intros Hm Hcc Hw Hh Hi Hn Hvw Hoff Hbottom.
  rewrite (model_index_valid rows i Hi).
  rewrite (visualRect_exact v i Hcc Hw Hh ltac:(lia) Hvw Hoff Hbottom).
  eexists. split; [reflexivity|].
  set (cc := m_columnCount v) in *. set (w := tile_width v) in *.
  set (h := tile_height v) in *. set (off := verticalOffset v) in *.
  assert (Hvw0 : 0 <= viewport_width v).
  { destruct (Z.le_gt_cases 0 (viewport_width v)) as [H|H]; [exact H|].
    pose proof (Z.quot_le_mono (viewport_width v) 0 cc ltac:(lia) ltac:(lia)) as Hq.
    rewrite Z.quot_0_l in Hq by lia. unfold w, tile_width in Hw. fold cc in Hw. lia. }
  pose proof (Z.mul_quot_le (viewport_width v) cc Hvw0 ltac:(lia)) as Hfit.
  change (Z.quot (viewport_width v) cc) with w in Hfit.
  pose proof (Z.rem_bound_pos i cc ltac:(lia) ltac:(lia)) as Hc.
  pose proof (Z.quot_pos i cc ltac:(lia) ltac:(lia)) as Hr.
  pose proof (Z.quot_rem' i cc) as Hqr.
  set (c := Z.rem i cc) in *. set (r := Z.quot i cc) in *.
  unfold Rect.center. cbn [x1 x2 y1 y2].
  pose proof (quot2_between (c * w) (c * w + w - 1) ltac:(lia)) as Hcx.
  pose proof (quot2_between (r * h - off) (r * h - off + h - 1) ltac:(lia)) as Hcy.
  set (cx := Z.quot (c * w + (c * w + w - 1)) 2) in *.
  set (cy := Z.quot (r * h - off + (r * h - off + h - 1)) 2) in *.
  assert (Ecx : Int32.wrap cx = cx) by (apply wrap_small; range_solve).
  assert (Ecy : Int32.wrap cy = cy) by (apply wrap_small; range_solve).
  rewrite Ecx, Ecy.
  assert (Er : Z.quot (cy + off) h = r) by (apply quot_in_tile; nia).
  assert (Ec : Z.quot cx w = c) by (apply quot_in_tile; nia).
  assert (Eidx : tile_index v (mkQPoint cx cy) = i).
  { unfold tile_index. cbn [px py]. fold off h w cc. rewrite Er, Ec. lia. }
  rewrite (indexAt_exact v rows Hm Hcc Hw Hh).
  - rewrite Eidx.
    destruct (Z.leb_spec 0 i); [|lia].
    destruct (Z.ltb_spec i (rowCount rows)); [reflexivity|lia].
  - unfold exact_at. rewrite Eidx. cbn [px py]. fold off.
    unfold Int32.in_range, Int32.INT_MIN, Int32.INT_MAX in *.
    repeat split; nia.
Qed.

(** C4, witness: row 6 of the seven-row example, whose tile is the second
    one of the second tile row. *)
Lemma visualRect_center_indexAt_witness :
  exists rect,
    visualRect seven_in_five (model_index seven_rows 6) = Some rect /\
    indexAt seven_in_five (Rect.center rect) = Some (Some 6).
Proof.
  apply (visualRect_center_indexAt seven_in_five seven_rows 6);
    try reflexivity; vm_compute; intuition discriminate.
Defined.

(** ** Ranges of nested rectangles *)

(** C5 (amended): on a non-degenerate view, let the normalized rectangle
    [R2] cover the normalized rectangle [R1], with indices computed
    without wrap-around at their corners.  If the top-left point of [R1]
    does not lie past the last row and its bottom-right point does not lie
    before the first row, the range of [R2] contains the range of [R1]. *)
Theorem modelIndexRangeForRect_monotone
  (v : ImageListView) (rows : list string) (R1 R2 : QRect) :
  model v = Some rows ->
  1 <= m_columnCount v -> 1 <= tile_width v -> 1 <= tile_height v ->
  rowCount rows <= Int32.INT_MAX ->
  Rect.covers (Rect.normalized R2) (Rect.normalized R1) ->
  exact_at v (Rect.topLeft (Rect.normalized R1)) ->
  exact_at v (Rect.bottomRight (Rect.normalized R1)) ->
  exact_at v (Rect.topLeft (Rect.normalized R2)) ->
  exact_at v (Rect.bottomRight (Rect.normalized R2)) ->
  tile_index v (Rect.topLeft (Rect.normalized R1)) < rowCount rows ->
  0 <= tile_index v (Rect.bottomRight (Rect.normalized R1)) ->
  exists first1 last1 first2 last2,
    modelIndexRangeForRect v R1 = Some (first1, last1) /\
    modelIndexRangeForRect v R2 = Some (first2, last2) /\
    first2 <= first1 /\ last1 <= last2.
Proof.
  intros Hm Hcc Hw Hh Hn (Hx1 & Hx2 & Hy1 & Hy2) Et1 Eb1 Et2 Eb2 Hlow Hhigh.
  destruct (range_some v rows Hm Hcc Hw Hh R1 Hn) as (s1 & f1 & Hs1 & Hf1 & Hr1).
  destruct (range_some v rows Hm Hcc Hw Hh R2 Hn) as (s2 & f2 & Hs2 & Hf2 & Hr2).
  rewrite Hr1, Hr2. do 4 eexists.
  split; [reflexivity|]. split; [reflexivity|].
  pose proof (tile_index_mono v Hcc Hw Hh (Rect.topLeft (Rect.normalized R2))
                (Rect.topLeft (Rect.normalized R1)) Hx1 Hy1) as Mtl.
  pose proof (tile_index_mono v Hcc Hw Hh (Rect.bottomRight (Rect.normalized R1))
                (Rect.bottomRight (Rect.normalized R2)) Hx2 Hy2) as Mbr.
  rewrite (indexAt_exact v rows Hm Hcc Hw Hh _ Et1) in Hs1.
  rewrite (indexAt_exact v rows Hm Hcc Hw Hh _ Eb1) in Hf1.
  rewrite (indexAt_exact v rows Hm Hcc Hw Hh _ Et2) in Hs2.
  rewrite (indexAt_exact v rows Hm Hcc Hw Hh _ Eb2) in Hf2.
  injection Hs1 as <-. injection Hf1 as <-.
  injection Hs2 as <-. injection Hf2 as <-.
  assert (H0 : 0 <= rowCount rows) by (unfold rowCount; lia).
  split.
  - destruct (Z.leb_spec 0 (tile_index v (Rect.topLeft (Rect.normalized R1))));
      destruct (Z.ltb_spec (tile_index v (Rect.topLeft (Rect.normalized R1)))
                           (rowCount rows));
      destruct (Z.leb_spec 0 (tile_index v (Rect.topLeft (Rect.normalized R2))));
      destruct (Z.ltb_spec (tile_index v (Rect.topLeft (Rect.normalized R2)))
                           (rowCount rows));
      cbn [andb valid_row_or]; lia.
  - destruct (Z.leb_spec 0 (tile_index v (Rect.bottomRight (Rect.normalized R1))));
      destruct (Z.ltb_spec (tile_index v (Rect.bottomRight (Rect.normalized R1)))
                           (rowCount rows));
      destruct (Z.leb_spec 0 (tile_index v (Rect.bottomRight (Rect.normalized R2))));
      destruct (Z.ltb_spec (tile_index v (Rect.bottomRight (Rect.normalized R2)))
                           (rowCount rows));
      cbn [andb]; lia.
Qed.

(** C5, witness: the tile of row 1 inside a rectangle over three columns
    and two tile rows. *)
Lemma modelIndexRangeForRect_monotone_witness :
  exists first1 last1 first2 last2,
    modelIndexRangeForRect seven_in_five (Rect.make 100 0 100 100)
      = Some (first1, last1) /\
    modelIndexRangeForRect seven_in_five (Rect.make 0 0 300 200)
      = Some (first2, last2) /\
    first2 <= first1 /\ last1 <= last2.
Proof.
  apply (modelIndexRangeForRect_monotone seven_in_five seven_rows);
    try reflexivity; vm_compute; intuition discriminate.
Defined.

(** C5, counterexample to the claim as stated: seven rows in five columns
    of 100x100 tiles.  The rectangle over the third tile of the second
    tile row lies past the last row, so its range is the whole model; the
    wider rectangle over the first three tiles of that tile row has the
    range [5, 7), which misses rows 0 to 4. *)
Lemma wider_rectangle_smaller_range :
  Rect.covers (Rect.make 0 100 300 100) (Rect.make 200 100 100 100) /\
  modelIndexRangeForRect seven_in_five (Rect.make 200 100 100 100) = Some (0, 7) /\
  modelIndexRangeForRect seven_in_five (Rect.make 0 100 300 100) = Some (5, 7) /\
  in_row_range (0, 7) 0 /\
  ~ in_row_range (5, 7) 0.
Proof.
  split; [vm_compute; intuition discriminate|].
  split; [reflexivity|]. split; [reflexivity|].
  unfold in_row_range; cbn [fst snd]. lia.
Qed.

(** C6, witness: the range of the whole viewport of the example view. *)
Lemma modelIndexRangeForRect_spec_witness :
  exists startIndex finishIndex first last,
    indexAt seven_in_five
      (Rect.topLeft (Rect.normalized (viewport_rect seven_in_five)))
      = Some startIndex /\
    indexAt seven_in_five
      (Rect.bottomRight (Rect.normalized (viewport_rect seven_in_five)))
      = Some finishIndex /\
    modelIndexRangeForRect seven_in_five (viewport_rect seven_in_five)
      = Some (first, last) /\
    first = valid_row_or 0 startIndex /\
    last = match finishIndex with
           | Some finishRow => finishRow + 1
           | None => rowCount seven_rows
           end /\
    0 <= first <= rowCount seven_rows /\
    0 <= last <= rowCount seven_rows /\
    (Rect.isValid (Rect.normalized (viewport_rect seven_in_five)) = true ->
     exact_at seven_in_five
       (Rect.topLeft (Rect.normalized (viewport_rect seven_in_five))) ->
     exact_at seven_in_five
       (Rect.bottomRight (Rect.normalized (viewport_rect seven_in_five))) ->
     first <= last).
Proof.
  apply (modelIndexRangeForRect_spec seven_in_five seven_rows);
    try reflexivity; vm_compute; intuition discriminate.
Defined.

(** C6, counterexample to the claim as stated: the empty rectangle whose
    corners are (100, 100) and (99, 99), as a rubber band dragged one
    pixel up and left gives it.  Its top-left point lies in the tile of
    row 6 and its bottom-right point in the tile of row 0, so the range
    is (6, 1): [first] exceeds [last]. *)
Lemma empty_rectangle_inverted_range :
  Rect.make 100 100 0 0 = mkCorners 100 100 99 99 /\
  modelIndexRangeForRect seven_in_five (Rect.make 100 100 0 0) = Some (6, 1) /\
  exists first last,
    modelIndexRangeForRect seven_in_five (Rect.make 100 100 0 0)
      = Some (first, last) /\
    ~ (0 <= first <= last /\ last <= rowCount seven_rows).
Proof.
  split; [reflexivity|]. split; [reflexivity|].
  exists 6, 1. split; [reflexivity|]. lia.
Qed.

(** The viewport rectangle of the example view is not empty and the
    indices at its corners are computed without wrap-around. *)
Example viewport_corners_exact :
  Rect.isValid (Rect.normalized (viewport_rect seven_in_five)) = true /\
  exact_at seven_in_five
    (Rect.topLeft (Rect.normalized (viewport_rect seven_in_five))) /\
  exact_at seven_in_five
    (Rect.bottomRight (Rect.normalized (viewport_rect seven_in_five))) /\
  modelIndexRangeForRect seven_in_five (viewport_rect seven_in_five)
    = Some (0, 7).
Proof.
  split; [reflexivity|].
  split; [vm_compute; intuition discriminate|].
  split; [vm_compute; intuition discriminate|reflexivity].
Qed.

(** ** The image cache *)

Lemma contains_In (k : string) (c : QCache) :
  Cache.contains k c = true <-> exists img, In (k, img) (entries c).
Proof.
  unfold Cache.contains. rewrite existsb_exists. split.
  - intros ([k' img] & Hin & Heq). cbn [fst] in Heq.
    apply String.eqb_eq in Heq. subst k'. now exists img.
  - intros (img & Hin). exists (k, img). split; [exact Hin|].
    cbn [fst]. apply String.eqb_refl.
Qed.

Lemma contains_lookup (k : string) (c : QCache) :
  Cache.contains k c = false <-> Cache.lookup k c = None.
Proof.
  unfold Cache.contains, Cache.lookup.
  induction (entries c) as [|[k' img] l IH]; cbn [existsb find fst snd].
  - tauto.
  - destruct (String.eqb k' k); cbn [orb]; [split; discriminate|exact IH].
Qed.

Lemma lookup_In (k : string) (img : QImage) (c : QCache) :
  Cache.lookup k c = Some img -> In (k, img) (entries c).
Proof.
  unfold Cache.lookup.
  destruct (find _ (entries c)) as [[k' img']|] eqn:E; [|discriminate].
  intros H. injection H as <-. apply find_some in E. destruct E as [Hin Heq].
  cbn [fst] in Heq. apply String.eqb_eq in Heq. now subst k'.
Qed.

Lemma In_unlink (k k' : string) (img : QImage) (l : list (string * QImage)) :
  In (k', img) (Cache.unlink k l) <-> In (k', img) l /\ k' <> k.
Proof.
  unfold Cache.unlink. rewrite filter_In. cbn [fst].
  destruct (String.eqb_spec k' k); cbn [negb]; intuition congruence.
Qed.

Lemma contains_remove_same (k : string) (c : QCache) :
  Cache.contains k (Cache.remove k c) = false.
Proof.
  destruct (Cache.contains k (Cache.remove k c)) eqn:E; [|reflexivity].
  apply contains_In in E. destruct E as (img & Hin).
  cbn [Cache.remove entries] in Hin. apply In_unlink in Hin. tauto.
Qed.

Lemma lookup_unlink_other (k k' : string) (l : list (string * QImage)) (m m' : Z) :
  k' <> k ->
  Cache.lookup k' (mkCache m (Cache.unlink k l)) = Cache.lookup k' (mkCache m' l).
Proof.
  intros Hne. unfold Cache.lookup. cbn [entries].
  induction l as [|[k0 img] l IH]; [reflexivity|].
  cbn [Cache.unlink filter find fst].
  destruct (String.eqb_spec k0 k) as [->|Hk0]; cbn [negb].
  - destruct (String.eqb_spec k k'); [congruence|]. exact IH.
  - cbn [find fst]. destruct (String.eqb k0 k'); [reflexivity|exact IH].
Qed.

Lemma lookup_remove_other (k k' : string) (c : QCache) :
  k' <> k -> Cache.lookup k' (Cache.remove k c) = Cache.lookup k' c.
Proof.
  intros Hne. unfold Cache.remove. destruct c as [m l]. cbn [mx entries].
  now apply lookup_unlink_other.
Qed.

(** [take] hands out what [lookup] finds and leaves the key absent. *)
Lemma take_spec (k : string) (c : QCache) :
  fst (Cache.take k c) = Cache.lookup k c /\
  Cache.contains k (snd (Cache.take k c)) = false /\
  (forall k', k' <> k ->
     Cache.lookup k' (snd (Cache.take k c)) = Cache.lookup k' c) /\
  mx (snd (Cache.take k c)) = mx c.
Proof.
  unfold Cache.take. destruct (Cache.lookup k c) as [img|] eqn:E; cbn [fst snd].
  - split; [reflexivity|]. split; [apply contains_remove_same|].
    split; [|reflexivity]. intros k' Hne. now apply lookup_remove_other.
  - split; [reflexivity|]. split; [now apply contains_lookup|].
    split; reflexivity.
Qed.

Lemma trim_from_last_firstn (m : Z) (l : list (string * QImage)) :
  rev (Cache.trim_from_last m (rev l)) = firstn (Z.to_nat m) l.
Proof.
  induction l as [|x l IH] using rev_ind; [now destruct (Z.to_nat m)|].
  rewrite rev_app_distr. cbn [rev app Cache.trim_from_last].
  destruct (Z.ltb_spec m (Z.of_nat (List.length (x :: rev l)))) as [Hlt|Hge].
  - rewrite IH. cbn [List.length] in Hlt. rewrite length_rev in Hlt.
    rewrite firstn_app.
    replace (Z.to_nat m - List.length l)%nat with 0%nat by lia.
    cbn [firstn]. now rewrite app_nil_r.
  - cbn [List.length] in Hge. rewrite length_rev in Hge.
    cbn [rev]. rewrite rev_involutive.
    rewrite firstn_all2; [reflexivity|].
    rewrite length_app. cbn [List.length]. lia.
Qed.

Lemma entries_trim (m : Z) (c : QCache) :
  entries (Cache.trim m c) = firstn (Z.to_nat m) (entries c).
Proof. apply trim_from_last_firstn. Qed.

Lemma In_firstn {A : Type} (n : nat) (l : list A) (x : A) :
  In x (firstn n l) -> In x l.
Proof.
  revert l. induction n as [|n IH]; intros [|y l]; cbn [firstn In]; try tauto.
  intros [H|H]; [now left|right; now apply IH].
Qed.

(** An insertion brings no other key into the cache. *)
Lemma contains_insert_inv (k k' : string) (img : QImage) (c : QCache) :
  Cache.contains k' (Cache.insert k img c) = true ->
  k' = k \/ Cache.contains k' c = true.
Proof.
  intros H. apply contains_In in H. destruct H as (img' & Hin).
  unfold Cache.insert in Hin.
  destruct (mx (Cache.remove k c) <? 1).
  - cbn [Cache.remove entries] in Hin. apply In_unlink in Hin.
    right. apply contains_In. exists img'. tauto.
  - cbn [entries] in Hin. destruct Hin as [Heq|Hin].
    + injection Heq as -> _. now left.
    + rewrite entries_trim in Hin. apply In_firstn in Hin.
      cbn [Cache.remove entries] in Hin. apply In_unlink in Hin.
      right. apply contains_In. exists img'. tauto.
Qed.


Lemma mx_insert (k : string) (img : QImage) (c : QCache) :
  mx (Cache.insert k img c) = mx c.
Proof.
  unfold Cache.insert. cbn [Cache.remove mx].
  destruct (mx c <? 1); reflexivity.
Qed.

Lemma contains_setMaxCost_inv (k : string) (m : Z) (c : QCache) :
  Cache.contains k (Cache.setMaxCost m c) = true -> Cache.contains k c = true.
Proof.
  intros H. apply contains_In in H. destruct H as (img & Hin).
  unfold Cache.setMaxCost in Hin. rewrite entries_trim in Hin.
  apply In_firstn in Hin. apply contains_In. now exists img.
Qed.

(** ** The snapshot stage and the decoder *)

Lemma In_rows_between (first second r : Z) :
  In r (rows_between first second) <-> first <= r < second.
Proof.
  unfold rows_between. rewrite in_map_iff. split.
  - intros (k & <- & Hk). apply in_seq in Hk. lia.
  - intros H. exists (Z.to_nat (r - first)). split; [lia|].
    apply in_seq. lia.
Qed.

Section BuildTasks.

Variable rows : list string.

Lemma build_tasks_rows (visible : list Z) (c : QCache) :
  map row (snd (build_tasks rows visible c)) = visible.
Proof.
  revert c. induction visible as [|r rest IH]; intros c; [reflexivity|].
  cbn [build_tasks].
  destruct (Cache.take (model_data rows r) c) as [img c1].
  specialize (IH c1). destruct (build_tasks rows rest c1) as [c2 ts].
  cbn [snd map row] in *. now rewrite IH.
Qed.

Lemma build_tasks_keys (visible : list Z) (c : QCache) (t : ImageLoadingTask) :
  In t (snd (build_tasks rows visible c)) ->
  imageFileName t = model_data rows (row t).
Proof.
  revert c. induction visible as [|r rest IH]; intros c; [intros []|].
  cbn [build_tasks].
  destruct (Cache.take (model_data rows r) c) as [img c1].
  specialize (IH c1). destruct (build_tasks rows rest c1) as [c2 ts].
  cbn [snd In] in *. intros [<-|H]; [reflexivity|now apply IH].
Qed.

(** The loop only takes entries out. *)
Lemma build_tasks_lookup_inv (visible : list Z) (c : QCache) (k : string) (img : QImage) :
  Cache.lookup k (fst (build_tasks rows visible c)) = Some img ->
  Cache.lookup k c = Some img.
Proof.
  revert c. induction visible as [|r rest IH]; intros c; [tauto|].
  cbn [build_tasks].
  pose proof (take_spec (model_data rows r) c) as (_ & Habs & Hother & _).
  destruct (Cache.take (model_data rows r) c) as [img0 c1].
  specialize (IH c1). destruct (build_tasks rows rest c1) as [c2 ts].
  cbn [fst snd] in *. intros H. apply IH in H.
  destruct (String.eqb_spec k (model_data rows r)) as [->|Hne].
  - apply contains_lookup in Habs. congruence.
  - now rewrite <- Hother.
Qed.

Lemma build_tasks_absent (visible : list Z) (c : QCache) (r : Z) :
  In r visible ->
  Cache.contains (model_data rows r) (fst (build_tasks rows visible c)) = false.
Proof.
  revert c. induction visible as [|r0 rest IH]; intros c; [intros []|].
  cbn [build_tasks].
  pose proof (take_spec (model_data rows r0) c) as (_ & Habs & _).
  destruct (Cache.take (model_data rows r0) c) as [img0 c1].
  pose proof (build_tasks_lookup_inv rest c1 (model_data rows r)) as Hinv.
  specialize (IH c1). destruct (build_tasks rows rest c1) as [c2 ts].
  cbn [fst snd In] in *. intros [->|Hin]; [|now apply IH].
  apply contains_lookup.
  destruct (Cache.lookup (model_data rows r) c2) as [img|]; [|reflexivity].
  specialize (Hinv img eq_refl). apply contains_lookup in Habs. congruence.
Qed.

Lemma build_tasks_image_from_cache
  (visible : list Z) (c : QCache) (t : ImageLoadingTask) (img : QImage) :
  In t (snd (build_tasks rows visible c)) ->
  image t = Some img ->
  Cache.lookup (imageFileName t) c = Some img.
Proof.
  revert c. induction visible as [|r rest IH]; intros c; [intros []|].
  cbn [build_tasks].
  pose proof (take_spec (model_data rows r) c) as (Hfst & Habs & Hother & _).
  destruct (Cache.take (model_data rows r) c) as [img0 c1].
  specialize (IH c1). destruct (build_tasks rows rest c1) as [c2 ts].
  cbn [fst snd In] in *. intros [<-|Hin] Himg.
  - cbn [image imageFileName] in *. congruence.
  - specialize (IH Hin Himg).
    destruct (String.eqb_spec (imageFileName t) (model_data rows r)) as [E|Hne].
    + rewrite E in IH. apply contains_lookup in Habs. congruence.
    + now rewrite <- Hother.
Qed.

Lemma build_tasks_takes_cached
  (visible : list Z) (c : QCache) (r : Z) (img : QImage) :
  In r visible ->
  Cache.lookup (model_data rows r) c = Some img ->
  exists t, In t (snd (build_tasks rows visible c)) /\
            imageFileName t = model_data rows r /\ image t = Some img.
Proof.
  revert c. induction visible as [|r0 rest IH]; intros c; [intros []|].
  cbn [build_tasks].
  pose proof (take_spec (model_data rows r0) c) as (Hfst & _ & Hother & _).
  destruct (Cache.take (model_data rows r0) c) as [img0 c1].
  specialize (IH c1). destruct (build_tasks rows rest c1) as [c2 ts].
  cbn [fst snd In] in *. intros Hin Hl.
  destruct (String.eqb_spec (model_data rows r) (model_data rows r0)) as [E|Hne].
  - exists (mkTask r0 (model_data rows r0) img0). split; [now left|].
    cbn [imageFileName image]. split; [now rewrite E|]. congruence.
  - destruct Hin as [->|Hin]; [congruence|].
    rewrite <- (Hother _ Hne) in Hl.
    destruct (IH Hin Hl) as (t & Ht & Hk & Hi).
    exists t. split; [now right|]. now split.
Qed.

End BuildTasks.

(** A present, non-empty image is kept as it is; anything else is loaded
    from the file. *)
Lemma decode_spec (fs : Loader) (t : ImageLoadingTask) :
  (needs_load t = false <->
     exists img, image t = Some img /\ image_isNull img = false) /\
  (needs_load t = false -> decode fs t = t) /\
  (needs_load t = true ->
     decode fs t = mkTask (row t) (imageFileName t)
                          (Some (image_load fs (imageFileName t)))).
Proof.
  destruct t as [r k [[|d]|]]; unfold needs_load, decode;
    cbn [image image_isNull row imageFileName].
  - split; [|split]; [|discriminate|reflexivity].
    split; [discriminate|]. intros (img & H & Hn). injection H as <-. discriminate.
  - split; [|split]; [|reflexivity|discriminate].
    split; [|reflexivity]. intros _. now exists (Pixels d).
  - split; [|split]; [|discriminate|reflexivity].
    split; [discriminate|]. intros (img & H & _). discriminate.
Qed.

(** ** Failed decodes *)




(** ** Applying a batch *)

Lemma span_exact (lo hi : Z) :
  - 2 ^ 30 < lo -> lo - 1 <= hi -> hi < 2 ^ 30 -> Rect.span lo hi = (lo, hi).
Proof.
  intros H1 H2 H3. unfold Rect.span.
  assert (E : Int32.add (Int32.sub hi lo) 1 = hi - lo + 1) by (int_exact; lia).
  rewrite E. destruct (Z.ltb_spec (hi - lo + 1) 0); [lia|reflexivity].
Qed.

Lemma covers_refl (r : QRect) : Rect.covers r r.
Proof. unfold Rect.covers. lia. Qed.

Lemma covers_trans (a b c : QRect) :
  Rect.covers a b -> Rect.covers b c -> Rect.covers a c.
Proof. unfold Rect.covers. lia. Qed.

(** The union of two bounded rectangles is bounded and covers each of
    them that is not null. *)
Lemma united_bounded (a b : QRect) :
  bounded a -> bounded b ->
  bounded (Rect.united a b) /\
  (Rect.isNull a = false -> Rect.covers (Rect.united a b) a) /\
  (Rect.isNull b = false -> Rect.covers (Rect.united a b) b).
Proof.
  intros Ha Hb. unfold Rect.united.
  destruct (Rect.isNull a) eqn:Na.
  { split; [exact Hb|]. split; [discriminate|]. intros _. apply covers_refl. }
  destruct (Rect.isNull b) eqn:Nb.
  { split; [exact Ha|]. split; [|discriminate]. intros _. apply covers_refl. }
  destruct Ha as (A1 & A2 & A3 & A4 & A5 & A6).
  destruct Hb as (B1 & B2 & B3 & B4 & B5 & B6).
  rewrite !span_exact by assumption.
  rewrite !qMin_spec, !qMax_spec.
  unfold bounded, Rect.covers. cbn [x1 x2 y1 y2].
  repeat split; lia.
Qed.

Lemma fold_united_covers (rects : list QRect) (acc : QRect) :
  bounded acc -> Forall bounded rects ->
  bounded (fold_left Rect.united rects acc) /\
  (Rect.isNull acc = false -> Rect.covers (fold_left Rect.united rects acc) acc) /\
  (forall r, In r rects -> Rect.isNull r = false ->
             Rect.covers (fold_left Rect.united rects acc) r).
Proof.
  revert acc. induction rects as [|r0 rects IH]; intros acc Hacc Hall.
  - cbn [fold_left]. split; [exact Hacc|].
    split; [intros _; apply covers_refl|intros r []].
  - apply Forall_cons_iff in Hall. destruct Hall as [H0 Hall].
    destruct (united_bounded acc r0 Hacc H0) as (Hu & Hca & Hcr).
    destruct (IH (Rect.united acc r0) Hu Hall) as (Hb & Hcu & Hrest).
    cbn [fold_left]. split; [exact Hb|].
    assert (Hnn : Rect.isNull acc = false \/ Rect.isNull r0 = false ->
                  Rect.isNull (Rect.united acc r0) = false).
    { unfold Rect.united.
      destruct (Rect.isNull acc) eqn:Na; [intros [?|?]; [discriminate|assumption]|].
      destruct (Rect.isNull r0) eqn:Nr; [intros _; exact Na|].
      intros _.
      destruct Hacc as (A1 & A2 & A3 & A4 & A5 & A6).
      destruct H0 as (B1 & B2 & B3 & B4 & B5 & B6).
      rewrite !span_exact by assumption.
      rewrite !qMin_spec, !qMax_spec.
      unfold Rect.isNull in *. cbn [x1 x2 y1 y2].
      assert (E1 : Int32.sub (x1 acc) 1 = x1 acc - 1) by (int_exact; lia).
      assert (E2 : Int32.sub (y1 acc) 1 = y1 acc - 1) by (int_exact; lia).
      assert (E3 : Int32.sub (Z.min (x1 acc) (x1 r0)) 1 = Z.min (x1 acc) (x1 r0) - 1)
        by (int_exact; lia).
      assert (E4 : Int32.sub (Z.min (y1 acc) (y1 r0)) 1 = Z.min (y1 acc) (y1 r0) - 1)
        by (int_exact; lia).
      rewrite E1, E2 in Na. rewrite E3, E4.
      apply andb_false_iff in Na. apply andb_false_iff.
      destruct Na as [Na|Na]; [left|right];
        apply Z.eqb_neq in Na; apply Z.eqb_neq; lia. }
    split.
    + intros Na. apply covers_trans with (Rect.united acc r0);
        [apply Hcu; apply Hnn; now left|now apply Hca].
    + intros r [<-|Hin] Hr.
      * apply covers_trans with (Rect.united acc r0);
          [apply Hcu; apply Hnn; now right|now apply Hcr].
      * now apply Hrest.
Qed.

Lemma visualRect_some (v : ImageListView) (index : option Z) :
  1 <= m_columnCount v -> exists rect, visualRect v index = Some rect.
Proof.
  intros Hcc. destruct index as [i|]; [|now exists Rect.null].
  unfold visualRect.
  rewrite !div_pos_divisor, rem_pos_divisor by lia. cbn [bind].
  eexists; reflexivity.
Qed.

Lemma apply_items_spec (v : ImageListView) (rows : list string)
      (items : list ImageLoadingTask) (c : QCache) (acc : QRect) :
  1 <= m_columnCount v ->
  apply_items v rows items c acc =
    Some (insert_all items c, fold_left Rect.united (tile_rects v rows items) acc).
Proof.
  intros Hcc. revert c acc.
  induction items as [|item items IH]; intros c acc; [reflexivity|].
  cbn [apply_items tile_rects map insert_all fold_left].
  destruct (visualRect_some v (model_index rows (row item)) Hcc) as [rect E].
  rewrite E. cbn [bind]. apply IH.
Qed.

Lemma has_key_app (k : string) (l1 l2 : list ImageLoadingTask) :
  has_key k (l1 ++ l2) = has_key k l1 || has_key k l2.
Proof. apply existsb_app. Qed.

(** ** What the cache holds after a batch *)

Lemma mx_insert_all (items : list ImageLoadingTask) (c : QCache) :
  mx (insert_all items c) = mx c.
Proof.
  revert c. induction items as [|item items IH]; intros c; [reflexivity|].
  cbn [insert_all fold_left]. fold (insert_all items).
  now rewrite IH, mx_insert.
Qed.

Lemma insert_all_snoc (items : list ImageLoadingTask) (x : ImageLoadingTask) (c : QCache) :
  insert_all (items ++ [x]) c
  = Cache.insert (imageFileName x) (released x) (insert_all items c).
Proof. unfold insert_all. now rewrite fold_left_app. Qed.

Lemma entries_insert (k : string) (img : QImage) (c : QCache) :
  1 <= mx c <= Int32.INT_MAX ->
  entries (Cache.insert k img c)
  = (k, img) :: firstn (Z.to_nat (mx c - 1)) (Cache.unlink k (entries c)).
Proof.
  intros Hmx. unfold Cache.insert. cbn [Cache.remove mx].
  destruct (Z.ltb_spec (mx c) 1); [lia|].
  cbn [entries]. rewrite entries_trim. cbn [entries].
  assert (E : Int32.sub (mx c) 1 = mx c - 1) by (int_exact; lia).
  now rewrite E.
Qed.

Lemma lookup_app (k : string) (m : Z) (front back : list (string * QImage)) :
  Cache.lookup k (mkCache m (front ++ back))
  = match Cache.lookup k (mkCache m front) with
    | Some img => Some img
    | None => Cache.lookup k (mkCache m back)
    end.
Proof.
  unfold Cache.lookup. cbn [entries].
  induction front as [|[k0 img0] front IH]; [reflexivity|].
  cbn [app find fst snd]. destruct (String.eqb k0 k); [reflexivity|exact IH].
Qed.

Lemma latest_image_snoc (k : string) (items : list ImageLoadingTask) (x : ImageLoadingTask) :
  latest_image k (items ++ [x])
  = if String.eqb (imageFileName x) k then Some (released x)
    else latest_image k items.
Proof.
  unfold latest_image. rewrite rev_app_distr. cbn [rev app find].
  destruct (String.eqb (imageFileName x) k); reflexivity.
Qed.

Lemma latest_image_some (k : string) (items : list ImageLoadingTask) :
  has_key k items = true ->
  exists item, In item items /\ imageFileName item = k /\
               latest_image k items = Some (released item).
Proof.
  intros H. unfold latest_image.
  destruct (find _ (rev items)) as [item|] eqn:E.
  - apply find_some in E. destruct E as [Hin Heq].
    exists item. rewrite <- in_rev in Hin. apply String.eqb_eq in Heq. now repeat split.
  - unfold has_key in H. apply existsb_exists in H. destruct H as (item & Hin & Heq).
    assert (Hin' : In item (rev items)) by now rewrite <- in_rev.
    pose proof (find_none _ _ E item Hin') as Hf. cbn beta in Hf. congruence.
Qed.

(** As long as the batch is no longer than the capacity, its entries stay
    in front of the older ones and none of them is trimmed. *)
Lemma insert_all_front (items : list ImageLoadingTask) (c : QCache) :
  Z.of_nat (List.length items) <= mx c <= Int32.INT_MAX ->
  exists front back,
    entries (insert_all items c) = front ++ back /\
    (List.length front <= List.length items)%nat /\
    (forall k, has_key k items = true ->
               Cache.lookup k (mkCache (mx c) front) = latest_image k items).
Proof.
  induction items as [|x items IH] using rev_ind; intros Hmx.
  - exists [], (entries c). split; [reflexivity|]. split; [reflexivity|].
    intros k H. discriminate.
  - rewrite length_app in Hmx. cbn [List.length] in Hmx.
    destruct IH as (front & back & He & Hlen & Hl); [lia|].
    rewrite insert_all_snoc.
    rewrite entries_insert by (rewrite mx_insert_all; lia).
    rewrite mx_insert_all, He.
    unfold Cache.unlink at 1. rewrite filter_app.
    fold (Cache.unlink (imageFileName x) front).
    fold (Cache.unlink (imageFileName x) back).
    assert (Hf : (List.length (Cache.unlink (imageFileName x) front)
                  <= List.length front)%nat) by apply filter_length_le.
    rewrite firstn_app.
    rewrite (firstn_all2 (Cache.unlink (imageFileName x) front)) by lia.
    exists ((imageFileName x, released x) :: Cache.unlink (imageFileName x) front).
    eexists. split; [reflexivity|]. split.
    + rewrite length_app. cbn [List.length]. lia.
    + intros k Hk. rewrite latest_image_snoc.
      unfold Cache.lookup at 1. cbn [entries find fst snd].
      destruct (String.eqb_spec (imageFileName x) k) as [E|Hne]; [reflexivity|].
      change (Cache.lookup k (mkCache (mx c) (Cache.unlink (imageFileName x) front))
              = latest_image k items).
      rewrite (lookup_unlink_other (imageFileName x) k front (mx c) (mx c))
        by congruence.
      apply Hl. rewrite has_key_app in Hk. cbn [has_key existsb] in Hk.
      destruct (String.eqb_spec (imageFileName x) k); [congruence|].
      now rewrite !orb_false_r in Hk.
Qed.

(** With room for the whole batch, the cache afterwards holds, under every
    file name of the batch, the image of the last task carrying it. *)
Lemma insert_all_lookup (items : list ImageLoadingTask) (c : QCache) (k : string) :
  Z.of_nat (List.length items) <= mx c <= Int32.INT_MAX ->
  has_key k items = true ->
  Cache.lookup k (insert_all items c) = latest_image k items.
Proof.
  intros Hmx Hk.
  destruct (insert_all_front items c Hmx) as (front & back & He & _ & Hl).
  specialize (Hl k Hk).
  destruct (latest_image_some k items Hk) as (item & _ & _ & Hsome).
  change (Cache.lookup k (insert_all items c))
    with (Cache.lookup k (mkCache (mx c) (entries (insert_all items c)))).
  rewrite He, lookup_app, Hl, Hsome. reflexivity.
Qed.

Lemma bounded_null : bounded Rect.null.
Proof. unfold bounded, Rect.null. cbn [x1 x2 y1 y2]. lia. Qed.

(** The image of the last task of a batch that carries a file name. *)
Lemma latest_image_last (before after : list ImageLoadingTask)
      (item : ImageLoadingTask) :
  (forall t, In t after -> imageFileName t <> imageFileName item) ->
  latest_image (imageFileName item) (before ++ item :: after)
  = Some (released item).
Proof.
  induction after as [|x after IH] using rev_ind; intros Hafter.
  - rewrite latest_image_snoc, String.eqb_refl. reflexivity.
  - replace (before ++ item :: after ++ [x])
      with ((before ++ item :: after) ++ [x])
      by (rewrite <- app_assoc; reflexivity).
    rewrite latest_image_snoc.
    destruct (String.eqb_spec (imageFileName x) (imageFileName item)) as [E|_].
    + exfalso. apply (Hafter x); [apply in_or_app; right; now left|exact E].
    + apply IH. intros t Ht. apply Hafter. apply in_or_app. now left.
Qed.

(** [united] of two bounded rectangles is null only when both are. *)
Lemma united_isNull (a b : QRect) :
  bounded a -> bounded b ->
  Rect.isNull (Rect.united a b) = Rect.isNull a && Rect.isNull b.
Proof.
  intros Ha Hb. unfold Rect.united.
  destruct (Rect.isNull a) eqn:Na; [reflexivity|].
  destruct (Rect.isNull b) eqn:Nb; [exact Na|].
  destruct Ha as (A1 & A2 & A3 & A4 & A5 & A6).
  destruct Hb as (B1 & B2 & B3 & B4 & B5 & B6).
  rewrite !span_exact by assumption.
  rewrite !qMin_spec, !qMax_spec.
  unfold Rect.isNull in *. cbn [x1 x2 y1 y2 andb].
  assert (E1 : Int32.sub (x1 a) 1 = x1 a - 1) by (int_exact; lia).
  assert (E2 : Int32.sub (y1 a) 1 = y1 a - 1) by (int_exact; lia).
  assert (E3 : Int32.sub (Z.min (x1 a) (x1 b)) 1 = Z.min (x1 a) (x1 b) - 1)
    by (int_exact; lia).
  assert (E4 : Int32.sub (Z.min (y1 a) (y1 b)) 1 = Z.min (y1 a) (y1 b) - 1)
    by (int_exact; lia).
  rewrite E1, E2 in Na. rewrite E3, E4.
  apply andb_false_iff in Na. apply andb_false_iff.
  destruct Na as [Na|Na]; [left|right];
    apply Z.eqb_neq in Na; apply Z.eqb_neq; lia.
Qed.

(** A rectangle that covers two bounded rectangles covers their union. *)
Lemma united_least (a b outer : QRect) :
  bounded a -> bounded b ->
  (Rect.isNull a = false -> Rect.covers outer a) ->
  (Rect.isNull b = false -> Rect.covers outer b) ->
  Rect.isNull (Rect.united a b) = false ->
  Rect.covers outer (Rect.united a b).
Proof.
  intros Ha Hb Hca Hcb. rewrite (united_isNull a b Ha Hb). unfold Rect.united.
  destruct (Rect.isNull a) eqn:Na; [cbn [andb]; exact Hcb|].
  destruct (Rect.isNull b) eqn:Nb; [intros _; now apply Hca|].
  intros _. specialize (Hca eq_refl). specialize (Hcb eq_refl).
  destruct Ha as (A1 & A2 & A3 & A4 & A5 & A6).
  destruct Hb as (B1 & B2 & B3 & B4 & B5 & B6).
  rewrite !span_exact by assumption.
  rewrite !qMin_spec, !qMax_spec.
  unfold Rect.covers in *. cbn [x1 x2 y1 y2]. lia.
Qed.

(** The rectangle the loop of the subscriber accumulates is the least one
    that covers the rectangles that are not null, and is null when all of
    them are. *)
Lemma fold_united_least (rects : list QRect) (acc outer : QRect) :
  bounded acc -> Forall bounded rects ->
  (Rect.isNull acc = false -> Rect.covers outer acc) ->
  (forall r, In r rects -> Rect.isNull r = false -> Rect.covers outer r) ->
  (Rect.isNull (fold_left Rect.united rects acc) = false ->
   Rect.covers outer (fold_left Rect.united rects acc)) /\
  (Rect.isNull acc = true ->
   (forall r, In r rects -> Rect.isNull r = true) ->
   Rect.isNull (fold_left Rect.united rects acc) = true) /\
  ((Rect.isNull acc = false \/ exists r, In r rects /\ Rect.isNull r = false) ->
   Rect.isNull (fold_left Rect.united rects acc) = false).
Proof.
  revert acc. induction rects as [|r0 rects IH]; intros acc Hacc Hall Hca Hcr.
  - cbn [fold_left]. split; [exact Hca|]. split; [tauto|].
    intros [H|(r & [] & _)]. exact H.
  - apply Forall_cons_iff in Hall. destruct Hall as [H0 Hall].
    destruct (united_bounded acc r0 Hacc H0) as (Hu & _ & _).
    pose proof (united_isNull acc r0 Hacc H0) as Hn.
    cbn [fold_left].
    destruct (IH (Rect.united acc r0) Hu Hall) as (Hleast & Hnull & Hnn).
    + apply united_least; try assumption. apply Hcr. now left.
    + intros r Hr. apply Hcr. now right.
    + split; [exact Hleast|]. split.
      * intros Ha Hr. apply Hnull.
        -- rewrite Hn, Ha. cbn [andb]. apply Hr. now left.
        -- intros r Hin. apply Hr. now right.
      * intros H. apply Hnn.
        destruct H as [H|(r & [<-|Hin] & Hr)].
        -- left. rewrite Hn, H. reflexivity.
        -- left. rewrite Hn, Hr. apply andb_false_r.
        -- right. now exists r.
Qed.

(** C7: with a model and at least one column, applying a batch changes
    the cache and nothing else of the view, and makes at most one [update]
    call: one call with the damage rectangle if the damage rectangle
    intersects the viewport rectangle, and none otherwise.  With room for
    the whole batch, the cache afterwards holds under the file name of a
    task the image that task carries, for every task that is the last of
    the batch with its file name.  When the tile rectangles of the tasks
    are bounded, the damage rectangle is their union: it covers the tile
    rectangle of every task that is not null, every rectangle that covers
    those covers it, and it is null when there is none. *)
Theorem apply_batch_spec
  (v : ImageListView) (rows : list string) (items : list ImageLoadingTask) :
  model v = Some rows ->
  1 <= m_columnCount v ->
  exists v' damage,
    apply_batch v items
      = Some (v', if Rect.intersects (viewport_rect v) damage
                  then [damage] else []) /\
    v' = set_imageCache (m_imageCache v') v /\
    mx (m_imageCache v') = mx (m_imageCache v) /\
    (Z.of_nat (List.length items) <= mx (m_imageCache v) <= Int32.INT_MAX ->
     forall before item after img,
       items = before ++ item :: after ->
       (forall t, In t after -> imageFileName t <> imageFileName item) ->
       image item = Some img ->
       Cache.lookup (imageFileName item) (m_imageCache v') = Some img) /\
    ((forall item rect,
        In item items ->
        visualRect v (model_index rows (row item)) = Some rect ->
        bounded rect) ->
     (forall item rect,
        In item items ->
        visualRect v (model_index rows (row item)) = Some rect ->
        Rect.isNull rect = false ->
        Rect.covers damage rect) /\
     (forall outer,
        (forall item rect,
           In item items ->
           visualRect v (model_index rows (row item)) = Some rect ->
           Rect.isNull rect = false ->
           Rect.covers outer rect) ->
        (exists item rect,
           In item items /\
           visualRect v (model_index rows (row item)) = Some rect /\
           Rect.isNull rect = false) ->
        Rect.covers outer damage) /\
     ((forall item rect,
         In item items ->
         visualRect v (model_index rows (row item)) = Some rect ->
         Rect.isNull rect = true) ->
      Rect.isNull damage = true)).
Proof.
  intros Hm Hcc.
  exists (set_imageCache (insert_all items (m_imageCache v)) v).
  exists (fold_left Rect.united (tile_rects v rows items) Rect.null).
  split.
  { unfold apply_batch. rewrite Hm. cbn [bind].
    rewrite (apply_items_spec v rows items _ _ Hcc). cbn [bind].
    destruct (Rect.intersects _ _); reflexivity. }
  split; [reflexivity|].
  split; [apply mx_insert_all|].
  split.
  { intros Hmx before item after img Hitems Hafter Himg.
    cbn [set_imageCache m_imageCache].
    rewrite insert_all_lookup; [|exact Hmx|].
    - rewrite Hitems, (latest_image_last before after item Hafter).
      unfold released. now rewrite Himg.
    - unfold has_key. apply existsb_exists. exists item. split.
      + rewrite Hitems. apply in_or_app. right. now left.
      + apply String.eqb_refl. }
  intros Hbounded.
  assert (Htile : forall r, In r (tile_rects v rows items) ->
            exists item, In item items /\
                         visualRect v (model_index rows (row item)) = Some r).
  { intros r Hr. unfold tile_rects in Hr. apply in_map_iff in Hr.
    destruct Hr as (item & Hr & Hin). exists item. split; [exact Hin|].
    destruct (visualRect_some v (model_index rows (row item)) Hcc) as [rect E].
    rewrite E in Hr. now subst r. }
  assert (Hin_tile : forall item rect, In item items ->
            visualRect v (model_index rows (row item)) = Some rect ->
            In rect (tile_rects v rows items)).
  { intros item rect Hin E. unfold tile_rects. apply in_map_iff.
    exists item. now rewrite E. }
  assert (Hall : Forall bounded (tile_rects v rows items)).
  { apply Forall_forall. intros r Hr.
    destruct (Htile r Hr) as (item & Hin & E). exact (Hbounded item r Hin E). }
  split; [|split].
  - intros item rect Hin Hrect Hnn.
    destruct (fold_united_covers (tile_rects v rows items) Rect.null
                bounded_null Hall) as (_ & _ & Hcov).
    apply Hcov; [|exact Hnn]. exact (Hin_tile item rect Hin Hrect).
  - intros outer Houter (item & rect & Hin & Hrect & Hnn).
    destruct (fold_united_least (tile_rects v rows items) Rect.null outer
                bounded_null Hall) as (Hleast & _ & Hsome).
    + discriminate.
    + intros r Hr Hrn. destruct (Htile r Hr) as (item' & Hin' & E).
      exact (Houter item' r Hin' E Hrn).
    + apply Hleast. apply Hsome. right. exists rect.
      split; [exact (Hin_tile item rect Hin Hrect)|exact Hnn].
  - intros Hnull.
    destruct (fold_united_least (tile_rects v rows items) Rect.null Rect.null
                bounded_null Hall) as (_ & Hn & _).
    + discriminate.
    + intros r Hr Hrn. destruct (Htile r Hr) as (item' & Hin' & E).
      rewrite (Hnull item' r Hin' E) in Hrn. discriminate.
    + apply Hn; [reflexivity|].
      intros r Hr. destruct (Htile r Hr) as (item' & Hin' & E).
      exact (Hnull item' r Hin' E).
Qed.

(** C7, witness: the tiles 2, 3 and 7 of twelve images in five columns
    complete in one buffer. *)
Lemma apply_batch_spec_witness :
  exists v' damage,
    apply_batch twelve_in_five batch_2_3_7
      = Some (v', if Rect.intersects (viewport_rect twelve_in_five) damage
                  then [damage] else []) /\
    v' = set_imageCache (m_imageCache v') twelve_in_five /\
    mx (m_imageCache v') = mx (m_imageCache twelve_in_five) /\
    (Z.of_nat (List.length batch_2_3_7) <= mx (m_imageCache twelve_in_five)
       <= Int32.INT_MAX ->
     forall before item after img,
       batch_2_3_7 = before ++ item :: after ->
       (forall t, In t after -> imageFileName t <> imageFileName item) ->
       image item = Some img ->
       Cache.lookup (imageFileName item) (m_imageCache v') = Some img) /\
    ((forall item rect,
        In item batch_2_3_7 ->
        visualRect twelve_in_five (model_index twelve_rows (row item)) = Some rect ->
        bounded rect) ->
     (forall item rect,
        In item batch_2_3_7 ->
        visualRect twelve_in_five (model_index twelve_rows (row item)) = Some rect ->
        Rect.isNull rect = false ->
        Rect.covers damage rect) /\
     (forall outer,
        (forall item rect,
           In item batch_2_3_7 ->
           visualRect twelve_in_five (model_index twelve_rows (row item))
             = Some rect ->
           Rect.isNull rect = false ->
           Rect.covers outer rect) ->
        (exists item rect,
           In item batch_2_3_7 /\
           visualRect twelve_in_five (model_index twelve_rows (row item))
             = Some rect /\
           Rect.isNull rect = false) ->
        Rect.covers outer damage) /\
     ((forall item rect,
         In item batch_2_3_7 ->
         visualRect twelve_in_five (model_index twelve_rows (row item))
           = Some rect ->
         Rect.isNull rect = true) ->
      Rect.isNull damage = true)).
Proof.
  apply (apply_batch_spec twelve_in_five twelve_rows batch_2_3_7);
    [reflexivity | cbn; lia].
Defined.

(** The batch of the tiles 2, 3 and 7 makes one [update] call, with the
    rectangle from the top-left corner of tile 2 to the bottom-right
    corner of tile 7, which also spans tile 3; the three images are in the
    cache afterwards. *)
Example apply_batch_2_3_7 :
  exists v',
    Forall bounded (tile_rects twelve_in_five twelve_rows batch_2_3_7) /\
    apply_batch twelve_in_five batch_2_3_7
      = Some (v', [mkCorners 200 0 399 199]) /\
    map fst (entries (m_imageCache v')) = ["h"; "d"; "c"]%string /\
    visualRect twelve_in_five (Some 2) = Some (mkCorners 200 0 299 99) /\
    visualRect twelve_in_five (Some 3) = Some (mkCorners 300 0 399 99) /\
    visualRect twelve_in_five (Some 7) = Some (mkCorners 200 100 299 199).
Proof.
  eexists. split.
  { repeat constructor; vm_compute; intuition discriminate. }
  split; [vm_compute; reflexivity|]. repeat split.
Qed.


(** ** Superseded generations *)


Lemma imageFileName_decode (fs : Loader) (item : ImageLoadingTask) :
  imageFileName (decode fs item) = imageFileName item.
Proof. reflexivity. Qed.

(** Inserting tasks that do not carry [k] does not bring [k] into the
    cache. *)
Lemma contains_insert_all (k : string) (items : list ImageLoadingTask) (c : QCache) :
  has_key k items = false ->
  Cache.contains k c = false ->
  Cache.contains k (insert_all items c) = false.
Proof.
  revert c. induction items as [|item items IH]; intros c Hk Hc; [exact Hc|].
  cbn [has_key existsb] in Hk. apply orb_false_iff in Hk. destruct Hk as [Hne Hk].
  cbn [insert_all fold_left]. apply IH; [exact Hk|].
  destruct (Cache.contains k (Cache.insert _ _ c)) eqn:E; [|reflexivity].
  apply contains_insert_inv in E. destruct E as [->|E]; [|congruence].
  rewrite String.eqb_refl in Hne. discriminate.
Qed.

Lemma apply_items_cache (v : ImageListView) (rows : list string)
      (items : list ImageLoadingTask) (c c' : QCache) (acc damage : QRect) :
  apply_items v rows items c acc = Some (c', damage) -> c' = insert_all items c.
Proof.
  revert c acc. induction items as [|item items IH]; intros c acc H.
  - cbn [apply_items] in H. now injection H as <- _.
  - cbn [apply_items] in H.
    destruct (visualRect v (model_index rows (row item))) as [rect|]; [|discriminate].
    cbn [bind] in H. apply IH in H. exact H.
Qed.

Lemma apply_batch_cache (v v' : ImageListView) (items : list ImageLoadingTask)
      (calls : list QRect) :
  apply_batch v items = Some (v', calls) ->
  m_imageCache v' = insert_all items (m_imageCache v).
Proof.
  unfold apply_batch. destruct (model v) as [rows|]; [|discriminate].
  cbn [bind].
  destruct (apply_items v rows items (m_imageCache v) Rect.null) as [[c d]|] eqn:E;
    [|discriminate].
  cbn [bind]. apply apply_items_cache in E. subst c.
  destruct (Rect.intersects _ _); intros H; now injection H as <- _.
Qed.

(** Laying the view out only changes the capacity of the cache. *)
Lemma updateGeometries_cache (v v' : ImageListView) :
  updateGeometries v = Some v' ->
  exists m, m_imageCache v' = Cache.setMaxCost m (m_imageCache v).
Proof.
  unfold updateGeometries. destruct (model v) as [rows|]; [|discriminate].
  cbn [bind].
  destruct (Int32.div (rowCount rows) (m_columnCount v)) as [q|]; [|discriminate].
  destruct (Int32.rem (rowCount rows) (m_columnCount v)) as [m|]; [|discriminate].
  cbn [bind]. intros H. eexists.
  destruct (Int32.div _ (m_columnCount v)) as [tw|]; [|discriminate].
  cbn [bind] in H.
  match type of H with (if ?b then _ else _) = _ => destruct b end.
  - destruct (Int32.div _ (m_columnCount v)) as [tw2|]; [|discriminate].
    cbn [bind] in H.
    destruct (Int32.div (viewport_height v) _) as [pages|]; [|discriminate].
    cbn [bind] in H.
    destruct (Int32.div _ 2) as [ss|]; [|discriminate].
    cbn [bind] in H. injection H as <-.
    cbn [m_imageCache set_verticalScrollBar].
    rewrite imageCache_apply_setRange. reflexivity.
  - injection H as <-. rewrite imageCache_apply_setRange. reflexivity.
Qed.

Lemma imageCache_scrollBarSetValue (value : Z) (v : ImageListView) :
  m_imageCache (scrollBarSetValue value v) = m_imageCache v.
Proof.
  unfold scrollBarSetValue.
  destruct (ScrollBar.setValue value (verticalScrollBar v)) as [sb [|]]; reflexivity.
Qed.

(** A completion of a generation [switch_on_next] does not forward leaves
    the view, the buffers and the [update] calls as they are. *)
Lemma stale_completion_frame (g : nat) (s : Pipeline) :
  view (stale_completion g s) = view s /\
  generation (stale_completion g s) = generation s /\
  to_switch (stale_completion g s) = to_switch s /\
  current (stale_completion g s) = current s /\
  buffer (stale_completion g s) = buffer s /\
  to_ui (stale_completion g s) = to_ui s /\
  updates (stale_completion g s) = updates s.
Proof.
  unfold stale_completion.
  destruct (finish_orphan g (orphans s)) as [[item rest]|]; repeat split.
Qed.

Lemma step_stale (fs : Loader) (g : nat) (s : Pipeline) :
  forwarded_generation s <> Some g ->
  step fs (DecodeDone g) s = Some (stale_completion g s).
Proof.
  unfold forwarded_generation. cbn [step].
  destruct (current s) as [[g0 [|item rest]]|]; try reflexivity.
  intros H. destruct (Nat.eqb_spec g0 g) as [->|Hne]; [congruence|reflexivity].
Qed.

Lemma awaited_false (k : string) (s : Pipeline) :
  awaited k s = false <->
  has_key k (buffer s) = false /\
  existsb (has_key k) (to_ui s) = false /\
  match current s with
  | Some (_, items) => has_key k items
  | None => false
  end = false /\
  existsb (fun batch => has_key k (snd batch)) (to_switch s) = false.
Proof.
  unfold awaited. rewrite !orb_false_iff. tauto.
Qed.

(** Without a new snapshot, an absent file name stays absent. *)
Lemma step_keeps_absent (fs : Loader) (k : string) (e : Event) (s s' : Pipeline) :
  is_snapshot e = false ->
  step fs e s = Some s' ->
  absent k s -> absent k s'.
Proof.
  intros He Hstep [Hc Ha]. apply awaited_false in Ha.
  destruct Ha as (Hb & Hu & Hcur & Hq).
  unfold absent. rewrite awaited_false.
  destruct e; try discriminate He; cbn [step] in Hstep.
  - injection Hstep as <-. cbn [view set_view buffer to_ui current to_switch].
    rewrite imageCache_scrollBarSetValue. tauto.
  - destruct (resizeEvent w h (view s)) as [v'|] eqn:E; [|discriminate].
    cbn [bind] in Hstep. injection Hstep as <-.
    cbn [view set_view buffer to_ui current to_switch].
    unfold resizeEvent in E.
    destruct (updateGeometries (set_viewport w h (view s))) as [v1|] eqn:E1;
      [|discriminate].
    cbn [bind] in E. injection E as <-.
    apply updateGeometries_cache in E1. destruct E1 as [m E1].
    cbn [emitLoadEvent set_loadEventStream m_imageCache]. rewrite E1.
    cbn [set_viewport m_imageCache].
    split; [|tauto].
    destruct (Cache.contains k (Cache.setMaxCost m _)) eqn:Ec; [|reflexivity].
    apply contains_setMaxCost_inv in Ec. congruence.
  - injection Hstep as <-. cbn [view set_view buffer to_ui current to_switch].
    split; [reflexivity|tauto].
  - destruct (to_switch s) as [|[g ts] queued] eqn:Eq;
      [injection Hstep as <-; rewrite Eq; tauto|].
    injection Hstep as <-. cbn [view buffer to_ui current to_switch].
    cbn [existsb snd] in Hq. apply orb_false_iff in Hq. tauto.
  - destruct (current s) as [[g0 [|item rest]]|] eqn:Ecur.
    + injection Hstep as <-.
      destruct (stale_completion_frame g s) as (-> & _ & -> & -> & -> & -> & _).
      rewrite Ecur. tauto.
    + destruct (Nat.eqb g0 g).
      * injection Hstep as <-. cbn [view buffer to_ui current to_switch].
        cbn [has_key existsb] in Hcur. apply orb_false_iff in Hcur.
        destruct Hcur as [Hitem Hrest].
        rewrite has_key_app, Hb. cbn [has_key existsb orb].
        rewrite imageFileName_decode, Hitem. tauto.
      * injection Hstep as <-.
        destruct (stale_completion_frame g s) as (-> & _ & -> & -> & -> & -> & _).
        rewrite Ecur. tauto.
    + injection Hstep as <-.
      destruct (stale_completion_frame g s) as (-> & _ & -> & -> & -> & -> & _).
      rewrite Ecur. tauto.
  - destruct (buffer s) as [|item items] eqn:Eb; [injection Hstep as <-|].
    + rewrite Eb. tauto.
    + injection Hstep as <-. cbn [view buffer to_ui current to_switch].
      rewrite existsb_app. cbn [existsb]. rewrite Hu, Hb. tauto.
  - destruct (to_ui s) as [|items queued] eqn:Eu; [injection Hstep as <-|].
    + rewrite Eu. tauto.
    + destruct (apply_batch (view s) items) as [[v' calls]|] eqn:E; [|discriminate].
      cbn [bind] in Hstep. injection Hstep as <-.
      cbn [view buffer to_ui current to_switch].
      cbn [existsb] in Hu. apply orb_false_iff in Hu. destruct Hu as [Hitems Hrest].
      apply apply_batch_cache in E. rewrite E.
      split; [now apply contains_insert_all|tauto].
Qed.

Lemma run_keeps_absent (fs : Loader) (k : string) (es : list Event) (s s' : Pipeline) :
  no_snapshot es = true ->
  run fs es s = Some s' ->
  absent k s -> absent k s'.
Proof.
  revert s. induction es as [|e es IH]; intros s Hes Hrun Habs.
  - cbn [run] in Hrun. now injection Hrun as <-.
  - cbn [no_snapshot forallb] in Hes. apply andb_true_iff in Hes.
    destruct Hes as [He Hes]. apply negb_true_iff in He.
    cbn [run] in Hrun.
    destruct (step fs e s) as [s1|] eqn:E; [|discriminate].
    cbn [bind] in Hrun.
    apply (IH s1 Hes Hrun). now apply (step_keeps_absent fs k e s).
Qed.

(** ** Generation tags along a run *)

Lemma increasing_from_snoc (lo hi : nat) (tags : list nat) :
  increasing_from lo tags ->
  Forall (fun t => (t <= hi)%nat) tags ->
  (lo <= hi)%nat ->
  increasing_from lo (tags ++ [S hi]).
Proof.
  revert lo. induction tags as [|t tags IH]; intros lo Hinc Hall Hlo.
  - cbn [app increasing_from]. split; [lia|exact I].
  - cbn [app increasing_from] in *. destruct Hinc as [Hlt Hinc].
    apply Forall_cons_iff in Hall. destruct Hall as [Ht Hall].
    split; [exact Hlt|]. now apply IH.
Qed.

Lemma step_tags_ordered (fs : Loader) (e : Event) (s s' : Pipeline) :
  step fs e s = Some s' -> tags_ordered s -> tags_ordered s'.
Proof.
  intros Hstep (Hinc & Hall & Hcur). destruct e; cbn [step] in Hstep.
  - injection Hstep as <-. now repeat split.
  - destruct (resizeEvent w h (view s)); [|discriminate].
    cbn [bind] in Hstep. injection Hstep as <-. now repeat split.
  - injection Hstep as <-. now repeat split.
  - destruct (m_loadEventStream (view s)); [injection Hstep as <-; now repeat split|].
    destruct (snapshot _) as [[v' ts]|]; [|discriminate].
    cbn [bind] in Hstep. injection Hstep as <-.
    unfold tags_ordered, current_tag in *. cbn [current to_switch generation].
    rewrite map_app. cbn [map fst]. split; [|split].
    + now apply increasing_from_snoc.
    + apply Forall_app. split.
      * eapply Forall_impl; [|exact Hall]. cbn beta. intros; lia.
      * constructor; [lia|constructor].
    + lia.
  - destruct (to_switch s) as [|[g ts] queued] eqn:Eq;
      [injection Hstep as <-; unfold tags_ordered; rewrite Eq; now repeat split|].
    injection Hstep as <-.
    unfold tags_ordered, current_tag in *. cbn [current to_switch generation].
    cbn [map fst increasing_from] in Hinc, Hall.
    apply Forall_cons_iff in Hall. tauto.
  - assert (E : tags_ordered (stale_completion g s)).
    { unfold tags_ordered, current_tag.
      destruct (stale_completion_frame g s) as (_ & -> & -> & -> & _).
      now repeat split. }
    destruct (current s) as [[g0 [|item rest]]|] eqn:Ecur;
      [injection Hstep as <-; exact E| |injection Hstep as <-; exact E].
    destruct (Nat.eqb g0 g); [|injection Hstep as <-; exact E].
    injection Hstep as <-.
    unfold tags_ordered, current_tag in *. cbn [current to_switch generation].
    rewrite Ecur in Hinc, Hcur. now repeat split.
  - destruct (buffer s); injection Hstep as <-; now repeat split.
  - destruct (to_ui s) as [|items queued]; [injection Hstep as <-; now repeat split|].
    destruct (apply_batch (view s) items) as [[v' calls]|]; [|discriminate].
    cbn [bind] in Hstep. injection Hstep as <-. now repeat split.
Qed.

(** Along every run from the start, a batch queued in front of
    [switch_on_next] is of a newer generation than the one it is
    subscribed to. *)
Lemma queued_batch_is_newer
      (fs : Loader) (es : list Event) (v : ImageListView) (s : Pipeline)
      (g g' : nat) (items batch : list ImageLoadingTask)
      (queued : list (nat * list ImageLoadingTask)) :
  run fs es (start v) = Some s ->
  current s = Some (g, items) ->
  to_switch s = (g', batch) :: queued ->
  (g < g')%nat.
Proof.
  intros Hrun Hcur Hq.
  assert (Hinv : tags_ordered s).
  { assert (H0 : tags_ordered (start v)).
    { unfold tags_ordered, current_tag. cbn. repeat split; [constructor|lia]. }
    revert Hrun H0. generalize (start v). clear Hcur Hq.
    induction es as [|e es IH]; intros s0 Hrun H0.
    - cbn [run] in Hrun. now injection Hrun as <-.
    - cbn [run] in Hrun. destruct (step fs e s0) as [s1|] eqn:E; [|discriminate].
      cbn [bind] in Hrun. apply (IH s1 Hrun).
      now apply (step_tags_ordered fs e s0). }
  destruct Hinv as (Hinc & _). unfold current_tag in Hinc.
  rewrite Hcur, Hq in Hinc. cbn [map fst increasing_from] in Hinc. tauto.
Qed.

(** [switch_on_next] never goes back to an older batch. *)
Lemma step_current_tag_mono (fs : Loader) (e : Event) (s s' : Pipeline) :
  step fs e s = Some s' -> tags_ordered s ->
  (current_tag s <= current_tag s')%nat.
Proof.
  intros Hstep (Hinc & _ & _). unfold current_tag in *.
  destruct e; cbn [step] in Hstep.
  - injection Hstep as <-. reflexivity.
  - destruct (resizeEvent w h (view s)); [|discriminate].
    cbn [bind] in Hstep. injection Hstep as <-. reflexivity.
  - injection Hstep as <-. reflexivity.
  - destruct (m_loadEventStream (view s)); [injection Hstep as <-; reflexivity|].
    destruct (snapshot _) as [[v' ts]|]; [|discriminate].
    cbn [bind] in Hstep. injection Hstep as <-. reflexivity.
  - destruct (to_switch s) as [|[g ts] queued] eqn:Eq;
      [injection Hstep as <-; reflexivity|].
    injection Hstep as <-. cbn [current].
    cbn [map fst increasing_from] in Hinc. lia.
  - assert (E : current (stale_completion g s) = current s)
      by apply (stale_completion_frame g s).
    destruct (current s) as [[g0 [|item rest]]|] eqn:Ecur;
      [injection Hstep as <-; rewrite E; reflexivity|
      |injection Hstep as <-; rewrite E; reflexivity].
    destruct (Nat.eqb g0 g); injection Hstep as <-;
      [reflexivity|rewrite E; reflexivity].
  - destruct (buffer s); injection Hstep as <-; reflexivity.
  - destruct (to_ui s) as [|items queued]; [injection Hstep as <-; reflexivity|].
    destruct (apply_batch (view s) items) as [[v' calls]|]; [|discriminate].
    cbn [bind] in Hstep. injection Hstep as <-. reflexivity.
Qed.

Lemma run_tags_ordered (fs : Loader) (es : list Event) (s s' : Pipeline) :
  run fs es s = Some s' -> tags_ordered s ->
  tags_ordered s' /\ (current_tag s <= current_tag s')%nat.
Proof.
  revert s. induction es as [|e es IH]; intros s Hrun H; cbn [run] in Hrun.
  - injection Hrun as <-. split; [exact H|reflexivity].
  - destruct (step fs e s) as [s1|] eqn:E; [|discriminate].
    cbn [bind] in Hrun.
    pose proof (step_tags_ordered fs e s s1 E H) as H1.
    pose proof (step_current_tag_mono fs e s s1 E H) as Hle.
    destruct (IH s1 Hrun H1) as (H' & Hle'). split; [exact H'|lia].
Qed.

Lemma start_tags_ordered (v : ImageListView) : tags_ordered (start v).
Proof.
  unfold tags_ordered, current_tag. cbn. repeat split; [constructor|lia].
Qed.

(** C1 (amended): generation [g] has a decode in flight when the batch of
    a newer generation reaches [switch_on_next].  From then on, whatever
    events follow and in whatever order, [switch_on_next] does not forward
    generation [g] again, and every completion of a decode of [g] that
    arrives leaves the view with its cache, the open buffer, the buffers
    queued for the UI thread, the batches and the [update] calls as they
    are: nothing is inserted and no damage is computed or reported.  A
    file name that is not in the cache and that no task of the buffers or
    of the live batches carries stays out of the cache for as long as no
    new snapshot is taken, whatever completes in the meantime. *)
Theorem superseded_generation_ignored
  (fs : Loader) (v0 : ImageListView) (es0 : list Event) (s : Pipeline)
  (g g' : nat) (item : ImageLoadingTask) (rest batch : list ImageLoadingTask)
  (queued : list (nat * list ImageLoadingTask)) :
  run fs es0 (start v0) = Some s ->
  current s = Some (g, item :: rest) ->
  to_switch s = (g', batch) :: queued ->
  exists s1,
    step fs SwitchArrive s = Some s1 /\
    current s1 = Some (g', batch) /\
    (g < g')%nat /\
    In (g, item) (orphans s1) /\
    (forall es sa,
       run fs es s1 = Some sa ->
       forwarded_generation sa <> Some g /\
       exists sb,
         step fs (DecodeDone g) sa = Some sb /\
         view sb = view sa /\
         buffer sb = buffer sa /\
         to_ui sb = to_ui sa /\
         updates sb = updates sa /\
         current sb = current sa /\
         to_switch sb = to_switch sa) /\
    (forall k,
       Cache.contains k (m_imageCache (view s)) = false ->
       has_key k (buffer s) = false ->
       existsb (has_key k) (to_ui s) = false ->
       has_key k batch = false ->
       existsb (fun b => has_key k (snd b)) queued = false ->
       forall es s',
         no_snapshot es = true ->
         run fs es s1 = Some s' ->
         Cache.contains k (m_imageCache (view s')) = false).
Proof.
  intros Hreach Hcur Hq.
  destruct (run_tags_ordered fs es0 (start v0) s Hreach (start_tags_ordered v0))
    as (Hord & _).
  assert (Hlt : (g < g')%nat).
  { destruct Hord as (Hinc & _). unfold current_tag in Hinc.
    rewrite Hcur, Hq in Hinc. cbn [map fst increasing_from] in Hinc. tauto. }
  assert (Hstep : step fs SwitchArrive s
                  = Some (mkPipeline (view s) (generation s) queued
                            (Some (g', batch))
                            (orphans s ++ running_of (current s))
                            (buffer s) (to_ui s) (updates s) (loads s))).
  { cbn [step]. rewrite Hq. reflexivity. }
  eexists. split; [exact Hstep|]. split; [reflexivity|]. split; [exact Hlt|].
  split.
  { cbn [orphans]. rewrite Hcur. cbn [running_of].
    apply in_or_app. right. now left. }
  pose proof (step_tags_ordered fs SwitchArrive s _ Hstep Hord) as Hord1.
  split.
  - intros es sa Hrun.
    destruct (run_tags_ordered fs es _ sa Hrun Hord1) as (_ & Hle).
    unfold current_tag at 1 in Hle. cbn [current] in Hle.
    assert (Hfw : forwarded_generation sa <> Some g).
    { unfold forwarded_generation. unfold current_tag in Hle.
      destruct (current sa) as [[g0 [|t ts]]|]; try discriminate.
      intros E. injection E as ->. lia. }
    split; [exact Hfw|].
    exists (stale_completion g sa). split; [now apply step_stale|].
    destruct (stale_completion_frame g sa) as (Ev & _ & Esw & Ecur & Eb & Eu & Eup).
    now repeat split.
  - intros k Hc Hb Hu Hbatch Hqueued es s' Hes Hrun.
    apply (run_keeps_absent fs k es _ s' Hes Hrun).
    unfold absent. rewrite awaited_false.
    cbn [view buffer to_ui current to_switch]. tauto.
Qed.

(** C1, witness: the first generation is decoding ["a"] when the batch of
    the second generation, for ["b"], reaches [switch_on_next]. *)
Lemma superseded_generation_ignored_witness :
  exists s1,
    step all_files SwitchArrive second_batch_queued = Some s1 /\
    current s1 = Some (2%nat, [mkTask 1 "b" None]) /\
    (1 < 2)%nat /\
    In (1%nat, mkTask 0 "a" None) (orphans s1) /\
    (forall es sa,
       run all_files es s1 = Some sa ->
       forwarded_generation sa <> Some 1%nat /\
       exists sb,
         step all_files (DecodeDone 1) sa = Some sb /\
         view sb = view sa /\
         buffer sb = buffer sa /\
         to_ui sb = to_ui sa /\
         updates sb = updates sa /\
         current sb = current sa /\
         to_switch sb = to_switch sa) /\
    (forall k,
       Cache.contains k (m_imageCache (view second_batch_queued)) = false ->
       has_key k (buffer second_batch_queued) = false ->
       existsb (has_key k) (to_ui second_batch_queued) = false ->
       has_key k [mkTask 1 "b" None] = false ->
       existsb (fun b : nat * list ImageLoadingTask => has_key k (snd b)) []
         = false ->
       forall es s',
         no_snapshot es = true ->
         run all_files es s1 = Some s' ->
         Cache.contains k (m_imageCache (view s')) = false).
Proof.
  apply (superseded_generation_ignored all_files two_rows
           [DebounceFire; SwitchArrive; Scroll 100; DebounceFire]
           second_batch_queued 1 2 (mkTask 0 "a" None) [] [mkTask 1 "b" None] []);
    [vm_compute; reflexivity|reflexivity|reflexivity].
Defined.

(** In that example a completion of the first generation is ignored also
    when it arrives after the decode of the second generation has been
    delivered: ["a"] is never cached. *)
Example late_completion_ignored :
  option_map
    (fun s' => (map fst (entries (m_imageCache (view s'))), buffer s', to_ui s',
                rev (loads s')))
    (run all_files [SwitchArrive; DecodeDone 2; BufferTick; UiDeliver;
                    DecodeDone 1; BufferTick; UiDeliver]
         second_batch_queued)
  = Some (["b"]%string, [], [], ["b"; "a"]%string).
Proof. vm_compute. reflexivity. Qed.

(** C1, counterexample to the claim as stated: the second snapshot has
    produced its batch, for the disjoint range of row 1, while the first
    generation is still decoding ["a"]; the batch is still queued in front
    of [switch_on_next] when that decode completes.  The completion is
    forwarded, buffered and applied: ["a"] is inserted into the cache. *)
Lemma completion_before_switch_is_applied :
  run all_files [DebounceFire; SwitchArrive; Scroll 100; DebounceFire]
      (start two_rows) = Some second_batch_queued /\
  generation second_batch_queued = 2%nat /\
  current second_batch_queued = Some (1%nat, [mkTask 0 "a" None]) /\
  to_switch second_batch_queued = [(2%nat, [mkTask 1 "b" None])] /\
  Cache.contains "a" (m_imageCache (view second_batch_queued)) = false /\
  exists s_end,
    run all_files [DecodeDone 1; BufferTick; UiDeliver] second_batch_queued
      = Some s_end /\
    Cache.lookup "a" (m_imageCache (view s_end)) = Some (Pixels "a") /\
    Cache.contains "a" (m_imageCache (view s_end)) = true.
Proof.
  split; [vm_compute; reflexivity|]. repeat (split; [reflexivity|]).
  eexists. split; [vm_compute; reflexivity|]. split; reflexivity.
Qed.

Lemma contains_true_lookup (k : string) (c : QCache) :
  Cache.contains k c = true -> exists img, Cache.lookup k c = Some img.
Proof.
  intros H. destruct (Cache.lookup k c) as [img|] eqn:E; [now exists img|].
  apply contains_lookup in E. congruence.
Qed.

Lemma lookup_contains_true (k : string) (img : QImage) (c : QCache) :
  Cache.lookup k c = Some img -> Cache.contains k c = true.
Proof.
  intros H. destruct (Cache.contains k c) eqn:E; [reflexivity|].
  apply contains_lookup in E. congruence.
Qed.

(** The snapshot brings no file name into the cache. *)
Lemma snapshot_contains_inv (v v' : ImageListView) (taskList : list ImageLoadingTask)
      (k : string) :
  snapshot v = Some (v', taskList) ->
  Cache.contains k (m_imageCache v') = true ->
  Cache.contains k (m_imageCache v) = true.
Proof.
  unfold snapshot.
  destruct (modelIndexRangeForRect v (viewport_rect v)) as [[first last]|];
    [|discriminate].
  cbn [bind]. destruct (model v) as [rows|]; [|discriminate]. cbn [bind fst snd].
  pose proof (build_tasks_lookup_inv rows (rows_between first last)
                (m_imageCache v) k) as Hinv.
  destruct (build_tasks rows (rows_between first last) (m_imageCache v)) as [c ts].
  cbn [fst] in Hinv. intros H. injection H as <- _. cbn [set_imageCache m_imageCache].
  intros Hc. apply contains_true_lookup in Hc. destruct Hc as [img Hl].
  apply Hinv in Hl. now apply lookup_contains_true in Hl.
Qed.

(** A file name enters the cache only when a buffer with a task that
    carries it is applied. *)
Lemma key_enters_cache_only_on_apply
      (fs : Loader) (e : Event) (s s' : Pipeline) (k : string) :
  step fs e s = Some s' ->
  Cache.contains k (m_imageCache (view s)) = false ->
  Cache.contains k (m_imageCache (view s')) = true ->
  e = UiDeliver /\
  exists items queued, to_ui s = items :: queued /\ has_key k items = true.
Proof.
  intros Hstep Hc Hc'. destruct e; cbn [step] in Hstep.
  - injection Hstep as <-. cbn [view set_view] in Hc'.
    rewrite imageCache_scrollBarSetValue in Hc'. congruence.
  - destruct (resizeEvent w h (view s)) as [v'|] eqn:E; [|discriminate].
    cbn [bind] in Hstep. injection Hstep as <-. cbn [view set_view] in Hc'.
    unfold resizeEvent in E.
    destruct (updateGeometries (set_viewport w h (view s))) as [v1|] eqn:E1;
      [|discriminate].
    cbn [bind] in E. injection E as <-.
    apply updateGeometries_cache in E1. destruct E1 as [m E1].
    cbn [emitLoadEvent set_loadEventStream m_imageCache] in Hc'. rewrite E1 in Hc'.
    apply contains_setMaxCost_inv in Hc'. cbn [set_viewport m_imageCache] in Hc'.
    congruence.
  - injection Hstep as <-. discriminate Hc'.
  - destruct (m_loadEventStream (view s)); [injection Hstep as <-; congruence|].
    destruct (snapshot (set_loadEventStream 0 (view s))) as [[v' ts]|] eqn:E;
      [|discriminate].
    cbn [bind] in Hstep. injection Hstep as <-. cbn [view] in Hc'.
    apply (snapshot_contains_inv _ _ _ _ E) in Hc'.
    cbn [set_loadEventStream m_imageCache] in Hc'. congruence.
  - destruct (to_switch s) as [|batch queued]; injection Hstep as <-;
      cbn [view] in Hc'; congruence.
  - assert (E : view s' = view s); [|rewrite E in Hc'; congruence].
    destruct (current s) as [[g0 [|item rest]]|];
      [| destruct (Nat.eqb g0 g) |];
      injection Hstep as <-; try reflexivity;
      apply (stale_completion_frame g s).
  - destruct (buffer s); injection Hstep as <-; cbn [view] in Hc'; congruence.
  - split; [reflexivity|].
    destruct (to_ui s) as [|items queued]; [injection Hstep as <-; congruence|].
    destruct (apply_batch (view s) items) as [[v' calls]|] eqn:E; [|discriminate].
    cbn [bind] in Hstep. injection Hstep as <-. cbn [view] in Hc'.
    exists items, queued. split; [reflexivity|].
    apply apply_batch_cache in E. rewrite E in Hc'.
    destruct (has_key k items) eqn:Hk; [reflexivity|].
    rewrite (contains_insert_all k items _ Hk Hc) in Hc'. discriminate.
Qed.

(** ** The snapshot in the pipeline *)

Lemma has_key_false_In (k : string) (items : list ImageLoadingTask)
      (t : ImageLoadingTask) :
  has_key k items = false -> In t items -> imageFileName t <> k.
Proof.
  intros Hk Hin E. unfold has_key in Hk.
  assert (H : existsb (fun item => String.eqb (imageFileName item) k) items = true).
  { apply existsb_exists. exists t. split; [exact Hin|].
    rewrite E. apply String.eqb_refl. }
  congruence.
Qed.

Lemma has_key_true_In (k : string) (items : list ImageLoadingTask) :
  has_key k items = true ->
  exists t, In t items /\ imageFileName t = k.
Proof.
  unfold has_key. intros H. apply existsb_exists in H.
  destruct H as (t & Hin & E). exists t. split; [exact Hin|].
  now apply String.eqb_eq.
Qed.

(** Without a new snapshot no task joins the pipeline. *)
Lemma step_only_from (fs : Loader) (k : string) (taskList : list ImageLoadingTask)
      (e : Event) (s s' : Pipeline) :
  is_snapshot e = false ->
  step fs e s = Some s' ->
  only_from fs k taskList s -> only_from fs k taskList s'.
Proof.
  intros He Hstep (Hb & Hu & Hcur & Hsw).
  destruct e; try discriminate He; cbn [step] in Hstep.
  - injection Hstep as <-. now repeat split.
  - destruct (resizeEvent w h (view s)); [|discriminate].
    cbn [bind] in Hstep. injection Hstep as <-. now repeat split.
  - injection Hstep as <-. now repeat split.
  - destruct (to_switch s) as [|[g0 items0] queued] eqn:Eq.
    { injection Hstep as <-. unfold only_from. rewrite Eq. now repeat split. }
    injection Hstep as <-. unfold only_from.
    cbn [buffer to_ui current to_switch].
    split; [exact Hb|]. split; [exact Hu|]. split.
    + intros g items t E Hin Hk. injection E as <- <-.
      apply (Hsw (g0, items0) t); [now left|exact Hin|exact Hk].
    + intros batch t Hbatch. apply Hsw. now right.
  - assert (Hst : only_from fs k taskList (stale_completion g s)).
    { unfold only_from.
      destruct (stale_completion_frame g s) as (_ & _ & -> & -> & -> & -> & _).
      now repeat split. }
    destruct (current s) as [[g0 [|item rest]]|] eqn:Ecur;
      [injection Hstep as <-; exact Hst| |injection Hstep as <-; exact Hst].
    destruct (Nat.eqb g0 g); [|injection Hstep as <-; exact Hst].
    injection Hstep as <-. unfold only_from.
    cbn [buffer to_ui current to_switch].
    split; [|split; [exact Hu|split; [|exact Hsw]]].
    + intros t Hin Hk. apply in_app_or in Hin.
      destruct Hin as [Hin|[<-|[]]]; [now apply Hb|].
      exists item. split; [|reflexivity].
      apply (Hcur g0 (item :: rest) item eq_refl); [now left|exact Hk].
    + intros g1 items t E Hin Hk. injection E as <- <-.
      apply (Hcur g0 (item :: rest) t eq_refl); [now right|exact Hk].
  - destruct (buffer s) as [|item items] eqn:Eb.
    { injection Hstep as <-. unfold only_from. rewrite Eb. now repeat split. }
    injection Hstep as <-. unfold only_from.
    cbn [buffer to_ui current to_switch].
    split; [intros t []|]. split; [|split; [exact Hcur|exact Hsw]].
    intros items' t Hin. apply in_app_or in Hin.
    destruct Hin as [Hin|[<-|[]]]; [now apply Hu|]. apply Hb.
  - destruct (to_ui s) as [|items queued] eqn:Eu.
    { injection Hstep as <-. unfold only_from. rewrite Eu. now repeat split. }
    destruct (apply_batch (view s) items) as [[v' calls]|]; [|discriminate].
    cbn [bind] in Hstep. injection Hstep as <-. unfold only_from.
    cbn [buffer to_ui current to_switch].
    split; [exact Hb|]. split; [|split; [exact Hcur|exact Hsw]].
    intros items' t Hin. apply Hu. now right.
Qed.

Lemma run_only_from (fs : Loader) (k : string) (taskList : list ImageLoadingTask)
      (es : list Event) (s s' : Pipeline) :
  no_snapshot es = true ->
  run fs es s = Some s' ->
  only_from fs k taskList s -> only_from fs k taskList s'.
Proof.
  revert s. induction es as [|e es IH]; intros s Hes Hrun H.
  - cbn [run] in Hrun. now injection Hrun as <-.
  - cbn [no_snapshot forallb] in Hes. apply andb_true_iff in Hes.
    destruct Hes as [He Hes]. apply negb_true_iff in He.
    cbn [run] in Hrun. destruct (step fs e s) as [s1|] eqn:E; [|discriminate].
    cbn [bind] in Hrun. apply (IH s1 Hes Hrun).
    exact (step_only_from fs k taskList e s s1 He E H).
Qed.

(** The snapshot as a stage of the pipeline.  When no task with the file
    name [k] is pending, the file name enters the cache after the snapshot,
    and before the next one, only when a buffer with the decoded task of
    this snapshot for [k] is applied. *)
Lemma snapshot_own_task (fs : Loader) (s : Pipeline) (v' : ImageListView)
      (taskList : list ImageLoadingTask) (k : string) :
  m_loadEventStream (view s) <> 0%nat ->
  snapshot (set_loadEventStream 0 (view s)) = Some (v', taskList) ->
  awaited k s = false ->
  exists s1,
    step fs DebounceFire s = Some s1 /\
    view s1 = v' /\
    to_switch s1 = to_switch s ++ [(S (generation s), taskList)] /\
    forall es s2 e s3,
      no_snapshot es = true ->
      run fs es s1 = Some s2 ->
      step fs e s2 = Some s3 ->
      Cache.contains k (m_imageCache (view s2)) = false ->
      Cache.contains k (m_imageCache (view s3)) = true ->
      e = UiDeliver /\
      exists items queued t,
        to_ui s2 = items :: queued /\
        In t taskList /\ imageFileName t = k /\ In (decode fs t) items.
Proof.
  intros Hev Hsnap Haw. apply awaited_false in Haw.
  destruct Haw as (Hb & Hu & Hcur & Hq).
  eexists. split.
  { cbn [step]. destruct (m_loadEventStream (view s)); [contradiction|].
    rewrite Hsnap. reflexivity. }
  split; [reflexivity|]. split; [reflexivity|].
  intros es s2 e s3 Hes Hrun Hstep Hc Hc'.
  destruct (key_enters_cache_only_on_apply fs e s2 s3 k Hstep Hc Hc')
    as (-> & items & queued & Eu & Hk).
  split; [reflexivity|].
  assert (Hinv : only_from fs k taskList s2).
  { apply (run_only_from fs k taskList es _ s2 Hes Hrun).
    unfold only_from. cbn [buffer to_ui current to_switch]. repeat split.
    - intros t Hin E. exfalso. exact (has_key_false_In k _ t Hb Hin E).
    - intros items0 t Hin Ht E. exfalso.
      assert (Hf : has_key k items0 = false).
      { destruct (has_key k items0) eqn:Hk0; [|reflexivity].
        assert (existsb (has_key k) (to_ui s) = true)
          by (apply existsb_exists; now exists items0).
        congruence. }
      exact (has_key_false_In k _ t Hf Ht E).
    - intros g items0 t Ecur Ht E. exfalso. rewrite Ecur in Hcur.
      exact (has_key_false_In k _ t Hcur Ht E).
    - intros batch t Hin Ht E. apply in_app_or in Hin.
      destruct Hin as [Hin|[<-|[]]]; [exfalso|exact Ht].
      assert (Hf : has_key k (snd batch) = false).
      { destruct (has_key k (snd batch)) eqn:Hk0; [|reflexivity].
        assert (existsb (fun b => has_key k (snd b)) (to_switch s) = true)
          by (apply existsb_exists; now exists batch).
        congruence. }
      exact (has_key_false_In k _ t Hf Ht E). }
  destruct Hinv as (_ & Hui & _ & _).
  destruct (has_key_true_In k items Hk) as (t & Hin & E).
  destruct (Hui items t ltac:(rewrite Eu; now left) Hin E) as (t0 & Hin0 & ->).
  exists items, queued, t0. split; [exact Eu|]. split; [exact Hin0|].
  split; [exact E|exact Hin].
Qed.

(** C9 (amended): on a non-degenerate view the snapshot returns one task
    per row of the visible range, in order, each with the file name of its
    row; a task carries an image only if the cache held it under that file
    name, every image the cache held for a visible row is carried by a
    task, and right after the snapshot the cache holds no file name of the
    visible range.  In the pipeline, when no task with a file name was
    pending at the snapshot, that file name enters the cache, before the
    next snapshot, only when a buffer with the decoded task of this
    snapshot for it is applied.  A task that carries a non-empty image is
    decoded to itself without a load; any other task is decoded by loading
    its file. *)
Theorem snapshot_takes_visible_images (v : ImageListView) (rows : list string) :
  model v = Some rows ->
  1 <= m_columnCount v -> 1 <= tile_width v -> 1 <= tile_height v ->
  rowCount rows <= Int32.INT_MAX ->
  exists first last v' taskList,
    modelIndexRangeForRect v (viewport_rect v) = Some (first, last) /\
    snapshot v = Some (v', taskList) /\
    map row taskList = rows_between first last /\
    (forall t, In t taskList -> imageFileName t = model_data rows (row t)) /\
    (forall t img, In t taskList -> image t = Some img ->
       Cache.lookup (imageFileName t) (m_imageCache v) = Some img) /\
    (forall r img, first <= r < last ->
       Cache.lookup (model_data rows r) (m_imageCache v) = Some img ->
       exists t, In t taskList /\ imageFileName t = model_data rows r /\
                 image t = Some img) /\
    (forall r, first <= r < last ->
       Cache.contains (model_data rows r) (m_imageCache v') = false) /\
    (forall fs s k,
       set_loadEventStream 0 (view s) = v ->
       m_loadEventStream (view s) <> 0%nat ->
       awaited k s = false ->
       exists s1,
         step fs DebounceFire s = Some s1 /\
         view s1 = v' /\
         to_switch s1 = to_switch s ++ [(S (generation s), taskList)] /\
         forall es s2 e s3,
           no_snapshot es = true ->
           run fs es s1 = Some s2 ->
           step fs e s2 = Some s3 ->
           Cache.contains k (m_imageCache (view s2)) = false ->
           Cache.contains k (m_imageCache (view s3)) = true ->
           e = UiDeliver /\
           exists items queued t,
             to_ui s2 = items :: queued /\
             In t taskList /\ imageFileName t = k /\ In (decode fs t) items) /\
    (forall fs t, In t taskList ->
       (needs_load t = false <->
          exists img, image t = Some img /\ image_isNull img = false) /\
       (needs_load t = false -> decode fs t = t) /\
       (needs_load t = true ->
          decode fs t = mkTask (row t) (imageFileName t)
                               (Some (image_load fs (imageFileName t))))).
Proof.
  intros Hm Hcc Hw Hh Hn.
  destruct (range_some v rows Hm Hcc Hw Hh (viewport_rect v) Hn)
    as (si & fi & _ & _ & Hr).
  set (first := valid_row_or 0 si) in *.
  set (last := match fi with Some i => i + 1 | None => rowCount rows end) in *.
  exists first, last.
  pose proof (build_tasks_rows rows (rows_between first last) (m_imageCache v)) as H1.
  pose proof (build_tasks_keys rows (rows_between first last) (m_imageCache v)) as H2.
  pose proof (build_tasks_image_from_cache rows (rows_between first last)
                (m_imageCache v)) as H3.
  pose proof (build_tasks_takes_cached rows (rows_between first last)
                (m_imageCache v)) as H4.
  pose proof (build_tasks_absent rows (rows_between first last) (m_imageCache v)) as H5.
  assert (Hsnap : snapshot v
                  = Some (set_imageCache
                            (fst (build_tasks rows (rows_between first last)
                                              (m_imageCache v))) v,
                          snd (build_tasks rows (rows_between first last)
                                           (m_imageCache v)))).
  { unfold snapshot. rewrite Hr, Hm. cbn [bind fst snd].
    destruct (build_tasks rows (rows_between first last) (m_imageCache v)).
    reflexivity. }
  destruct (build_tasks rows (rows_between first last) (m_imageCache v)) as [c ts].
  cbn [fst snd] in *. exists (set_imageCache c v), ts.
  split; [exact Hr|]. split; [exact Hsnap|]. split; [exact H1|].
  split; [exact H2|]. split; [exact H3|].
  split; [intros r img Hr'; apply H4; now apply In_rows_between|].
  split; [intros r Hr'; apply H5; now apply In_rows_between|].
  split.
  { intros fs s k Hv Hev Haw.
    apply (snapshot_own_task fs s (set_imageCache c v) ts k Hev);
      [rewrite Hv; exact Hsnap|exact Haw]. }
  intros fs t _. apply decode_spec.
Qed.

(** C9, witness: the snapshot of the seven-row view whose cache holds the
    image of row 1. *)
Lemma snapshot_takes_visible_images_witness :
  exists first last v' taskList,
    modelIndexRangeForRect seven_with_cache (viewport_rect seven_with_cache)
      = Some (first, last) /\
    snapshot seven_with_cache = Some (v', taskList) /\
    map row taskList = rows_between first last /\
    (forall t, In t taskList ->
       imageFileName t = model_data seven_rows (row t)) /\
    (forall t img, In t taskList -> image t = Some img ->
       Cache.lookup (imageFileName t) (m_imageCache seven_with_cache)
       = Some img) /\
    (forall r img, first <= r < last ->
       Cache.lookup (model_data seven_rows r) (m_imageCache seven_with_cache)
       = Some img ->
       exists t, In t taskList /\ imageFileName t = model_data seven_rows r /\
                 image t = Some img) /\
    (forall r, first <= r < last ->
       Cache.contains (model_data seven_rows r) (m_imageCache v') = false) /\
    (forall fs s k,
       set_loadEventStream 0 (view s) = seven_with_cache ->
       m_loadEventStream (view s) <> 0%nat ->
       awaited k s = false ->
       exists s1,
         step fs DebounceFire s = Some s1 /\
         view s1 = v' /\
         to_switch s1 = to_switch s ++ [(S (generation s), taskList)] /\
         forall es s2 e s3,
           no_snapshot es = true ->
           run fs es s1 = Some s2 ->
           step fs e s2 = Some s3 ->
           Cache.contains k (m_imageCache (view s2)) = false ->
           Cache.contains k (m_imageCache (view s3)) = true ->
           e = UiDeliver /\
           exists items queued t,
             to_ui s2 = items :: queued /\
             In t taskList /\ imageFileName t = k /\ In (decode fs t) items) /\
    (forall fs t, In t taskList ->
       (needs_load t = false <->
          exists img, image t = Some img /\ image_isNull img = false) /\
       (needs_load t = false -> decode fs t = t) /\
       (needs_load t = true ->
          decode fs t = mkTask (row t) (imageFileName t)
                               (Some (image_load fs (imageFileName t))))).
Proof.
  apply (snapshot_takes_visible_images seven_with_cache seven_rows);
    try reflexivity; vm_compute; intuition discriminate.
Defined.

(** C9, counterexample to the claim as stated: the first generation has
    decoded ["a"], the only visible row, and its result waits in the open
    buffer window when the second snapshot is taken over the same row.
    Right after the snapshot ["a"] is not in the cache and the task of the
    second snapshot for ["a"] is queued in front of [switch_on_next], not
    decoded yet.  The window closes and the buffer of the first generation
    is applied all the same: ["a"] is in the cache again while the task of
    the second snapshot is where it was. *)
Lemma buffered_result_applied_after_snapshot :
  run all_files [DebounceFire; SwitchArrive; DecodeDone 1;
                 Resize 100 100; DebounceFire]
      (start two_rows) = Some first_result_buffered /\
  modelIndexRangeForRect (view first_result_buffered)
                         (viewport_rect (view first_result_buffered))
    = Some (0, 1) /\
  model_data ["a"; "b"]%string 0 = "a"%string /\
  generation first_result_buffered = 2%nat /\
  to_switch first_result_buffered = [(2%nat, [mkTask 0 "a" None])] /\
  buffer first_result_buffered = [mkTask 0 "a" (Some (Pixels "a"))] /\
  Cache.contains "a" (m_imageCache (view first_result_buffered)) = false /\
  exists s_after,
    run all_files [BufferTick; UiDeliver] first_result_buffered = Some s_after /\
    Cache.contains "a" (m_imageCache (view s_after)) = true /\
    to_switch s_after = [(2%nat, [mkTask 0 "a" None])] /\
    buffer s_after = [] /\ to_ui s_after = [].
Proof.
  split; [vm_compute; reflexivity|]. repeat (split; [reflexivity|]).
  eexists. split; [vm_compute; reflexivity|]. repeat split.
Qed.

(** The snapshot of that view: row 1 carries its cached image, the other
    rows carry none, and only the image of the foreign file stays. *)
Example snapshot_seven_with_cache :
  exists v',
    snapshot seven_with_cache
      = Some (v', [mkTask 0 "a" None; mkTask 1 "b" (Some (Pixels "b"));
                   mkTask 2 "c" None; mkTask 3 "d" None; mkTask 4 "e" None;
                   mkTask 5 "f" None; mkTask 6 "g" None]%string) /\
    entries (m_imageCache v') = [("z", Pixels "z")]%string.
Proof.
  eexists. split; [vm_compute; reflexivity|reflexivity].
Qed.

(** ** The scenario of twelve images in five columns

    The viewport shows two tile rows.  One load event is debounced, the
    range resolves to the rows 0 to 9, the ten decodes complete within
    one buffer window, and the buffer is applied: one [update] call covers
    the ten tiles and the cache holds the ten images. *)
Example twelve_images_scenario :
  exists s,
    run all_files
        ([Resize 500 200; DebounceFire; SwitchArrive]
           ++ repeat (DecodeDone 1) 10 ++ [BufferTick; UiDeliver])
        (start twelve_in_five) = Some s /\
    modelIndexRangeForRect (view s) (viewport_rect (view s)) = Some (0, 10) /\
    updates s = [mkCorners 0 0 499 199] /\
    map fst (entries (m_imageCache (view s)))
      = ["j"; "i"; "h"; "g"; "f"; "e"; "d"; "c"; "b"; "a"]%string /\
    mx (m_imageCache (view s)) = 75 /\
    loads s = ["j"; "i"; "h"; "g"; "f"; "e"; "d"; "c"; "b"; "a"]%string /\
    current s = Some (1%nat, []).
Proof.
  eexists. split; [vm_compute; reflexivity|]. repeat split.
Qed.

(** ** Keyboard navigation *)

Section MoveCursor.

Variable v : ImageListView.
Variable rows : list string.
Hypothesis Hmodel : model v = Some rows.
Hypothesis Hcolumns : 1 <= m_columnCount v.
Hypothesis Hwidth : 1 <= tile_width v.
Hypothesis Hheight : 1 <= tile_height v.
Hypothesis Hcount : rowCount rows <= Int32.INT_MAX.

(** On a non-degenerate view the divisions of [moveCursor] have a result;
    what is left is the offset of the action and the clamping. *)
Ltac moveCursor_divisions :=
  unfold moveCursor; rewrite Hmodel; cbn [bind];
  rewrite div_pos_divisor by lia; cbn [bind]; fold (tile_width v);
  rewrite (div_pos_divisor _ (tile_width v)) by lia; cbn [bind];
  fold (tile_height v);
  rewrite (div_pos_divisor _ (tile_height v)) by lia; cbn [bind];
  rewrite ?qMax_spec, ?qMin_spec.

Lemma moveCursor_clamped (i : Z) (a : CursorAction) :
  0 <= i < rowCount rows ->
  exists target,
    moveCursor v (Some i) a
    = Some (model_index rows (Z.max 0 (Z.min target (rowCount rows - 1)))).
Proof.
  intros Hi. moveCursor_divisions.
  assert (E : Int32.sub (rowCount rows) 1 = rowCount rows - 1) by (int_exact; lia).
  rewrite E. eexists. reflexivity.
Qed.

(** X1: on a non-degenerate view, whatever the cursor action, moving the
    cursor from a valid row returns a valid row of the model. *)
Theorem moveCursor_valid_row (i : Z) (a : CursorAction) :
  0 <= i < rowCount rows ->
  exists j, moveCursor v (Some i) a = Some (Some j) /\ 0 <= j < rowCount rows.
Proof.
  intros Hi. destruct (moveCursor_clamped i a Hi) as [target E].
  exists (Z.max 0 (Z.min target (rowCount rows - 1))).
  rewrite E. split; [|lia]. rewrite model_index_valid by lia. reflexivity.
Qed.

Lemma moveCursor_up (i : Z) :
  0 <= i < rowCount rows ->
  moveCursor v (Some i) MoveUp
  = Some (Some (if m_columnCount v <=? i then i - m_columnCount v else i)).
Proof.
  intros Hi. moveCursor_divisions.
  assert (E : Int32.sub (rowCount rows) 1 = rowCount rows - 1) by (int_exact; lia).
  assert (E1 : Int32.add i 1 = i + 1) by (int_exact; lia).
  rewrite E, E1.
  assert (Hcc : m_columnCount v <= Int32.INT_MAX \/ Int32.INT_MAX < m_columnCount v)
    by lia.
  destruct (Z.ltb_spec (m_columnCount v) (i + 1));
    destruct (Z.leb_spec (m_columnCount v) i); try lia.
  - assert (E2 : Int32.add i (Int32.sub 0 (m_columnCount v)) = i - m_columnCount v)
      by (int_exact; lia).
    rewrite E2. rewrite model_index_valid by lia. f_equal. f_equal. lia.
  - assert (E2 : Int32.add i 0 = i) by (int_exact; lia).
    rewrite E2. rewrite model_index_valid by lia. f_equal. f_equal. lia.
Qed.

Lemma moveCursor_down (i : Z) :
  0 <= i < rowCount rows ->
  rowCount rows + m_columnCount v <= Int32.INT_MAX ->
  moveCursor v (Some i) MoveDown
  = Some (Some (if i + m_columnCount v <? rowCount rows
                then i + m_columnCount v else i)).
Proof.
  intros Hi Hsum. moveCursor_divisions.
  assert (E : Int32.sub (rowCount rows) 1 = rowCount rows - 1) by (int_exact; lia).
  assert (E1 : Int32.add i (m_columnCount v) = i + m_columnCount v)
    by (int_exact; lia).
  assert (E2 : Int32.add i 0 = i) by (int_exact; lia).
  rewrite E, E1.
  destruct (Z.ltb_spec (i + m_columnCount v) (rowCount rows)).
  - rewrite E1. rewrite model_index_valid by lia. f_equal. f_equal. lia.
  - rewrite E2. rewrite model_index_valid by lia. f_equal. f_equal. lia.
Qed.

(** X2: on a non-degenerate view [MoveUp] and [MoveDown] move by one tile
    row, that is by the column count, and stay where they are when there
    is no row above or below; the tile column is kept, and moving down
    and then up, or up and then down, returns to the row it started
    from. *)
Theorem moveCursor_vertical (i : Z) :
  0 <= i < rowCount rows ->
  rowCount rows + m_columnCount v <= Int32.INT_MAX ->
  exists up down,
    moveCursor v (Some i) MoveUp = Some (Some up) /\
    moveCursor v (Some i) MoveDown = Some (Some down) /\
    up = (if m_columnCount v <=? i then i - m_columnCount v else i) /\
    down = (if i + m_columnCount v <? rowCount rows
            then i + m_columnCount v else i) /\
    up mod m_columnCount v = i mod m_columnCount v /\
    down mod m_columnCount v = i mod m_columnCount v /\
    (down <> i -> moveCursor v (Some down) MoveUp = Some (Some i)) /\
    (up <> i -> moveCursor v (Some up) MoveDown = Some (Some i)).
Proof.
  intros Hi Hsum. do 2 eexists.
  split; [now apply moveCursor_up|]. split; [now apply moveCursor_down|].
  split; [reflexivity|]. split; [reflexivity|].
  set (cc := m_columnCount v) in *.
  destruct (Z.leb_spec cc i) as [Hup|Hup];
    destruct (Z.ltb_spec (i + cc) (rowCount rows)) as [Hdown|Hdown].
  all: repeat split; try reflexivity; try tauto.
  all: try (replace (i - cc) with (i + (-1) * cc) by lia;
            now rewrite Z.mod_add by lia).
  all: try (replace (i + cc) with (i + 1 * cc) by lia;
            now rewrite Z.mod_add by lia).
  all: intros _.
  all: try (rewrite moveCursor_up by lia; fold cc;
            destruct (Z.leb_spec cc (i + cc)); [|lia];
            f_equal; f_equal; lia).
  all: try (rewrite moveCursor_down by lia; fold cc;
            destruct (Z.ltb_spec (i - cc + cc) (rowCount rows)); [|lia];
            f_equal; f_equal; lia).
Qed.

(** X3: on a non-degenerate view the other actions move along the linear
    order of the rows and stop at its ends: [MoveLeft] and [MovePrevious]
    go to the row before (from the first tile of a tile row to the last
    tile of the tile row above) and stay on row 0; [MoveRight] and
    [MoveNext] go to the row after and stay on the last row; [MoveHome]
    goes to row 0 and [MoveEnd] to the last row. *)
Theorem moveCursor_linear (i : Z) :
  0 <= i < rowCount rows ->
  moveCursor v (Some i) MoveLeft = Some (Some (Z.max 0 (i - 1))) /\
  moveCursor v (Some i) MovePrevious = Some (Some (Z.max 0 (i - 1))) /\
  moveCursor v (Some i) MoveRight = Some (Some (Z.min (i + 1) (rowCount rows - 1))) /\
  moveCursor v (Some i) MoveNext = Some (Some (Z.min (i + 1) (rowCount rows - 1))) /\
  moveCursor v (Some i) MoveHome = Some (Some 0) /\
  moveCursor v (Some i) MoveEnd = Some (Some (rowCount rows - 1)).
Proof.
  intros Hi.
  assert (E : Int32.sub (rowCount rows) 1 = rowCount rows - 1) by (int_exact; lia).
  assert (Em : Int32.add i (-1) = i - 1) by (int_exact; lia).
  assert (Ep : Int32.add i 1 = i + 1) by (int_exact; lia).
  assert (Eh : Int32.add i (Int32.sub 0 i) = 0) by (int_exact; lia).
  assert (Ee : Int32.add i (Z.max (Int32.sub (Int32.sub (rowCount rows) i) 1) 0)
               = rowCount rows - 1).
  { assert (E0 : Int32.sub (Int32.sub (rowCount rows) i) 1 = rowCount rows - i - 1)
      by (int_exact; lia).
    rewrite E0. rewrite Z.max_l by lia. int_exact. lia. }
  repeat split; moveCursor_divisions;
    rewrite ?E, ?Em, ?Ep, ?Eh, ?Ee;
    rewrite model_index_valid by lia; f_equal; f_equal; lia.
Qed.

End MoveCursor.

(** X1, witness: page down from row 3 of the twelve-row example. *)
Lemma moveCursor_valid_row_witness :
  exists j, moveCursor twelve_in_five (Some 3) MovePageDown = Some (Some j) /\
            0 <= j < rowCount twelve_rows.
Proof.
  apply (moveCursor_valid_row twelve_in_five twelve_rows);
    try reflexivity; vm_compute; intuition discriminate.
Defined.

(** X2, witness: row 3 of the twelve-row example, with row 8 below it. *)
Lemma moveCursor_vertical_witness :
  exists up down,
    moveCursor twelve_in_five (Some 3) MoveUp = Some (Some up) /\
    moveCursor twelve_in_five (Some 3) MoveDown = Some (Some down) /\
    up = (if m_columnCount twelve_in_five <=? 3
          then 3 - m_columnCount twelve_in_five else 3) /\
    down = (if 3 + m_columnCount twelve_in_five <? rowCount twelve_rows
            then 3 + m_columnCount twelve_in_five else 3) /\
    up mod m_columnCount twelve_in_five = 3 mod m_columnCount twelve_in_five /\
    down mod m_columnCount twelve_in_five = 3 mod m_columnCount twelve_in_five /\
    (down <> 3 -> moveCursor twelve_in_five (Some down) MoveUp = Some (Some 3)) /\
    (up <> 3 -> moveCursor twelve_in_five (Some up) MoveDown = Some (Some 3)).
Proof.
  apply (moveCursor_vertical twelve_in_five twelve_rows);
    try reflexivity; vm_compute; intuition discriminate.
Defined.

(** X3, witness: row 5, the first tile of the second tile row. *)
Lemma moveCursor_linear_witness :
  moveCursor twelve_in_five (Some 5) MoveLeft = Some (Some (Z.max 0 (5 - 1))) /\
  moveCursor twelve_in_five (Some 5) MovePrevious = Some (Some (Z.max 0 (5 - 1))) /\
  moveCursor twelve_in_five (Some 5) MoveRight
    = Some (Some (Z.min (5 + 1) (rowCount twelve_rows - 1))) /\
  moveCursor twelve_in_five (Some 5) MoveNext
    = Some (Some (Z.min (5 + 1) (rowCount twelve_rows - 1))) /\
  moveCursor twelve_in_five (Some 5) MoveHome = Some (Some 0) /\
  moveCursor twelve_in_five (Some 5) MoveEnd
    = Some (Some (rowCount twelve_rows - 1)).
Proof.
  apply (moveCursor_linear twelve_in_five twelve_rows);
    try reflexivity; vm_compute; intuition discriminate.
Defined.

(** ** Scrolling to an item *)

(** Moving the scroll bar to a value of its range sets the scroll offset
    and leaves the geometry of the view as it is. *)
Lemma scrollBarSetValue_in_range (val : Z) (v : ImageListView) :
  sb_minimum (verticalScrollBar v) <= val <= sb_maximum (verticalScrollBar v) ->
  verticalOffset (scrollBarSetValue val v) = val /\
  m_columnCount (scrollBarSetValue val v) = m_columnCount v /\
  viewport_width (scrollBarSetValue val v) = viewport_width v /\
  viewport_height (scrollBarSetValue val v) = viewport_height v /\
  model (scrollBarSetValue val v) = model v.
Proof.
  intros Hval. unfold scrollBarSetValue, ScrollBar.setValue, ScrollBar.bound.
  rewrite qMax_spec, qMin_spec.
  replace (Z.max _ (Z.min _ val)) with val by lia.
  destruct (negb (val =? sb_value (verticalScrollBar v))); repeat split.
Qed.

(** X4: on a non-degenerate view whose scroll bar starts at 0, holds its
    value within its range and reaches the bottom of the tile, [scrollTo]
    of a valid row leaves the tile of that row entirely inside the
    viewport; it does not change the view at all when the tile already
    was. *)
Theorem scrollTo_makes_visible
  (v : ImageListView) (rows : list string) (i : Z) :
  model v = Some rows ->
  1 <= m_columnCount v -> 1 <= tile_width v -> 1 <= tile_height v ->
  0 <= i < rowCount rows ->
  viewport_width v <= Int32.INT_MAX ->
  viewport_height v <= Int32.INT_MAX ->
  sb_minimum (verticalScrollBar v) = 0 ->
  0 <= verticalOffset v <= sb_maximum (verticalScrollBar v) ->
  sb_maximum (verticalScrollBar v) <= Int32.INT_MAX ->
  (Z.quot i (m_columnCount v) + 1) * tile_height v <= Int32.INT_MAX ->
  (Z.quot i (m_columnCount v) + 1) * tile_height v - viewport_height v
    <= sb_maximum (verticalScrollBar v) ->
  exists rect v' rect',
    visualRect v (Some i) = Some rect /\
    scrollTo v (Some i) = Some v' /\
    visualRect v' (Some i) = Some rect' /\
    0 <= y1 rect' /\ y2 rect' <= viewport_height v - 1 /\
    x1 rect' = x1 rect /\ x2 rect' = x2 rect /\
    (0 <= y1 rect -> y2 rect <= viewport_height v - 1 -> v' = v).
Proof.
  intros Hm Hcc Hw Hh Hi Hvw Hvh Hmin Hoff Hmax Hbottom Hreach.
  pose proof (visualRect_exact v i Hcc Hw Hh ltac:(lia) Hvw
                ltac:(lia) Hbottom) as Hrect.
  eexists. unfold scrollTo. rewrite Hrect. cbn [bind y1 y2].
  assert (Hth : tile_height v <= viewport_height v)
    by (unfold tile_height; rewrite qMin_spec; lia).
  pose proof (Z.quot_pos i (m_columnCount v) ltac:(lia) ltac:(lia)) as Hr.
  set (r := Z.quot i (m_columnCount v)) in *.
  set (h := tile_height v) in *. set (vh := viewport_height v) in *.
  fold (verticalOffset v). set (off := verticalOffset v) in *.
  assert (Ev1 : y1 (viewport_rect v) = 0) by reflexivity.
  assert (Ev2 : y2 (viewport_rect v) = vh - 1).
  { unfold viewport_rect, Rect.make. cbn [y2]. fold vh. int_exact. lia. }
  rewrite Ev1, Ev2.
  assert (Hgeo : forall val,
             sb_minimum (verticalScrollBar v) <= val <= sb_maximum (verticalScrollBar v) ->
             visualRect (scrollBarSetValue val v) (Some i)
             = Some (mkCorners
                       (Z.rem i (m_columnCount v) * tile_width v)
                       (r * h - val)
                       (Z.rem i (m_columnCount v) * tile_width v + tile_width v - 1)
                       (r * h - val + h - 1))).
  { intros val Hval.
    destruct (scrollBarSetValue_in_range val v Hval) as (Eo & Ec & Ew & Ehh & Em).
    assert (Etw : tile_width (scrollBarSetValue val v) = tile_width v)
      by (unfold tile_width; now rewrite Ec, Ew).
    assert (Eth : tile_height (scrollBarSetValue val v) = h)
      by (unfold h, tile_height; now rewrite Etw, Ehh).
    rewrite (visualRect_exact (scrollBarSetValue val v) i);
      rewrite ?Ec, ?Etw, ?Eth, ?Eo, ?Ew; try lia.
    reflexivity. }
  destruct (Z.ltb_spec (r * h - off) 0) as [Habove|Habove].
  - assert (E : Int32.sub (Int32.add off (r * h - off)%Z) 0 = r * h)
      by (int_exact; lia).
    rewrite E. do 2 eexists. split; [reflexivity|]. split; [reflexivity|].
    split; [apply Hgeo; nia|]. cbn [x1 x2 y1 y2]. repeat split; try lia.
  - destruct (Z.ltb_spec (vh - 1) (r * h - off + h - 1)) as [Hbelow|Hbelow].
    + assert (E : Int32.add off
                    (Int32.qMin (Int32.sub (r * h - off + h - 1)%Z (vh - 1)%Z)
                                (Int32.sub (r * h - off)%Z 0))
                  = r * h + h - vh).
      { assert (E1 : Int32.sub (r * h - off + h - 1)%Z (vh - 1)%Z
                     = r * h - off + h - vh) by (int_exact; lia).
        assert (E2 : Int32.sub (r * h - off)%Z 0 = r * h - off) by (int_exact; lia).
        rewrite E1, E2, qMin_spec. rewrite Z.min_l by lia. int_exact. lia. }
      rewrite E. do 2 eexists. split; [reflexivity|]. split; [reflexivity|].
      split; [apply Hgeo; nia|]. cbn [x1 x2 y1 y2]. repeat split; try lia.
    + do 2 eexists. split; [reflexivity|]. split; [reflexivity|].
      split; [exact Hrect|]. cbn [x1 x2 y1 y2]. repeat split; lia.
Qed.

(** X4, witness: row 11 of the scrollable twelve-row example lies in the
    third tile row, below the viewport. *)
Lemma scrollTo_makes_visible_witness :
  exists rect v' rect',
    visualRect twelve_scrollable (Some 11) = Some rect /\
    scrollTo twelve_scrollable (Some 11) = Some v' /\
    visualRect v' (Some 11) = Some rect' /\
    0 <= y1 rect' /\ y2 rect' <= viewport_height twelve_scrollable - 1 /\
    x1 rect' = x1 rect /\ x2 rect' = x2 rect /\
    (0 <= y1 rect -> y2 rect <= viewport_height twelve_scrollable - 1 ->
     v' = twelve_scrollable).
Proof.
  apply (scrollTo_makes_visible twelve_scrollable twelve_rows 11);
    try reflexivity; vm_compute; intuition discriminate.
Defined.

(** Scrolling to row 11 moves the scroll bar by the 100 pixels the third
    tile row lies below the viewport, and pushes a load event. *)
Example scrollTo_row_11 :
  exists v',
    scrollTo twelve_scrollable (Some 11) = Some v' /\
    verticalOffset v' = 100 /\
    m_loadEventStream v' = 1%nat /\
    visualRect v' (Some 11) = Some (mkCorners 100 100 199 199).
Proof.
  eexists. split; [reflexivity|]. repeat split.
Qed.

(** ** The range of the viewport *)

Lemma span_proper (lo hi : Z) :
  Int32.in_range (hi - lo) -> 0 <= hi - lo + 1 <= Int32.INT_MAX ->
  Rect.span lo hi = (lo, hi).
Proof.
  intros H1 H2. unfold Rect.span.
  assert (E : Int32.add (Int32.sub hi lo) 1 = hi - lo + 1) by (int_exact; lia).
  rewrite E. destruct (Z.ltb_spec (hi - lo + 1) 0); [lia|reflexivity].
Qed.

(** Two rectangles of non-negative size that intersect overlap on the
    vertical axis. *)
Lemma intersects_overlap_y (a b : QRect) :
  Int32.in_range (x2 a - x1 a) -> 0 <= x2 a - x1 a + 1 <= Int32.INT_MAX ->
  Int32.in_range (y2 a - y1 a) -> 0 <= y2 a - y1 a + 1 <= Int32.INT_MAX ->
  Int32.in_range (x2 b - x1 b) -> 0 <= x2 b - x1 b + 1 <= Int32.INT_MAX ->
  Int32.in_range (y2 b - y1 b) -> 0 <= y2 b - y1 b + 1 <= Int32.INT_MAX ->
  Rect.intersects a b = true ->
  y1 a <= y2 b /\ y1 b <= y2 a.
Proof.
  intros Ax1 Ax2 Ay1 Ay2 Bx1 Bx2 By1 By2. unfold Rect.intersects.
  destruct (Rect.isNull a || Rect.isNull b); [discriminate|].
  rewrite !span_proper by assumption.
  destruct ((x2 b <? x1 a) || (x2 a <? x1 b)); [discriminate|].
  destruct (Z.ltb_spec (y2 b) (y1 a)); [discriminate|].
  destruct (Z.ltb_spec (y2 a) (y1 b)); [discriminate|].
  intros _. lia.
Qed.

Lemma quot_bounds (a b : Z) :
  0 <= a -> 0 < b -> b * Z.quot a b <= a < b * (Z.quot a b + 1).
Proof.
  intros Ha Hb. rewrite Z.quot_div_nonneg by lia.
  pose proof (Z.mul_div_le a b Hb). pose proof (Z.mul_succ_div_gt a b Hb). lia.
Qed.

(** X5: on a non-degenerate view with a non-negative scroll offset, every
    valid row whose tile rectangle intersects the viewport rectangle lies
    in the range [modelIndexRangeForRect] computes for the viewport
    rectangle, the range the snapshot loads. *)
Theorem viewport_range_covers_visible_tiles
  (v : ImageListView) (rows : list string) (i : Z) :
  model v = Some rows ->
  1 <= m_columnCount v -> 1 <= tile_width v -> 1 <= tile_height v ->
  0 <= i < rowCount rows ->
  rowCount rows <= Int32.INT_MAX ->
  viewport_width v <= Int32.INT_MAX ->
  0 <= verticalOffset v ->
  verticalOffset v + viewport_height v <= Int32.INT_MAX ->
  (Z.quot i (m_columnCount v) + 1) * tile_height v <= Int32.INT_MAX ->
  tile_index v (mkQPoint (viewport_width v - 1) (viewport_height v - 1))
    <= Int32.INT_MAX ->
  exists rect first last,
    visualRect v (Some i) = Some rect /\
    modelIndexRangeForRect v (viewport_rect v) = Some (first, last) /\
    (Rect.intersects (viewport_rect v) rect = true -> first <= i < last).
Proof.
  intros Hm Hcc Hw Hh Hi Hn Hvw Hoff Hsum Hbottom Hcorner.
  assert (Hvh : 1 <= viewport_height v)
    by (unfold tile_height in Hh; rewrite qMin_spec in Hh; lia).
  assert (Hoff' : 0 <= verticalOffset v <= Int32.INT_MAX) by lia.
  pose proof (visualRect_exact v i Hcc Hw Hh ltac:(lia) Hvw Hoff' Hbottom) as Hrect.
  assert (Hvw0 : 0 <= viewport_width v).
  { destruct (Z.le_gt_cases 0 (viewport_width v)) as [H|H]; [exact H|].
    pose proof (Z.quot_le_mono (viewport_width v) 0 (m_columnCount v)
                  ltac:(lia) ltac:(lia)) as Hq.
    rewrite Z.quot_0_l in Hq by lia. unfold tile_width in Hw. lia. }
  pose proof (quot_bounds (viewport_width v) (m_columnCount v) Hvw0 ltac:(lia)) as Hfit.
  fold (tile_width v) in Hfit.
  assert (Eview : viewport_rect v
                  = mkCorners 0 0 (viewport_width v - 1) (viewport_height v - 1)).
  { unfold viewport_rect, Rect.make. f_equal; int_exact; lia. }
  assert (Enorm : Rect.normalized (viewport_rect v) = viewport_rect v).
  { rewrite Eview. unfold Rect.normalized. cbn [x1 x2 y1 y2].
    assert (E : Int32.sub 0 1 = -1) by reflexivity. rewrite E.
    destruct (Z.ltb_spec (viewport_width v - 1) (-1)); [lia|].
    destruct (Z.ltb_spec (viewport_height v - 1) (-1)); [lia|]. reflexivity. }
  destruct (range_some v rows Hm Hcc Hw Hh (viewport_rect v) Hn)
    as (si & fi & Hs & Hf & Hrange).
  rewrite Enorm, Eview in Hs, Hf. unfold Rect.topLeft, Rect.bottomRight in Hs, Hf.
  cbn [x1 x2 y1 y2] in Hs, Hf.
  set (cc := m_columnCount v) in *. set (w := tile_width v) in *.
  set (h := tile_height v) in *. set (off := verticalOffset v) in *.
  set (vw := viewport_width v) in *. set (vh := viewport_height v) in *.
  pose proof (quot_bounds off h Hoff ltac:(lia)) as Hr0.
  pose proof (quot_bounds (vh - 1 + off) h ltac:(lia) ltac:(lia)) as Hr1.
  pose proof (quot_bounds (vw - 1) w ltac:(lia) ltac:(lia)) as Hc1.
  pose proof (quot_bounds i cc ltac:(lia) ltac:(lia)) as Hqi.
  pose proof (Z.rem_bound_pos i cc ltac:(lia) ltac:(lia)) as Hc.
  pose proof (Z.quot_rem' i cc) as Hqr.
  assert (Ei0 : tile_index v (mkQPoint 0 0) = Z.quot off h * cc).
  { unfold tile_index. cbn [px py]. fold off h w cc.
    rewrite (Z.quot_0_l w) by lia. rewrite Z.add_0_l. lia. }
  assert (Ei1 : tile_index v (mkQPoint (vw - 1) (vh - 1))
                = Z.quot (vh - 1 + off) h * cc + Z.quot (vw - 1) w).
  { unfold tile_index. cbn [px py]. fold off h w cc. reflexivity. }
  assert (Hq0 : 0 <= Z.quot off h) by (apply Z.quot_pos; lia).
  assert (Hq1 : 0 <= Z.quot (vh - 1 + off) h) by (apply Z.quot_pos; lia).
  assert (Hqc : 0 <= Z.quot (vw - 1) w) by (apply Z.quot_pos; lia).
  assert (Hmono : Z.quot off h <= Z.quot (vh - 1 + off) h)
    by (apply Z.quot_le_mono; lia).
  rewrite Ei1 in Hcorner.
  assert (Hp0 : 0 <= Z.quot off h * cc) by (apply Z.mul_nonneg_nonneg; lia).
  assert (Hp01 : Z.quot off h * cc <= Z.quot (vh - 1 + off) h * cc)
    by (apply Z.mul_le_mono_nonneg_r; lia).
  assert (Hwvw : w <= vw) by (clear - Hfit Hcc Hw; nia).
  assert (Hhvh : h <= vh) by (unfold h, tile_height; rewrite qMin_spec; lia).
  assert (Hx0 : 0 <= Z.rem i cc * w) by (apply Z.mul_nonneg_nonneg; lia).
  assert (Hy0 : 0 <= Z.quot i cc * h)
    by (apply Z.mul_nonneg_nonneg; [apply Z.quot_pos|]; lia).
  rewrite (indexAt_exact v rows Hm Hcc Hw Hh) in Hs;
    [|unfold exact_at; rewrite Ei0; cbn [px py]; fold off;
      unfold Int32.in_range, Int32.INT_MIN, Int32.INT_MAX in *;
      repeat split; lia].
  rewrite (indexAt_exact v rows Hm Hcc Hw Hh) in Hf;
    [|unfold exact_at; rewrite Ei1; cbn [px py]; fold off;
      unfold Int32.in_range, Int32.INT_MIN, Int32.INT_MAX in *;
      repeat split; lia].
  rewrite Ei0 in Hs. rewrite Ei1 in Hf.
  injection Hs as <-. injection Hf as <-.
  do 3 eexists. split; [exact Hrect|]. split; [exact Hrange|].
  intros Hint. rewrite Eview in Hint.
  apply intersects_overlap_y in Hint; cbn [x1 x2 y1 y2];
    try (unfold Int32.in_range, Int32.INT_MIN, Int32.INT_MAX in *; lia).
  cbn [y1 y2] in Hint. fold cc w h off in Hint. destruct Hint as [Hup Hdown].
  assert (Hrow0 : Z.quot off h <= Z.quot i cc)
    by (clear - Hup Hr0 Hh; nia).
  assert (Hrow1 : Z.quot i cc <= Z.quot (vh - 1 + off) h)
    by (clear - Hdown Hr1 Hh; nia).
  assert (Hcol : Z.rem i cc <= Z.quot (vw - 1) w)
    by (clear - Hc Hc1 Hfit Hw Hcc; nia).
  assert (Hlo : Z.quot off h * cc <= i)
    by (clear - Hrow0 Hqr Hc Hcc Hq0; nia).
  assert (Hhi : i <= Z.quot (vh - 1 + off) h * cc + Z.quot (vw - 1) w)
    by (clear - Hrow1 Hcol Hqr Hcc; nia).
  split.
  - destruct ((0 <=? _) && (_ <? rowCount rows)) eqn:E; cbn [valid_row_or]; lia.
  - destruct (Z.leb_spec 0 (Z.quot (vh - 1 + off) h * cc + Z.quot (vw - 1) w));
      destruct (Z.ltb_spec (Z.quot (vh - 1 + off) h * cc + Z.quot (vw - 1) w)
                           (rowCount rows));
      cbn [andb]; lia.
Qed.

(** X5, witness: row 7 of the twelve-row example, in the second of the
    two visible tile rows. *)
Lemma viewport_range_covers_visible_tiles_witness :
  exists rect first last,
    visualRect twelve_in_five (Some 7) = Some rect /\
    modelIndexRangeForRect twelve_in_five (viewport_rect twelve_in_five)
      = Some (first, last) /\
    (Rect.intersects (viewport_rect twelve_in_five) rect = true ->
     first <= 7 < last).
Proof.
  apply (viewport_range_covers_visible_tiles twelve_in_five twelve_rows 7);
    try reflexivity; vm_compute; intuition discriminate.
Defined.

(** ** Selection by rectangle *)

Lemma rows_between_cons (a b : Z) :
  a < b -> rows_between a b = a :: rows_between (a + 1) b.
Proof.
  intros H. unfold rows_between.
  replace (Z.to_nat (b - a)) with (S (Z.to_nat (b - (a + 1)))) by lia.
  cbn [seq map]. f_equal; [lia|].
  rewrite <- seq_shift, map_map. apply map_ext. intros k. lia.
Qed.

Lemma rows_between_nil (a b : Z) : b <= a -> rows_between a b = [].
Proof.
  intros H. unfold rows_between.
  replace (Z.to_nat (b - a)) with 0%nat by lia. reflexivity.
Qed.

Lemma rows_between_snoc (a b : Z) :
  a <= b -> rows_between a (b + 1) = rows_between a b ++ [b].
Proof.
  intros H. unfold rows_between.
  replace (Z.to_nat (b + 1 - a)) with (Z.to_nat (b - a) + 1)%nat by lia.
  rewrite seq_app, map_app. cbn [seq map Nat.add]. f_equal. f_equal. lia.
Qed.

Lemma rows_of_runs_snoc (runs : list (Z * Z)) (b e : Z) :
  rows_of_runs (runs ++ [(b, e)]) = rows_of_runs runs ++ rows_between b (e + 1).
Proof.
  unfold rows_of_runs. rewrite map_app, concat_app. cbn [map List.concat fst snd].
  now rewrite app_nil_r.
Qed.

Lemma separated_runs_snoc (lo hi b e : Z) (runs : list (Z * Z)) :
  separated_runs lo (b - 1) runs -> lo <= b -> b <= e -> e < hi ->
  separated_runs lo hi (runs ++ [(b, e)]).
Proof.
  revert lo. induction runs as [|[b0 e0] runs IH]; intros lo Hruns Hlo Hbe Hhi.
  - cbn. repeat split; lia.
  - cbn [app separated_runs] in *. destruct Hruns as (H1 & H2 & H3 & H4).
    repeat split; try lia. apply IH; try assumption. lia.
Qed.

Lemma selection_loop_spec (v : ImageListView) (rows : list string) (rect : QRect)
      (lo : Z) (n : nat) :
  1 <= m_columnCount v ->
  forall (a : Z) (state : Z * Z * list (Z * Z)),
    0 <= lo <= a ->
    a + Z.of_nat n <= Int32.INT_MAX ->
    loop_state lo a state ->
    exists state',
      selection_loop v rows rect (rows_between a (a + Z.of_nat n))
                     (fst (fst state)) (snd (fst state)) (snd state)
      = Some state' /\
      loop_state lo (a + Z.of_nat n) state' /\
      rows_of_runs (finished_runs state')
      = rows_of_runs (finished_runs state)
        ++ filter (tile_hits v rows rect) (rows_between a (a + Z.of_nat n)).
Proof.
  intros Hcc. induction n as [|n IH]; intros a [[bg en] mg] Hlo Hmax Hst.
  - rewrite rows_between_nil by lia. cbn [selection_loop fst snd filter].
    eexists. split; [reflexivity|]. rewrite Z.add_0_r, app_nil_r. now split.
  - rewrite rows_between_cons by lia.
    replace (a + Z.of_nat (S n)) with ((a + 1) + Z.of_nat n) in * by lia.
    cbn [selection_loop fst snd filter].
    destruct (visualRect_some v (model_index rows a) Hcc) as [indexRect E].
    assert (Hhit : tile_hits v rows rect a = Rect.intersects indexRect rect)
      by (unfold tile_hits; now rewrite E).
    rewrite E, Hhit. cbn [bind]. unfold finished_runs at 2.
    destruct (Rect.intersects indexRect rect).
    + destruct (Z.eqb_spec bg (-1)) as [Hbg|Hbg]; cbn [negb].
      * (* the first row of the first run *)
        destruct Hst as [[_ ->]|Hst]; [|lia].
        destruct (IH (a + 1) (a, a, []) ltac:(lia) Hmax) as (st' & Hl & Hs & Hr).
        { right. cbn. repeat split; lia. }
        exists st'. cbn [fst snd] in Hl. split; [exact Hl|]. split; [exact Hs|].
        unfold finished_runs in Hr at 2. rewrite Hr.
        destruct (Z.eqb_spec a (-1)); [lia|]. cbn [negb].
        unfold rows_of_runs. cbn [map List.concat fst snd app].
        rewrite rows_between_cons, rows_between_nil by lia. reflexivity.
      * destruct Hst as [[Habs _]|(H1 & H2 & H3 & H4)]; [contradiction|].
        assert (Een : Int32.add en 1 = en + 1) by (int_exact; lia).
        rewrite Een.
        destruct (Z.eqb_spec (en + 1) a) as [Hadj|Hgap].
        -- (* the run grows by one row *)
           destruct (IH (a + 1) (bg, a, mg) ltac:(lia) Hmax) as (st' & Hl & Hs & Hr).
           { right. repeat split; try lia. exact H4. }
           exists st'. cbn [fst snd] in Hl. split; [exact Hl|]. split; [exact Hs|].
           unfold finished_runs in Hr at 2. rewrite Hr.
           destruct (Z.eqb_spec bg (-1)); [contradiction|]. cbn [negb].
           rewrite !rows_of_runs_snoc. rewrite (rows_between_snoc bg a) by lia.
           subst a. rewrite <- !app_assoc. reflexivity.
        -- (* the run is merged and a new one starts *)
           destruct (IH (a + 1) (a, a, mg ++ [(bg, en)]) ltac:(lia) Hmax)
             as (st' & Hl & Hs & Hr).
           { right. repeat split; try lia.
             apply separated_runs_snoc; try lia. exact H4. }
           exists st'. cbn [fst snd] in Hl. split; [exact Hl|]. split; [exact Hs|].
           unfold finished_runs in Hr at 2. rewrite Hr.
           destruct (Z.eqb_spec a (-1)); [lia|]. cbn [negb].
           rewrite (rows_of_runs_snoc (mg ++ [(bg, en)]) a a).
           rewrite (rows_between_cons a (a + 1)), rows_between_nil by lia.
           rewrite <- !app_assoc. reflexivity.
    + destruct (IH (a + 1) (bg, en, mg) ltac:(lia) Hmax) as (st' & Hl & Hs & Hr).
      { destruct Hst as [Hst|(H1 & H2 & H3 & H4)]; [now left|right].
        repeat split; try lia. exact H4. }
      exists st'. split; [exact Hl|]. split; [exact Hs|exact Hr].
Qed.

(** X6: on a non-degenerate view [setSelection] merges into the selection
    it hands to the selection model, one run per [merge] call, exactly
    the rows of the range of the rectangle whose tile rectangle
    intersects the rectangle, in increasing order and grouped into runs
    of successive rows that are as long as possible: two runs are never
    adjacent. *)
Theorem setSelection_runs
  (v : ImageListView) (rows : list string) (rect : QRect) :
  model v = Some rows ->
  1 <= m_columnCount v -> 1 <= tile_width v -> 1 <= tile_height v ->
  rowCount rows <= Int32.INT_MAX ->
  exists first last runs,
    modelIndexRangeForRect v rect = Some (first, last) /\
    setSelection v rect = Some runs /\
    rows_of_runs runs = filter (tile_hits v rows rect) (rows_between first last) /\
    separated_runs first last runs.
Proof.
  intros Hm Hcc Hw Hh Hn.
  destruct (range_some v rows Hm Hcc Hw Hh rect Hn) as (si & fi & Hs & Hf & Hr).
  set (first := valid_row_or 0 si) in *.
  set (last := match fi with Some i => i + 1 | None => rowCount rows end) in *.
  assert (H0 : 0 <= rowCount rows) by (unfold rowCount; lia).
  assert (Hfirst : 0 <= first <= rowCount rows).
  { subst first. destruct si as [i|]; cbn [valid_row_or]; [|lia].
    apply (indexAt_valid v rows Hm) in Hs. lia. }
  assert (Hlast : 0 <= last <= rowCount rows).
  { subst last. destruct fi as [i|]; [|lia].
    apply (indexAt_valid v rows Hm) in Hf. lia. }
  exists first, last. unfold setSelection. rewrite Hr, Hm. cbn [bind fst snd].
  destruct (Z.le_gt_cases last first) as [Hempty|Hrows].
  - rewrite rows_between_nil by lia. cbn [selection_loop bind Z.eqb negb filter].
    exists []. repeat split.
  - destruct (selection_loop_spec v rows rect first (Z.to_nat (last - first)) Hcc
                first (-1, -1, []) ltac:(lia) ltac:(lia))
      as ([[bg en] mg] & Hl & Hst & Hrows').
    { now left. }
    replace (first + Z.of_nat (Z.to_nat (last - first))) with last in * by lia.
    cbn [fst snd] in Hl. rewrite Hl. cbn [bind].
    cbn [finished_runs Z.eqb negb rows_of_runs map List.concat app] in Hrows'.
    unfold finished_runs in Hrows'.
    destruct (Z.eqb_spec bg (-1)) as [Hbg|Hbg]; cbn [negb] in *.
    + exists mg. split; [reflexivity|]. split; [reflexivity|].
      split; [exact Hrows'|].
      destruct Hst as [[_ ->]|Hst]; [exact I|lia].
    + exists (mg ++ [(bg, en)]). split; [reflexivity|]. split; [reflexivity|].
      split; [exact Hrows'|].
      destruct Hst as [[Habs _]|(H1 & H2 & H3 & H4)]; [contradiction|].
      now apply separated_runs_snoc.
Qed.

(** X6, witness: a rectangle over the tiles of the rows 1, 2, 6 and 7 of
    the twelve-row example. *)
Lemma setSelection_runs_witness :
  exists first last runs,
    modelIndexRangeForRect twelve_in_five (Rect.make 150 50 100 100)
      = Some (first, last) /\
    setSelection twelve_in_five (Rect.make 150 50 100 100) = Some runs /\
    rows_of_runs runs
    = filter (tile_hits twelve_in_five twelve_rows (Rect.make 150 50 100 100))
             (rows_between first last) /\
    separated_runs first last runs.
Proof.
  apply (setSelection_runs twelve_in_five twelve_rows);
    try reflexivity; vm_compute; intuition discriminate.
Defined.

(** The rubber band from (150, 50) to (249, 149) selects the two runs of
    the rows 1 to 2 and 6 to 7. *)
Example setSelection_two_runs :
  modelIndexRangeForRect twelve_in_five (Rect.make 150 50 100 100) = Some (1, 8) /\
  setSelection twelve_in_five (Rect.make 150 50 100 100) = Some [(1, 2); (6, 7)].
Proof. split; reflexivity. Qed.

(** ** The scroll bar after a layout *)

(** Setting a range that starts at 0 on a scroll bar whose value lies in
    its range. *)
Lemma apply_setRange_spec (hi : Z) (v : ImageListView) :
  sb_minimum (verticalScrollBar v) <= sb_value (verticalScrollBar v)
    <= sb_maximum (verticalScrollBar v) ->
  sb_minimum (verticalScrollBar (apply_setRange 0 hi v)) = 0 /\
  sb_maximum (verticalScrollBar (apply_setRange 0 hi v)) = Z.max 0 hi /\
  verticalOffset (apply_setRange 0 hi v)
    = Z.max 0 (Z.min (Z.max 0 hi) (verticalOffset v)) /\
  m_loadEventStream (apply_setRange 0 hi v)
    = (if verticalOffset (apply_setRange 0 hi v) =? verticalOffset v
       then m_loadEventStream v else S (m_loadEventStream v)) /\
  m_columnCount (apply_setRange 0 hi v) = m_columnCount v /\
  viewport_width (apply_setRange 0 hi v) = viewport_width v /\
  viewport_height (apply_setRange 0 hi v) = viewport_height v /\
  model (apply_setRange 0 hi v) = model v.
Proof.
  intros Hval. unfold apply_setRange, ScrollBar.setRange, verticalOffset.
  rewrite qMax_spec.
  destruct (Z.eqb_spec (sb_minimum (verticalScrollBar v)) 0) as [Emin|Emin];
    destruct (Z.eqb_spec (sb_maximum (verticalScrollBar v)) (Z.max 0 hi)) as [Emax|Emax];
    cbn [andb].
  1: { cbn [set_verticalScrollBar verticalScrollBar m_loadEventStream m_columnCount
            viewport_width viewport_height model].
       rewrite Emin, Emax in *.
       replace (Z.max 0 (Z.min (Z.max 0 hi) (sb_value (verticalScrollBar v))))
         with (sb_value (verticalScrollBar v)) by lia.
       rewrite Z.eqb_refl. repeat split. }
  all: unfold ScrollBar.setValue, ScrollBar.bound;
    cbn [ScrollBar.with_range ScrollBar.with_value sb_value sb_minimum sb_maximum];
    rewrite qMax_spec, qMin_spec;
    destruct (Z.eqb_spec (Z.max 0 (Z.min (Z.max 0 hi) (sb_value (verticalScrollBar v))))
                         (sb_value (verticalScrollBar v))) as [E|E];
    cbn [negb set_verticalScrollBar verticalScrollBar m_loadEventStream
         m_columnCount viewport_width viewport_height model
         verticalScrollbarValueChanged emitLoadEvent set_loadEventStream
         sb_value sb_minimum sb_maximum];
    repeat split;
    cbn [ScrollBar.with_value sb_value];
    destruct (Z.eqb_spec (Z.max 0 (Z.min (Z.max 0 hi) (sb_value (verticalScrollBar v))))
                         (sb_value (verticalScrollBar v)));
    congruence.
Qed.

(** What [updateGeometries] returns: the cache gets its capacity, the
    scroll bar a range from 0, and in the scrolling case its steps. *)
Lemma updateGeometries_shape (v v' : ImageListView) :
  updateGeometries v = Some v' ->
  exists m hi,
    let v1 := apply_setRange 0 hi
                (set_imageCache (Cache.setMaxCost m (m_imageCache v)) v) in
    v' = v1 \/
    exists pageStep singleStep,
      v' = set_verticalScrollBar
             (ScrollBar.setSingleStep singleStep
                (ScrollBar.setPageStep pageStep (verticalScrollBar v1))) v1.
Proof.
  unfold updateGeometries. destruct (model v) as [rows|]; [|discriminate].
  cbn [bind].
  destruct (Int32.div (rowCount rows) (m_columnCount v)) as [q|]; [|discriminate].
  destruct (Int32.rem (rowCount rows) (m_columnCount v)) as [m|]; [|discriminate].
  cbn [bind].
  destruct (Int32.div _ (m_columnCount v)) as [tw|]; [|discriminate].
  cbn [bind].
  match goal with |- (if ?b then _ else _) = _ -> _ => destruct b end.
  - destruct (Int32.div _ (m_columnCount v)) as [tw2|]; [|discriminate].
    cbn [bind].
    destruct (Int32.div (viewport_height v) _) as [pages|]; [|discriminate].
    cbn [bind].
    destruct (Int32.div _ 2) as [ss|]; [|discriminate].
    cbn [bind]. intros H. injection H as <-.
    do 2 eexists. right. do 2 eexists. reflexivity.
  - intros H. injection H as <-. do 2 eexists. left. reflexivity.
Qed.

(** X7: when [updateGeometries] lays out a view whose scroll bar holds
    its value within its range, the scroll bar afterwards ranges from 0
    to a maximum that is not negative, the scroll offset is the old one
    clamped into the new range, and a load event is pushed exactly when
    the offset had to move; the column count, the viewport size and the
    model are left as they are. *)
Theorem updateGeometries_clamps_scroll_offset (v v' : ImageListView) :
  updateGeometries v = Some v' ->
  sb_minimum (verticalScrollBar v) <= sb_value (verticalScrollBar v)
    <= sb_maximum (verticalScrollBar v) ->
  sb_minimum (verticalScrollBar v') = 0 /\
  0 <= verticalOffset v' <= sb_maximum (verticalScrollBar v') /\
  verticalOffset v'
    = Z.max 0 (Z.min (sb_maximum (verticalScrollBar v')) (verticalOffset v)) /\
  m_loadEventStream v'
    = (if verticalOffset v' =? verticalOffset v
       then m_loadEventStream v else S (m_loadEventStream v)) /\
  m_columnCount v' = m_columnCount v /\
  viewport_width v' = viewport_width v /\
  viewport_height v' = viewport_height v /\
  model v' = model v.
Proof.
  intros Hgeo Hval.
  destruct (updateGeometries_shape v v' Hgeo) as (m & hi & Hshape).
  cbv zeta in Hshape.
  pose proof (apply_setRange_spec hi
                (set_imageCache (Cache.setMaxCost m (m_imageCache v)) v) Hval)
    as (Hmin & Hmax & Hoff & Hev & Hcc & Hw & Hh & Hm).
  set (v1 := apply_setRange 0 hi
               (set_imageCache (Cache.setMaxCost m (m_imageCache v)) v)) in *.
  assert (Hgoal :
    sb_minimum (verticalScrollBar v1) = 0 /\
    0 <= verticalOffset v1 <= sb_maximum (verticalScrollBar v1) /\
    verticalOffset v1
      = Z.max 0 (Z.min (sb_maximum (verticalScrollBar v1)) (verticalOffset v)) /\
    m_loadEventStream v1
      = (if verticalOffset v1 =? verticalOffset v
         then m_loadEventStream v else S (m_loadEventStream v)) /\
    m_columnCount v1 = m_columnCount v /\
    viewport_width v1 = viewport_width v /\
    viewport_height v1 = viewport_height v /\
    model v1 = model v).
  { rewrite Hmax.
    change (verticalOffset (set_imageCache (Cache.setMaxCost m (m_imageCache v)) v))
      with (verticalOffset v) in *.
    split; [exact Hmin|]. split; [rewrite Hoff; lia|]. split; [exact Hoff|].
    split; [exact Hev|]. repeat split; assumption. }
  destruct Hshape as [->|(ps & ss & ->)]; [exact Hgoal|].
  exact Hgoal.
Qed.

(** X7, witness: the scrollable twelve-row example scrolled to the bottom
    and then made 400 pixels high, so that its three tile rows fit. *)
Lemma updateGeometries_clamps_scroll_offset_witness :
  exists v',
    updateGeometries (set_viewport 500 400 (scrollBarSetValue 100 twelve_scrollable))
      = Some v' /\
    sb_minimum (verticalScrollBar v') = 0 /\
    0 <= verticalOffset v' <= sb_maximum (verticalScrollBar v') /\
    verticalOffset v'
      = Z.max 0 (Z.min (sb_maximum (verticalScrollBar v'))
                       (verticalOffset
                          (set_viewport 500 400
                             (scrollBarSetValue 100 twelve_scrollable)))).
Proof.
  destruct (updateGeometries
              (set_viewport 500 400 (scrollBarSetValue 100 twelve_scrollable)))
    as [v'|] eqn:E; [|vm_compute in E; discriminate].
  exists v'. split; [reflexivity|].
  destruct (updateGeometries_clamps_scroll_offset
              (set_viewport 500 400 (scrollBarSetValue 100 twelve_scrollable)) v'
              E ltac:(vm_compute; intuition discriminate))
    as (H1 & H2 & H3 & _).
  split; [exact H1|]. split; [exact H2|]. exact H3.
Defined.

(** In that example the offset falls from 100 to 0 and one load event is
    pushed. *)
Example heightened_view_scrolls_back :
  option_map (fun v' => (verticalOffset v', sb_maximum (verticalScrollBar v'),
                         m_loadEventStream v'))
    (updateGeometries (set_viewport 500 400 (scrollBarSetValue 100 twelve_scrollable)))
  = Some (0, 0,
          S (m_loadEventStream
               (set_viewport 500 400 (scrollBarSetValue 100 twelve_scrollable)))).
Proof. vm_compute. reflexivity. Qed.

(** ** One load cycle *)








(** In that example the ten files are read once each, in row order, and
    one repaint of the two tile rows is requested. *)
Example load_cycle_twelve_rows :
  option_map (fun s' => (rev (loads s'), updates s',
                         map fst (entries (m_imageCache (view s')))))
    (run all_files (load_cycle 1 10) (start (emitLoadEvent twelve_in_five)))
  = Some (["a"; "b"; "c"; "d"; "e"; "f"; "g"; "h"; "i"; "j"]%string,
          [mkCorners 0 0 499 199],
          ["j"; "i"; "h"; "g"; "f"; "e"; "d"; "c"; "b"; "a"]%string).
Proof. vm_compute. reflexivity. Qed.

(** ** Painting *)

(** [QCache::object] finds what [lookup] finds and changes no
    association. *)
Lemma cache_object_spec (k : string) (c : QCache) :
  fst (cache_object k c) = Cache.lookup k c /\
  mx (snd (cache_object k c)) = mx c /\
  forall k', Cache.lookup k' (snd (cache_object k c)) = Cache.lookup k' c.
Proof.
  unfold cache_object. destruct (Cache.lookup k c) as [img|] eqn:E;
    cbn [fst snd mx]; repeat split.
  intros k'. destruct (String.eqb_spec k k') as [->|Hne].
  - rewrite E. unfold Cache.lookup. cbn [entries find fst snd].
    now rewrite String.eqb_refl.
  - unfold Cache.lookup at 1. cbn [entries find fst].
    destruct (String.eqb_spec k k') as [|_]; [contradiction|].
    change (match find (fun e => String.eqb (fst e) k') (Cache.unlink k (entries c)) with
            | Some e => Some (snd e)
            | None => None
            end)
      with (Cache.lookup k' (mkCache (mx c) (Cache.unlink k (entries c)))).
    rewrite (lookup_unlink_other k k' (entries c) (mx c) (mx c)) by congruence.
    now destruct c.
Qed.

Lemma tile_ops_ext (v : ImageListView) (rows : list string)
      (selected : Z -> bool) (cur : option Z) (c1 c2 : QCache) (r : Z) :
  (forall k, Cache.lookup k c1 = Cache.lookup k c2) ->
  tile_ops v rows selected cur c1 r = tile_ops v rows selected cur c2 r.
Proof.
  intros H. unfold tile_ops.
  destruct (model_index rows r) as [i|]; [|reflexivity].
  now rewrite H.
Qed.

(** The loop of [paintEvent] draws each row from what the cache
    associates with its file name, and changes no association. *)
Lemma paint_rows_spec (v : ImageListView) (rows : list string)
      (selected : Z -> bool) (cur : option Z) (l : list Z)
      (cache cache' : QCache) (ops : list PaintOp) :
  paint_rows v rows selected cur l cache = Some (cache', ops) ->
  ops = flat_map (tile_ops v rows selected cur cache) l /\
  mx cache' = mx cache /\
  forall k, Cache.lookup k cache' = Cache.lookup k cache.
Proof.
  revert cache cache' ops.
  induction l as [|r rest IH]; intros cache cache' ops Hp; cbn [paint_rows] in Hp.
  - injection Hp as <- <-. now repeat split.
  - cbn [flat_map]. unfold tile_ops at 1.
    destruct (model_index rows r) as [i|]; [|exact (IH _ _ _ Hp)].
    destruct (visualRect v (Some i)) as [rect|]; [|discriminate].
    cbn [bind] in Hp.
    destruct (negb (Rect.isValid rect) || (y2 rect <? 0)
              || (viewport_height v <? y1 rect)); [exact (IH _ _ _ Hp)|].
    pose proof (cache_object_spec (model_data rows i) cache) as (Hfst & Hmx & Hlk).
    destruct (cache_object (model_data rows i) cache) as [ptr cache1].
    cbn [fst snd] in Hfst, Hmx, Hlk.
    destruct (paint_rows v rows selected cur rest cache1) as [[c2 ops2]|] eqn:E;
      [|discriminate].
    cbn [bind fst snd] in Hp. injection Hp as <- <-.
    destruct (IH _ _ _ E) as (Hops & Hmx2 & Hlk2).
    split; [|split; [congruence|intros k; now rewrite Hlk2, Hlk]].
    rewrite Hfst. cbn [app]. f_equal. f_equal. rewrite Hops.
    apply flat_map_ext. intros a. now apply tile_ops_ext.
Qed.

(** X9: [paintEvent] changes no association of the cache: every file
    name is cached with the same image as before, or with none as before
    (only the order of use changes), the capacity stays and nothing else
    of the view changes.  Every image it draws is the cached image of a
    row of the event's range, the loading text is drawn only for rows
    whose file name has no cache entry, and every row of the range whose
    tile reaches into the viewport's height is drawn one way or the
    other, a cached null image included. *)
Theorem paintEvent_spec
  (v v' : ImageListView) (eventRect : QRect) (selected : Z -> bool)
  (currentIndex : option Z) (ops : list PaintOp) :
  paintEvent v eventRect selected currentIndex = Some (v', ops) ->
  exists rows first last,
    model v = Some rows /\
    modelIndexRangeForRect v eventRect = Some (first, last) /\
    v' = set_imageCache (m_imageCache v') v /\
    mx (m_imageCache v') = mx (m_imageCache v) /\
    (forall k, Cache.lookup k (m_imageCache v') = Cache.lookup k (m_imageCache v)) /\
    (forall tile img, In (DrawImage tile img) ops ->
       exists r, first <= r < last /\ 0 <= r < rowCount rows /\
                 visualRect v (Some r) = Some tile /\
                 Cache.lookup (model_data rows r) (m_imageCache v) = Some img) /\
    (forall tile, In (DrawLoading tile) ops ->
       exists r, first <= r < last /\ 0 <= r < rowCount rows /\
                 visualRect v (Some r) = Some tile /\
                 Cache.lookup (model_data rows r) (m_imageCache v) = None) /\
    (forall r tile, first <= r < last -> 0 <= r < rowCount rows ->
       visualRect v (Some r) = Some tile -> painted v tile ->
       In (match Cache.lookup (model_data rows r) (m_imageCache v) with
           | Some img => DrawImage tile img
           | None => DrawLoading tile
           end) ops).
Proof.
  unfold paintEvent. intros Hp.
  destruct (modelIndexRangeForRect v eventRect) as [[first last]|]; [|discriminate].
  destruct (model v) as [rows|]; [|discriminate].
  cbn [bind fst snd] in Hp.
  destruct (paint_rows v rows selected currentIndex (rows_between first last)
                       (m_imageCache v)) as [[c' ops']|] eqn:E; [|discriminate].
  cbn [bind fst snd] in Hp. injection Hp as <- <-.
  destruct (paint_rows_spec _ _ _ _ _ _ _ _ E) as (Hops & Hmx & Hlk).
  exists rows, first, last.
  split; [reflexivity|]. split; [reflexivity|]. split; [reflexivity|].
  split; [exact Hmx|]. split; [exact Hlk|].
  assert (Hin : forall op, In op ops' <->
            exists r, first <= r < last /\
                      In op (tile_ops v rows selected currentIndex (m_imageCache v) r)).
  { intros op. rewrite Hops, in_flat_map. split.
    - intros (r & Hr & Hop). exists r. split; [now apply In_rows_between|exact Hop].
    - intros (r & Hr & Hop). exists r. split; [now apply In_rows_between|exact Hop]. }
  assert (Hvalid : forall r i, model_index rows r = Some i ->
                               i = r /\ 0 <= r < rowCount rows).
  { intros r i. unfold model_index.
    destruct (Z.leb_spec 0 r); destruct (Z.ltb_spec r (rowCount rows));
      cbn [andb]; intros Hi; inversion Hi; lia. }
  split; [|split].
  - intros tile img Hop. apply Hin in Hop. destruct Hop as (r & Hr & Hop).
    exists r. split; [exact Hr|]. unfold tile_ops in Hop.
    destruct (model_index rows r) as [i|] eqn:Ei; [|contradiction].
    destruct (Hvalid r i Ei) as (-> & Hrr). split; [exact Hrr|].
    destruct (visualRect v (Some r)) as [rect|]; [|contradiction].
    destruct (negb (Rect.isValid rect) || (y2 rect <? 0)
              || (viewport_height v <? y1 rect)); [contradiction|].
    destruct Hop as [Hop|Hop].
    + destruct (Cache.lookup (model_data rows r) (m_imageCache v)); [|discriminate].
      injection Hop as <- <-. now split.
    + destruct (selected r); [destruct Hop as [Hop|[]]; discriminate|].
      destruct currentIndex as [cur|]; [|contradiction].
      destruct (cur =? r); [destruct Hop as [Hop|[]]; discriminate|contradiction].
  - intros tile Hop. apply Hin in Hop. destruct Hop as (r & Hr & Hop).
    exists r. split; [exact Hr|]. unfold tile_ops in Hop.
    destruct (model_index rows r) as [i|] eqn:Ei; [|contradiction].
    destruct (Hvalid r i Ei) as (-> & Hrr). split; [exact Hrr|].
    destruct (visualRect v (Some r)) as [rect|]; [|contradiction].
    destruct (negb (Rect.isValid rect) || (y2 rect <? 0)
              || (viewport_height v <? y1 rect)); [contradiction|].
    destruct Hop as [Hop|Hop].
    + destruct (Cache.lookup (model_data rows r) (m_imageCache v)); [discriminate|].
      injection Hop as <-. now split.
    + destruct (selected r); [destruct Hop as [Hop|[]]; discriminate|].
      destruct currentIndex as [cur|]; [|contradiction].
      destruct (cur =? r); [destruct Hop as [Hop|[]]; discriminate|contradiction].
  - intros r tile Hr Hrr Hrect (Hv & Hy2 & Hy1). apply Hin. exists r.
    split; [exact Hr|]. unfold tile_ops.
    rewrite (model_index_valid rows r Hrr), Hrect, Hv.
    destruct (Z.ltb_spec (y2 tile) 0); [lia|].
    destruct (Z.ltb_spec (viewport_height v) (y1 tile)); [lia|].
    cbn [negb orb]. now left.
Qed.

(** X9, witness: painting the whole viewport of the example with a
    failed first image, the second tile selected. *)
Lemma paintEvent_spec_witness :
  exists v' ops,
    paintEvent two_tiles_one_failed (viewport_rect two_tiles_one_failed)
               (fun r => r =? 1) (Some 0) = Some (v', ops) /\
    forall k, Cache.lookup k (m_imageCache v')
              = Cache.lookup k (m_imageCache two_tiles_one_failed).
Proof.
  destruct (paintEvent two_tiles_one_failed (viewport_rect two_tiles_one_failed)
                       (fun r => r =? 1) (Some 0)) as [[v' ops]|] eqn:E;
    [|vm_compute in E; discriminate].
  exists v', ops. split; [reflexivity|].
  destruct (paintEvent_spec _ _ _ _ _ _ E)
    as (rows & first & last & _ & _ & _ & _ & Hlookup & _).
  exact Hlookup.
Defined.

(** In that example the failed image is drawn as an image, not as the
    loading text, and is moved to the front of the cache; the uncached
    tile shows the loading text. *)
Example paintEvent_two_tiles :
  option_map (fun res => (entries (m_imageCache (fst res)), snd res))
    (paintEvent two_tiles_one_failed (viewport_rect two_tiles_one_failed)
                (fun r => r =? 1) (Some 0))
  = Some ([("a", NullImage); ("z", Pixels "z")]%string,
          [DrawImage (mkCorners 0 0 99 99) NullImage;
           OutlineCurrent (mkCorners 0 0 99 99);
           DrawLoading (mkCorners 100 0 199 99);
           OutlineSelected (mkCorners 100 0 199 99)]).
Proof. vm_compute. reflexivity. Qed.

(** ** The cache stays within its capacity *)

Lemma keys_unlink (k : string) (l : list (string * QImage)) :
  map fst (Cache.unlink k l)
  = filter (fun k' => negb (String.eqb k' k)) (map fst l).
Proof.
  unfold Cache.unlink. induction l as [|[k0 img] l IH]; [reflexivity|].
  cbn [filter map fst]. destruct (String.eqb k0 k); cbn [negb map fst];
    now rewrite IH.
Qed.

Lemma NoDup_firstn {A : Type} (n : nat) (l : list A) :
  NoDup l -> NoDup (firstn n l).
Proof.
  revert n. induction l as [|x l IH]; intros [|n] H; cbn [firstn];
    try constructor.
  - inversion H as [|? ? Hx Hl]. subst. intros Hin. apply Hx.
    now apply In_firstn in Hin.
  - inversion H. now apply IH.
Qed.

Lemma unlink_ok (k : string) (m : Z) (l : list (string * QImage)) :
  cache_ok (mkCache m l) -> cache_ok (mkCache m (Cache.unlink k l)).
Proof.
  unfold cache_ok, Cache.totalCost. cbn [entries mx]. intros (Hnd & Hlen). split.
  - rewrite keys_unlink. now apply NoDup_filter.
  - pose proof (filter_length_le (fun e => negb (String.eqb (fst e) k)) l) as Hle.
    unfold Cache.unlink. lia.
Qed.

Lemma firstn_ok (n : nat) (m : Z) (l : list (string * QImage)) :
  cache_ok (mkCache m l) -> cache_ok (mkCache m (firstn n l)).
Proof.
  unfold cache_ok, Cache.totalCost. cbn [entries mx]. intros (Hnd & Hlen). split.
  - rewrite <- firstn_map. now apply NoDup_firstn.
  - rewrite length_firstn. lia.
Qed.

Lemma take_ok (k : string) (c : QCache) :
  cache_ok c -> cache_ok (snd (Cache.take k c)).
Proof.
  intros H. unfold Cache.take. destruct (Cache.lookup k c); cbn [snd]; [|exact H].
  unfold Cache.remove. apply unlink_ok. now destruct c.
Qed.

Lemma insert_ok (k : string) (img : QImage) (c : QCache) :
  cache_ok c -> cache_ok (Cache.insert k img c).
Proof.
  intros H. destruct c as [m l].
  pose proof (unlink_ok k m l H) as H1.
  unfold Cache.insert, Cache.remove. cbn [mx entries].
  destruct (Z.ltb_spec m 1) as [Hm|Hm]; [exact H1|].
  rewrite entries_trim. cbn [mx entries Cache.trim].
  set (n := Z.to_nat (m - 1)%int).
  pose proof (firstn_ok n m _ H1) as (Hnd & _).
  destruct H1 as (_ & Hlen1). unfold cache_ok, Cache.totalCost in *.
  cbn [entries mx map fst List.length] in *. split.
  - constructor; [|exact Hnd].
    rewrite <- firstn_map. intros Hin. apply In_firstn in Hin.
    rewrite keys_unlink in Hin. apply filter_In in Hin.
    destruct Hin as (_ & Hne). rewrite String.eqb_refl in Hne. discriminate.
  - rewrite length_firstn.
    assert (Hn : Z.of_nat n <= m - 1).
    { unfold n, Int32.sub.
      destruct (Z.le_gt_cases m Int32.INT_MAX) as [Hs|Hs].
      - rewrite wrap_small
          by (unfold Int32.in_range, Int32.INT_MIN, Int32.INT_MAX in *; lia).
        lia.
      - pose proof (wrap_in_range (m - 1)) as Hw.
        unfold Int32.in_range, Int32.INT_MIN, Int32.INT_MAX in *. lia. }
    lia.
Qed.

Lemma setMaxCost_ok (m : Z) (c : QCache) :
  cache_ok c -> cache_ok (Cache.setMaxCost m c).
Proof.
  intros (Hnd & _). unfold Cache.setMaxCost.
  unfold cache_ok, Cache.totalCost. rewrite entries_trim.
  cbn [Cache.trim mx entries]. split.
  - rewrite <- firstn_map. now apply NoDup_firstn.
  - rewrite length_firstn. lia.
Qed.

Lemma clear_ok (c : QCache) : cache_ok (Cache.clear c).
Proof.
  unfold cache_ok, Cache.clear, Cache.totalCost. cbn. split; [constructor|lia].
Qed.

Lemma build_tasks_ok (rows : list string) (visible : list Z) (c : QCache) :
  cache_ok c -> cache_ok (fst (build_tasks rows visible c)).
Proof.
  revert c. induction visible as [|r rest IH]; intros c H; [exact H|].
  cbn [build_tasks].
  pose proof (take_ok (model_data rows r) c H) as H1.
  destruct (Cache.take (model_data rows r) c) as [p c1]. cbn [snd] in H1.
  specialize (IH c1 H1). destruct (build_tasks rows rest c1). exact IH.
Qed.

Lemma insert_all_ok (items : list ImageLoadingTask) (c : QCache) :
  cache_ok c -> cache_ok (insert_all items c).
Proof.
  revert c. unfold insert_all.
  induction items as [|item rest IH]; intros c H; [exact H|].
  cbn [fold_left]. apply IH. now apply insert_ok.
Qed.

Lemma snapshot_cache (v v' : ImageListView) (taskList : list ImageLoadingTask) :
  snapshot v = Some (v', taskList) ->
  exists rows visible,
    model v = Some rows /\
    m_imageCache v' = fst (build_tasks rows visible (m_imageCache v)) /\
    taskList = snd (build_tasks rows visible (m_imageCache v)).
Proof.
  unfold snapshot. destruct (modelIndexRangeForRect v (viewport_rect v)) as [range|];
    [|discriminate].
  destruct (model v) as [rows|]; [|discriminate]. cbn [bind].
  destruct (build_tasks rows _ (m_imageCache v)) as [c l] eqn:E.
  intros H. injection H as <- <-. do 2 eexists. rewrite E. now repeat split.
Qed.

Lemma step_cache_ok (fs : Loader) (e : Event) (s s' : Pipeline) :
  step fs e s = Some s' ->
  cache_ok (m_imageCache (view s)) -> cache_ok (m_imageCache (view s')).
Proof.
  intros Hstep H. destruct e; cbn [step] in Hstep.
  - injection Hstep as <-. cbn [set_view view].
    now rewrite imageCache_scrollBarSetValue.
  - unfold resizeEvent in Hstep.
    destruct (updateGeometries (set_viewport w h (view s))) as [v1|] eqn:E;
      [|discriminate].
    cbn [bind] in Hstep. injection Hstep as <-. cbn [set_view view].
    destruct (updateGeometries_cache _ _ E) as (m & Hc).
    change (m_imageCache (emitLoadEvent v1)) with (m_imageCache v1).
    rewrite Hc. now apply setMaxCost_ok.
  - injection Hstep as <-. cbn [set_view view]. apply clear_ok.
  - destruct (m_loadEventStream (view s)); [now injection Hstep as <-|].
    destruct (snapshot (set_loadEventStream 0 (view s))) as [[v' l]|] eqn:E;
      [|discriminate].
    cbn [bind] in Hstep. injection Hstep as <-. cbn [view].
    destruct (snapshot_cache _ _ _ E) as (rows & visible & _ & -> & _).
    now apply build_tasks_ok.
  - destruct (to_switch s); now injection Hstep as <-.
  - assert (Hst : cache_ok (m_imageCache (view (stale_completion g s)))).
    { unfold stale_completion. now destruct (finish_orphan g (orphans s)) as [[? ?]|]. }
    destruct (current s) as [[g0 [|item rest]]|];
      [now injection Hstep as <-| |now injection Hstep as <-].
    destruct (Nat.eqb g0 g); now injection Hstep as <-.
  - destruct (buffer s); now injection Hstep as <-.
  - destruct (to_ui s) as [|items queued]; [now injection Hstep as <-|].
    destruct (apply_batch (view s) items) as [[v' calls]|] eqn:E; [|discriminate].
    cbn [bind] in Hstep. injection Hstep as <-. cbn [view].
    rewrite (apply_batch_cache _ _ _ _ E). now apply insert_all_ok.
Qed.

(** X10: whatever events occur and however the threads interleave them,
    the cache never holds two images under one file name and never more
    images than its capacity (none when the capacity is not positive):
    scrolling, resizing, changing the column count, the snapshot, the
    decodes and the delivery of loaded images all keep it so. *)
Theorem cache_within_capacity
  (fs : Loader) (es : list Event) (s s' : Pipeline) :
  cache_ok (m_imageCache (view s)) ->
  run fs es s = Some s' ->
  NoDup (map fst (entries (m_imageCache (view s')))) /\
  Z.of_nat (List.length (entries (m_imageCache (view s'))))
    <= Z.max 0 (mx (m_imageCache (view s'))).
Proof.
  revert s. induction es as [|e es IH]; intros s H Hrun; cbn [run] in Hrun.
  - injection Hrun as <-. exact H.
  - destruct (step fs e s) as [s1|] eqn:E; [|discriminate].
    cbn [bind] in Hrun. apply (IH s1); [|exact Hrun].
    now apply (step_cache_ok fs e s).
Qed.

(** X10, witness: a load cycle of ten images into a cache for four. *)
Lemma cache_within_capacity_witness :
  exists s',
    run all_files (load_cycle 1 10) (start twelve_small_cache) = Some s' /\
    NoDup (map fst (entries (m_imageCache (view s')))) /\
    Z.of_nat (List.length (entries (m_imageCache (view s'))))
      <= Z.max 0 (mx (m_imageCache (view s'))).
Proof.
  destruct (run all_files (load_cycle 1 10) (start twelve_small_cache))
    as [s'|] eqn:E; [|vm_compute in E; discriminate].
  exists s'. split; [reflexivity|].
  apply (cache_within_capacity all_files (load_cycle 1 10)
           (start twelve_small_cache) s'); [|exact E].
  split; [constructor|vm_compute; discriminate].
Defined.

(** In that example the four images delivered last remain. *)
Example small_cache_keeps_last_four :
  option_map (fun s' => entries (m_imageCache (view s')))
    (run all_files (load_cycle 1 10) (start twelve_small_cache))
  = Some [("j", Pixels "j"); ("i", Pixels "i"); ("h", Pixels "h");
          ("g", Pixels "g")]%string.
Proof. vm_compute. reflexivity. Qed.

(** ** The cache holds the image of the file it names *)

Lemma In_entries_insert (k k' : string) (img img' : QImage) (c : QCache) :
  In (k', img') (entries (Cache.insert k img c)) ->
  (k', img') = (k, img) \/ In (k', img') (entries c).
Proof.
  unfold Cache.insert, Cache.remove. cbn [mx entries].
  destruct (mx c <? 1).
  - cbn [entries]. intros H. apply In_unlink in H. right. tauto.
  - rewrite entries_trim. cbn [entries]. intros [H|H]; [left; now symmetry|].
    apply In_firstn in H. apply In_unlink in H. right. tauto.
Qed.

Lemma insert_faithful (fs : Loader) (k : string) (c : QCache) :
  cache_faithful fs c -> cache_faithful fs (Cache.insert k (image_load fs k) c).
Proof.
  intros H k' img' Hin. apply In_entries_insert in Hin.
  destruct Hin as [Heq|Hin]; [now injection Heq as -> ->|now apply H].
Qed.

Lemma take_faithful (fs : Loader) (k : string) (c : QCache) :
  cache_faithful fs c -> cache_faithful fs (snd (Cache.take k c)).
Proof.
  intros H. unfold Cache.take. destruct (Cache.lookup k c); cbn [snd]; [|exact H].
  intros k' img' Hin. unfold Cache.remove in Hin. cbn [entries] in Hin.
  apply In_unlink in Hin. now apply H.
Qed.

Lemma setMaxCost_faithful (fs : Loader) (m : Z) (c : QCache) :
  cache_faithful fs c -> cache_faithful fs (Cache.setMaxCost m c).
Proof.
  intros H k img Hin. unfold Cache.setMaxCost in Hin.
  rewrite entries_trim in Hin. cbn [entries] in Hin.
  apply In_firstn in Hin. now apply H.
Qed.

Lemma build_tasks_faithful (fs : Loader) (rows : list string) (visible : list Z)
      (c : QCache) :
  cache_faithful fs c ->
  cache_faithful fs (fst (build_tasks rows visible c)) /\
  Forall (task_faithful fs) (snd (build_tasks rows visible c)).
Proof.
  intros H. split.
  - revert c H. induction visible as [|r rest IH]; intros c H; [exact H|].
    cbn [build_tasks].
    pose proof (take_faithful fs (model_data rows r) c H) as H1.
    destruct (Cache.take (model_data rows r) c) as [p c1]. cbn [snd] in H1.
    specialize (IH c1 H1). destruct (build_tasks rows rest c1). exact IH.
  - apply Forall_forall. intros t Hin img Himg.
    apply H. apply lookup_In.
    exact (build_tasks_image_from_cache rows visible c t img Hin Himg).
Qed.

Lemma decode_faithful (fs : Loader) (t : ImageLoadingTask) :
  task_faithful fs t -> task_decoded fs (decode fs t).
Proof.
  intros H. destruct (decode_spec fs t) as (Hiff & Hkeep & Hload).
  unfold task_decoded. destruct (needs_load t) eqn:E.
  - rewrite (Hload eq_refl). reflexivity.
  - rewrite (Hkeep eq_refl). destruct (proj1 Hiff eq_refl) as (img & Himg & _).
    rewrite Himg. f_equal. now apply H.
Qed.

Lemma insert_all_faithful (fs : Loader) (items : list ImageLoadingTask) (c : QCache) :
  Forall (task_decoded fs) items -> cache_faithful fs c ->
  cache_faithful fs (insert_all items c).
Proof.
  revert c. unfold insert_all.
  induction items as [|item rest IH]; intros c Hitems H; [exact H|].
  inversion Hitems as [|? ? Hitem Hrest]. subst.
  cbn [fold_left]. apply IH; [exact Hrest|].
  unfold released. rewrite Hitem. now apply insert_faithful.
Qed.

Lemma step_faithful (fs : Loader) (e : Event) (s s' : Pipeline) :
  step fs e s = Some s' -> pipeline_faithful fs s -> pipeline_faithful fs s'.
Proof.
  intros Hstep (Hc & Hb & Hu & Hcur & Hsw). destruct e; cbn [step] in Hstep.
  - injection Hstep as <-. unfold pipeline_faithful. cbn [set_view view buffer
      to_ui current to_switch]. rewrite imageCache_scrollBarSetValue. tauto.
  - unfold resizeEvent in Hstep.
    destruct (updateGeometries (set_viewport w h (view s))) as [v1|] eqn:E;
      [|discriminate].
    cbn [bind] in Hstep. injection Hstep as <-.
    unfold pipeline_faithful. cbn [set_view view buffer to_ui current to_switch].
    destruct (updateGeometries_cache _ _ E) as (m & Hm).
    change (m_imageCache (emitLoadEvent v1)) with (m_imageCache v1).
    rewrite Hm. repeat split; try assumption. now apply setMaxCost_faithful.
  - injection Hstep as <-. unfold pipeline_faithful.
    cbn [set_view view buffer to_ui current to_switch].
    repeat split; try assumption. intros k img [].
  - destruct (m_loadEventStream (view s));
      [injection Hstep as <-; now repeat split|].
    destruct (snapshot (set_loadEventStream 0 (view s))) as [[v' l]|] eqn:E;
      [|discriminate].
    cbn [bind] in Hstep. injection Hstep as <-.
    destruct (snapshot_cache _ _ _ E) as (rows & visible & _ & Hv' & ->).
    destruct (build_tasks_faithful fs rows visible _ Hc) as (Hc' & Ht).
    unfold pipeline_faithful. cbn [view buffer to_ui current to_switch].
    rewrite Hv'. repeat split; try assumption.
    apply Forall_app. split; [exact Hsw|]. constructor; [exact Ht|constructor].
  - destruct (to_switch s) as [|batch queued] eqn:Eq;
      [injection Hstep as <-; unfold pipeline_faithful; rewrite Eq; now repeat split|].
    injection Hstep as <-. inversion Hsw as [|? ? Hbatch Hqueued]. subst.
    unfold pipeline_faithful. cbn [view buffer to_ui current to_switch].
    destruct batch as [g items]. now repeat split.
  - assert (Hst : pipeline_faithful fs (stale_completion g s)).
    { unfold stale_completion.
      destruct (finish_orphan g (orphans s)) as [[? ?]|]; now repeat split. }
    destruct (current s) as [[g0 [|item rest]]|] eqn:Ecur;
      [now injection Hstep as <-| |now injection Hstep as <-].
    destruct (Nat.eqb g0 g); [|now injection Hstep as <-].
    injection Hstep as <-. inversion Hcur as [|? ? Hitem Hrest]. subst.
    unfold pipeline_faithful. cbn [view buffer to_ui current to_switch].
    repeat split; try assumption.
    apply Forall_app. split; [exact Hb|].
    constructor; [now apply decode_faithful|constructor].
  - destruct (buffer s) as [|item items] eqn:Eb;
      [injection Hstep as <-; unfold pipeline_faithful; rewrite Eb; now repeat split|].
    injection Hstep as <-.
    unfold pipeline_faithful. cbn [view buffer to_ui current to_switch].
    repeat split; try assumption; [constructor|].
    apply Forall_app. split; [exact Hu|]. constructor; [exact Hb|constructor].
  - destruct (to_ui s) as [|items queued] eqn:Eu;
      [injection Hstep as <-; unfold pipeline_faithful; rewrite Eu; now repeat split|].
    destruct (apply_batch (view s) items) as [[v' calls]|] eqn:E; [|discriminate].
    cbn [bind] in Hstep. injection Hstep as <-.
    inversion Hu as [|? ? Hitems Hqueued]. subst.
    unfold pipeline_faithful. cbn [view buffer to_ui current to_switch].
    rewrite (apply_batch_cache _ _ _ _ E).
    repeat split; try assumption. now apply insert_all_faithful.
Qed.

(** X11: the cache associates a file name only with the image of that
    file.  When every image the cache holds at the start is what
    [QImage::load] gives for its file name (an empty cache, as the
    constructor leaves it, is such a cache), then after any sequence of
    events, in any interleaving, an image found under a file name is what
    [QImage::load] gives for that file: no tile is shown with the image
    of another file, and a cached null image means that loading the file
    fails.  The content of the files is taken not to change. *)
Theorem cache_holds_image_of_its_file
  (fs : Loader) (es : list Event) (v : ImageListView) (s : Pipeline)
  (k : string) (img : QImage) :
  cache_faithful fs (m_imageCache v) ->
  run fs es (start v) = Some s ->
  Cache.lookup k (m_imageCache (view s)) = Some img ->
  img = image_load fs k.
Proof.
  intros H0 Hrun Hlk.
  assert (Hinv : pipeline_faithful fs s).
  { assert (Hstart : pipeline_faithful fs (start v)).
    { unfold pipeline_faithful, start. cbn [view buffer to_ui current to_switch].
      repeat split; try constructor. exact H0. }
    revert Hrun Hstart. generalize (start v). clear Hlk H0.
    induction es as [|e es IH]; intros s0 Hrun Hs0; cbn [run] in Hrun.
    - now injection Hrun as <-.
    - destruct (step fs e s0) as [s1|] eqn:E; [|discriminate].
      cbn [bind] in Hrun. apply (IH s1 Hrun).
      now apply (step_faithful fs e s0). }
  destruct Hinv as (Hc & _). apply Hc. now apply lookup_In.
Qed.

(** X11, witness: the twelve-row example after a load cycle, a change to
    four columns, which clears the cache, and a second load cycle; row 7
    is cached with its own image. *)
Lemma cache_holds_image_of_its_file_witness :
  exists s,
    run all_files two_cycles (start (emitLoadEvent twelve_in_five)) = Some s /\
    Cache.lookup "h" (m_imageCache (view s)) = Some (Pixels "h") /\
    Pixels "h" = image_load all_files "h".
Proof.
  destruct (run all_files two_cycles (start (emitLoadEvent twelve_in_five)))
    as [s|] eqn:E; [|vm_compute in E; discriminate].
  exists s. split; [reflexivity|].
  assert (Hlk : Cache.lookup "h" (m_imageCache (view s)) = Some (Pixels "h")).
  { vm_compute in E. injection E as <-. vm_compute. reflexivity. }
  split; [exact Hlk|].
  apply (cache_holds_image_of_its_file all_files two_cycles
           (emitLoadEvent twelve_in_five) s "h" (Pixels "h")); [|exact E|exact Hlk].
  intros k img [].
Defined.

(** ** The tiles form a grid *)

(** X12: the tiles of two different rows never overlap, and every tile
    lies within the width of the viewport, so that nothing is cut off
    horizontally (the view has no horizontal scrolling). *)
Theorem tiles_do_not_overlap (v : ImageListView) (i j : Z) :
  1 <= m_columnCount v -> 1 <= tile_width v -> 1 <= tile_height v ->
  0 <= i -> 0 <= j -> i <> j ->
  viewport_width v <= Int32.INT_MAX ->
  0 <= verticalOffset v <= Int32.INT_MAX ->
  (Z.quot i (m_columnCount v) + 1) * tile_height v <= Int32.INT_MAX ->
  (Z.quot j (m_columnCount v) + 1) * tile_height v <= Int32.INT_MAX ->
  exists ri rj,
    visualRect v (Some i) = Some ri /\
    visualRect v (Some j) = Some rj /\
    Rect.intersects ri rj = false /\
    0 <= x1 ri /\ x2 ri < viewport_width v.
Proof.
  intros Hcc Hw Hh Hi Hj Hij Hvw Hoff Hbi Hbj.
  rewrite (visualRect_exact v i Hcc Hw Hh Hi Hvw Hoff Hbi).
  rewrite (visualRect_exact v j Hcc Hw Hh Hj Hvw Hoff Hbj).
  do 2 eexists. split; [reflexivity|]. split; [reflexivity|].
  set (cc := m_columnCount v) in *. set (w := tile_width v) in *.
  set (h := tile_height v) in *. set (off := verticalOffset v) in *.
  pose proof (Z.quot_rem' i cc) as Ei. pose proof (Z.quot_rem' j cc) as Ej.
  pose proof (Z.rem_bound_pos i cc Hi ltac:(lia)) as Hci.
  pose proof (Z.rem_bound_pos j cc Hj ltac:(lia)) as Hcj.
  pose proof (Z.quot_pos i cc Hi ltac:(lia)) as Hqi.
  pose proof (Z.quot_pos j cc Hj ltac:(lia)) as Hqj.
  set (ci := Z.rem i cc) in *. set (cj := Z.rem j cc) in *.
  set (qi := Z.quot i cc) in *. set (qj := Z.quot j cc) in *.
  assert (Hww : cc * w <= viewport_width v).
  { unfold w, tile_width. fold cc.
    pose proof (Z.quot_rem' (viewport_width v) cc) as E.
    assert (H0 : 0 <= viewport_width v).
    { destruct (Z.le_gt_cases 0 (viewport_width v)) as [H|H]; [exact H|].
      pose proof (Z.quot_le_mono (viewport_width v) 0 cc ltac:(lia) ltac:(lia)) as Hq.
      rewrite Z.quot_0_l in Hq by lia. unfold w, tile_width in Hw. fold cc in Hw. lia. }
    pose proof (Z.rem_bound_pos (viewport_width v) cc H0 ltac:(lia)). lia. }
  assert (Hwmax : w <= Int32.INT_MAX) by (clear - Hww Hcc Hw Hvw; nia).
  assert (Hhmax : h <= Int32.INT_MAX) by (clear - Hbi Hqi Hh; nia).
  assert (Hx : (ci + 1) * w <= cc * w) by (clear - Hci Hw; nia).
  split; [|cbn [x1 x2]; split; [clear - Hci Hw; nia|lia]].
  unfold Rect.intersects. cbn [x1 x2 y1 y2].
  destruct (Rect.isNull _ || Rect.isNull _); [reflexivity|].
  rewrite !span_proper
    by (unfold Int32.in_range, Int32.INT_MIN, Int32.INT_MAX in *; lia).
  destruct (Z.ltb_spec (cj * w + w - 1) (ci * w)) as [Hx1|Hx1]; [reflexivity|].
  destruct (Z.ltb_spec (ci * w + w - 1) (cj * w)) as [Hx2|Hx2]; [reflexivity|].
  cbn [orb].
  assert (Hc : ci = cj) by (clear - Hx1 Hx2 Hw; nia).
  assert (Hq : qi <> qj) by (clear - Hc Ei Ej Hij; intros Hq; apply Hij; nia).
  destruct (Z.ltb_spec (qj * h - off + h - 1) (qi * h - off)) as [Hy1|Hy1];
    [reflexivity|].
  destruct (Z.ltb_spec (qi * h - off + h - 1) (qj * h - off)) as [Hy2|Hy2];
    [reflexivity|].
  exfalso. apply Hq. clear - Hy1 Hy2 Hh. nia.
Qed.

(** X12, witness: the last tile of the first tile row and the first tile
    of the second one in the twelve-row example. *)
Lemma tiles_do_not_overlap_witness :
  exists ri rj,
    visualRect twelve_in_five (Some 4) = Some ri /\
    visualRect twelve_in_five (Some 5) = Some rj /\
    Rect.intersects ri rj = false /\
    0 <= x1 ri /\ x2 ri < viewport_width twelve_in_five.
Proof.
  apply (tiles_do_not_overlap twelve_in_five 4 5);
    vm_compute; intuition discriminate.
Defined.

(** ** Hit testing *)

(** X13: hit testing is exact on a tile: every point of the tile
    rectangle of a row of the model, not only its centre, is reported by
    [indexAt] as that row. *)
Theorem indexAt_inside_tile
  (v : ImageListView) (rows : list string) (i : Z) (rect : QRect) (p : QPoint) :
  model v = Some rows ->
  1 <= m_columnCount v -> 1 <= tile_width v -> 1 <= tile_height v ->
  0 <= i < rowCount rows ->
  rowCount rows <= Int32.INT_MAX ->
  viewport_width v <= Int32.INT_MAX ->
  0 <= verticalOffset v <= Int32.INT_MAX ->
  (Z.quot i (m_columnCount v) + 1) * tile_height v <= Int32.INT_MAX ->
  visualRect v (model_index rows i) = Some rect ->
  x1 rect <= px p <= x2 rect ->
  y1 rect <= py p <= y2 rect ->
  indexAt v p = Some (Some i).
Proof.
  intros Hm Hcc Hw Hh Hi Hn Hvw Hoff Hbottom Hrect Hpx Hpy.
  rewrite (model_index_valid rows i Hi) in Hrect.
  rewrite (visualRect_exact v i Hcc Hw Hh ltac:(lia) Hvw Hoff Hbottom) in Hrect.
  injection Hrect as <-. cbn [x1 x2 y1 y2] in Hpx, Hpy.
  set (cc := m_columnCount v) in *. set (w := tile_width v) in *.
  set (h := tile_height v) in *. set (off := verticalOffset v) in *.
  assert (Hvw0 : 0 <= viewport_width v).
  { destruct (Z.le_gt_cases 0 (viewport_width v)) as [H|H]; [exact H|].
    pose proof (Z.quot_le_mono (viewport_width v) 0 cc ltac:(lia) ltac:(lia)) as Hq.
    rewrite Z.quot_0_l in Hq by lia. unfold w, tile_width in Hw. fold cc in Hw. lia. }
  pose proof (Z.mul_quot_le (viewport_width v) cc Hvw0 ltac:(lia)) as Hfit.
  change (Z.quot (viewport_width v) cc) with w in Hfit.
  pose proof (Z.rem_bound_pos i cc ltac:(lia) ltac:(lia)) as Hc.
  pose proof (Z.quot_pos i cc ltac:(lia) ltac:(lia)) as Hr.
  pose proof (Z.quot_rem' i cc) as Hqr.
  set (c := Z.rem i cc) in *. set (r := Z.quot i cc) in *.
  assert (Er : Z.quot (py p + off) h = r) by (apply quot_in_tile; nia).
  assert (Ec : Z.quot (px p) w = c) by (apply quot_in_tile; nia).
  assert (Eidx : tile_index v p = i).
  { unfold tile_index. fold off h w cc. rewrite Er, Ec. lia. }
  rewrite (indexAt_exact v rows Hm Hcc Hw Hh).
  - rewrite Eidx.
    destruct (Z.leb_spec 0 i); [|lia].
    destruct (Z.ltb_spec i (rowCount rows)); [reflexivity|lia].
  - unfold exact_at. rewrite Eidx. fold off.
    assert (Hcw : (c + 1) * w <= cc * w) by (clear - Hc Hw; nia).
    unfold Int32.in_range, Int32.INT_MIN, Int32.INT_MAX in *.
    repeat split; nia.
Qed.

(** X13, witness: the bottom right pixel of the tile of row 7. *)
Lemma indexAt_inside_tile_witness :
  indexAt twelve_in_five (mkQPoint 299 199) = Some (Some 7).
Proof.
  apply (indexAt_inside_tile twelve_in_five twelve_rows 7
           (mkCorners 200 100 299 199) (mkQPoint 299 199));
    try reflexivity; vm_compute; intuition discriminate.
Defined.

(** X14: the margin to the right of the last tile column is not neutral.
    When the viewport width is not a multiple of the column count, a point
    of the viewport to the right of the last column is reported by
    [indexAt] as a row of the model (as long as the index computed stays
    below the row count), and the tile of that row lies wholly below the
    point: a click in the margin hits a tile of a following tile row. *)
Theorem indexAt_right_margin
  (v : ImageListView) (rows : list string) (p : QPoint) :
  model v = Some rows ->
  1 <= m_columnCount v -> 1 <= tile_width v -> 1 <= tile_height v ->
  rowCount rows <= Int32.INT_MAX ->
  viewport_width v <= Int32.INT_MAX ->
  0 <= verticalOffset v <= Int32.INT_MAX ->
  m_columnCount v * tile_width v <= px p < viewport_width v ->
  0 <= py p + verticalOffset v ->
  tile_index v p < rowCount rows ->
  (Z.quot (tile_index v p) (m_columnCount v) + 1) * tile_height v
    <= Int32.INT_MAX ->
  exists rect,
    indexAt v p = Some (Some (tile_index v p)) /\
    visualRect v (Some (tile_index v p)) = Some rect /\
    py p < y1 rect.
Proof.
  intros Hm Hcc Hw Hh Hn Hvw Hoff Hpx Hpy Hidx Hbottom.
  set (cc := m_columnCount v) in *. set (w := tile_width v) in *.
  set (h := tile_height v) in *. set (off := verticalOffset v) in *.
  set (c := Z.quot (px p) w). set (r := Z.quot (py p + off) h).
  assert (Hc : cc <= c).
  { unfold c. apply Z.quot_le_lower_bound; lia. }
  assert (Hr : 0 <= r) by (apply Z.quot_pos; lia).
  assert (Ei : tile_index v p = r * cc + c) by reflexivity.
  assert (Hi0 : 0 <= tile_index v p) by (rewrite Ei; clear - Hc Hr Hcc; nia).
  assert (Hrow : r + 1 <= Z.quot (tile_index v p) cc).
  { apply Z.quot_le_lower_bound; [lia|]. rewrite Ei. clear - Hc Hcc Hr. nia. }
  rewrite (visualRect_exact v (tile_index v p) Hcc Hw Hh Hi0 Hvw Hoff Hbottom).
  eexists. split; [|split; [reflexivity|]].
  - rewrite (indexAt_exact v rows Hm Hcc Hw Hh).
    + destruct (Z.leb_spec 0 (tile_index v p)); [|lia].
      destruct (Z.ltb_spec (tile_index v p) (rowCount rows)); [reflexivity|lia].
    + unfold exact_at. fold off.
      assert (Hpy' : py p + off < (r + 1) * h).
      { pose proof (Z.quot_rem' (py p + off) h) as E. fold r in E.
        pose proof (Z.rem_bound_pos (py p + off) h Hpy ltac:(lia)). lia. }
      unfold Int32.in_range, Int32.INT_MIN, Int32.INT_MAX in *.
      repeat split; try lia.
      clear - Hpy' Hrow Hbottom Hh Hr. fold cc h in Hbottom. nia.
  - cbn [y1]. fold cc h off.
    assert (Hpy' : py p + off < (r + 1) * h).
    { pose proof (Z.quot_rem' (py p + off) h) as E. fold r in E.
      pose proof (Z.rem_bound_pos (py p + off) h Hpy ltac:(lia)). lia. }
    clear - Hpy' Hrow Hh. nia.
Qed.

(** X14, witness: on the viewport 503 pixels wide, the point (501, 50)
    lies beside the first tile row and is reported as row 5, the first
    tile of the second tile row. *)
Lemma indexAt_right_margin_witness :
  exists rect,
    indexAt twelve_with_margin (mkQPoint 501 50)
      = Some (Some (tile_index twelve_with_margin (mkQPoint 501 50))) /\
    visualRect twelve_with_margin
               (Some (tile_index twelve_with_margin (mkQPoint 501 50))) = Some rect /\
    py (mkQPoint 501 50) < y1 rect.
Proof.
  apply (indexAt_right_margin twelve_with_margin twelve_rows (mkQPoint 501 50));
    try reflexivity; vm_compute; intuition discriminate.
Defined.

Example click_in_margin_hits_next_row :
  indexAt twelve_with_margin (mkQPoint 501 50) = Some (Some 5) /\
  visualRect twelve_with_margin (Some 5) = Some (mkCorners 0 100 99 199).
Proof. split; vm_compute; reflexivity. Qed.

(** ** The scroll range after a layout *)

Lemma apply_setRange_maximum (lo hi : Z) (v : ImageListView) :
  sb_maximum (verticalScrollBar (apply_setRange lo hi v)) = Z.max lo hi.
Proof.
  unfold apply_setRange, ScrollBar.setRange. rewrite qMax_spec.
  destruct (Z.eqb_spec (sb_minimum (verticalScrollBar v)) lo);
    destruct (Z.eqb_spec (sb_maximum (verticalScrollBar v)) (Z.max lo hi));
    cbn [andb]; try (cbn; assumption);
    unfold ScrollBar.setValue;
    match goal with |- context [negb ?b] => destruct b end; reflexivity.
Qed.

Lemma grid_rows_bounds (n cc i : Z) :
  1 <= cc -> 0 <= i < n ->
  0 <= Z.quot i cc /\ Z.quot i cc + 1 <= grid_rows n cc.
Proof.
  intros Hcc Hi. unfold grid_rows.
  pose proof (Z.quot_pos i cc ltac:(lia) ltac:(lia)) as H0. split; [exact H0|].
  pose proof (Z.quot_rem' n cc) as En. pose proof (Z.quot_rem' i cc) as Ei.
  pose proof (Z.rem_bound_pos n cc ltac:(lia) ltac:(lia)) as Hn.
  pose proof (Z.rem_bound_pos i cc ltac:(lia) ltac:(lia)) as Hri.
  pose proof (Z.quot_pos n cc ltac:(lia) ltac:(lia)) as Hqn.
  destruct (Z.eqb_spec (Z.rem n cc) 0) as [E|E]; nia.
Qed.

(** X15: with the vertical scroll bar shown, [updateGeometries] sets the
    scroll range to the height by which the tile grid of the whole model
    exceeds the viewport, measured with the tiles [visualRect] computes:
    the maximum is the number of tile rows times the tile height minus
    the viewport height when that is not negative, and 0 or 1 otherwise.
    So the range reaches the bottom of every row's tile, which is what
    [scrollTo] needs to bring the row into view. *)
Theorem updateGeometries_scroll_range (v : ImageListView) (rows : list string) :
  model v = Some rows ->
  1 <= m_columnCount v -> 1 <= tile_width v ->
  sb_isVisible (verticalScrollBar v) = true ->
  0 <= sb_width (verticalScrollBar v) ->
  viewport_width v + sb_width (verticalScrollBar v) <= Int32.INT_MAX ->
  1 <= viewport_height v <= Int32.INT_MAX ->
  grid_rows (rowCount rows) (m_columnCount v)
    * Z.min (Z.quot (viewport_width v + sb_width (verticalScrollBar v))
                    (m_columnCount v))
            (viewport_height v) <= Int32.INT_MAX ->
  exists v',
    updateGeometries v = Some v' /\
    (viewport_height v
       <= grid_rows (rowCount rows) (m_columnCount v) * tile_height v ->
     sb_maximum (verticalScrollBar v')
     = grid_rows (rowCount rows) (m_columnCount v) * tile_height v
       - viewport_height v) /\
    (grid_rows (rowCount rows) (m_columnCount v) * tile_height v
       < viewport_height v ->
     0 <= sb_maximum (verticalScrollBar v') <= 1) /\
    (forall i, 0 <= i < rowCount rows ->
       (Z.quot i (m_columnCount v) + 1) * tile_height v - viewport_height v
         <= sb_maximum (verticalScrollBar v')).
Proof.
  intros Hm Hcc Hw Hvis Hsb Hwmax Hvh Hgmax.
  set (cc := m_columnCount v) in *. set (n := rowCount rows) in *.
  set (vw := viewport_width v) in *. set (vh := viewport_height v) in *.
  set (sbw := sb_width (verticalScrollBar v)) in *.
  set (g := grid_rows n cc) in *.
  assert (Hn0 : 0 <= n) by (subst n; unfold rowCount; lia).
  assert (Hg0 : 0 <= g).
  { unfold g, grid_rows. pose proof (Z.quot_pos n cc Hn0 ltac:(lia)).
    destruct (Z.rem n cc =? 0); lia. }
  assert (Hvw0 : 1 <= vw).
  { destruct (Z.le_gt_cases 1 vw) as [H|H]; [exact H|].
    unfold tile_width in Hw. fold vw cc in Hw.
    destruct (Z.le_gt_cases 0 vw) as [H0|H0].
    - assert (vw = 0) by lia. subst vw. rewrite H1 in Hw.
      rewrite Z.quot_0_l in Hw by lia. lia.
    - pose proof (Z.quot_le_mono vw 0 cc ltac:(lia) ltac:(lia)) as Hq.
      rewrite Z.quot_0_l in Hq by lia. lia. }
  set (w0 := Z.quot (vw + sbw) cc) in *.
  assert (Hw0 : tile_width v <= w0).
  { unfold tile_width, w0. fold vw cc. apply Z.quot_le_mono; lia. }
  set (h := tile_height v) in *.
  assert (Eh : h = Z.min (tile_width v) vh) by (unfold h, tile_height; now rewrite ?qMin_spec).
  assert (Hh : 1 <= h <= Z.min w0 vh) by lia.
  assert (Hgh : g * h <= g * Z.min w0 vh) by (clear - Hg0 Hh; nia).
  assert (Eg : (Z.quot n cc + (if Z.rem n cc =? 0 then 0 else 1))%int = g).
  { unfold Int32.add. fold (grid_rows n cc). fold g. apply wrap_small.
    unfold Int32.in_range, Int32.INT_MIN, Int32.INT_MAX in *.
    clear - Hg0 Hgmax Hh. nia. }
  assert (Evw : (vw + sbw)%int = vw + sbw).
  { unfold Int32.add. apply wrap_small.
    unfold Int32.in_range, Int32.INT_MIN, Int32.INT_MAX in *. lia. }
  assert (Evw1 : ((vw + sbw)%Z - sbw)%int = vw).
  { unfold Int32.sub. replace (vw + sbw - sbw) with vw by lia. apply wrap_small.
    unfold Int32.in_range, Int32.INT_MIN, Int32.INT_MAX in *. lia. }
  assert (Egh0 : (g * Z.min w0 vh)%int = g * Z.min w0 vh).
  { unfold Int32.mul. apply wrap_small.
    unfold Int32.in_range, Int32.INT_MIN, Int32.INT_MAX in *.
    clear - Hg0 Hgmax Hh. nia. }
  assert (Egh : (g * h)%int = g * h).
  { unfold Int32.mul. apply wrap_small.
    unfold Int32.in_range, Int32.INT_MIN, Int32.INT_MAX in *.
    clear - Hg0 Hgmax Hh Hgh. nia. }
  assert (Hrows : forall i, 0 <= i < n -> (Z.quot i cc + 1) * h <= g * h).
  { intros i Hi. destruct (grid_rows_bounds n cc i Hcc Hi) as (_ & Hle).
    fold g in Hle. clear - Hle Hh. nia. }
  unfold updateGeometries. rewrite Hm. cbn [bind]. fold cc n vw vh sbw.
  rewrite Hvis, Evw.
  rewrite !div_pos_divisor, !rem_pos_divisor by lia. cbn [bind].
  rewrite Eg. fold w0. rewrite !qMin_spec, Egh0, Evw1.
  change (Z.quot vw cc) with (tile_width v). rewrite <- Eh, Egh.
  destruct (Z.ltb_spec vh (g * Z.min w0 vh)) as [Hover|Hfits].
  - rewrite (div_pos_divisor vh h) by lia. cbn [bind].
    rewrite (div_pos_divisor h 2) by lia. cbn [bind].
    eexists. split; [reflexivity|].
    cbn [set_verticalScrollBar verticalScrollBar ScrollBar.setSingleStep
         ScrollBar.setPageStep sb_maximum].
    rewrite apply_setRange_maximum.
    destruct (Z.ltb_spec (g * h) vh) as [Hlt|Hge].
    + split; [lia|]. split; [lia|]. intros i Hi. specialize (Hrows i Hi). lia.
    + assert (E : ((g * h)%Z - vh)%int = g * h - vh).
      { unfold Int32.sub. apply wrap_small.
        unfold Int32.in_range, Int32.INT_MIN, Int32.INT_MAX in *. lia. }
      rewrite E. split; [lia|]. split; [lia|].
      intros i Hi. specialize (Hrows i Hi). lia.
  - eexists. split; [reflexivity|]. rewrite apply_setRange_maximum.
    split; [lia|]. split; [lia|]. intros i Hi. specialize (Hrows i Hi). lia.
Qed.

(** X15, witness: the scrollable twelve-row example: three tile rows of
    100 pixels on a viewport 200 pixels high. *)
Lemma updateGeometries_scroll_range_witness :
  exists v',
    updateGeometries twelve_scrollable = Some v' /\
    (viewport_height twelve_scrollable
       <= grid_rows (rowCount twelve_rows) (m_columnCount twelve_scrollable)
          * tile_height twelve_scrollable ->
     sb_maximum (verticalScrollBar v')
     = grid_rows (rowCount twelve_rows) (m_columnCount twelve_scrollable)
       * tile_height twelve_scrollable
       - viewport_height twelve_scrollable) /\
    (grid_rows (rowCount twelve_rows) (m_columnCount twelve_scrollable)
       * tile_height twelve_scrollable
       < viewport_height twelve_scrollable ->
     0 <= sb_maximum (verticalScrollBar v') <= 1) /\
    (forall i, 0 <= i < rowCount twelve_rows ->
       (Z.quot i (m_columnCount twelve_scrollable) + 1)
         * tile_height twelve_scrollable - viewport_height twelve_scrollable
         <= sb_maximum (verticalScrollBar v')).
Proof.
  apply (updateGeometries_scroll_range twelve_scrollable twelve_rows);
    try reflexivity; vm_compute; intuition discriminate.
Defined.

Example twelve_scrollable_range :
  option_map (fun v' => sb_maximum (verticalScrollBar v'))
             (updateGeometries twelve_scrollable) = Some 100.
Proof. vm_compute. reflexivity. Qed.
